(** * cache_model.py: the HuggingFace model cache loader, embedded in Rocq

    The program checks whether a model is already stored under a prefix of an
    S3 bucket, and when it is not, downloads the model from the hub into a
    fresh local directory, uploads every file of that directory and removes
    the directory again.

    The embedding follows [cache_model.py] function by function.  Python
    exceptions are values of [exn] carried by [result]; the file system, the
    object store and the sequence of observable events are threaded through a
    state-and-error monad [M]; everything the program cannot decide by itself
    (environment variables, faults of the network, the content of the hub,
    the completion order of the worker pool) is read from a [world]. *)

From Stdlib Require Import Ascii String ZArith Lia Bool.
From Stdlib Require Import Sorting.Permutation.
From stdpp Require Import base option list gmap strings pretty.

Set Warnings "-register-all".

Open Scope string_scope.
Open Scope list_scope.

(** ** Python strings *)

Module Py.

(** [len(s)] *)
Definition len (s : string) : nat := String.length s.

(** [s.startswith(p)] *)
Definition startswith (p s : string) : bool := String.prefix p s.

(** [s.endswith(p)]: some suffix of [s] is [p]. *)
Fixpoint endswith (p s : string) : bool :=
  String.eqb p s ||
  match s with
  | EmptyString => false
  | String _ s' => endswith p s'
  end.

(** [p in s]: [p] starts at some position of [s]. *)
Fixpoint contains (p s : string) : bool :=
  String.prefix p s ||
  match s with
  | EmptyString => false
  | String _ s' => contains p s'
  end.

(** [s[:n]] for [n >= 0] *)
Fixpoint slice_to (n : nat) (s : string) : string :=
  match n, s with
  | S n', String c s' => String c (slice_to n' s')
  | _, _ => EmptyString
  end.

(** [s[n:]] for [n >= 0] *)
Fixpoint slice_from (n : nat) (s : string) : string :=
  match n, s with
  | S n', String _ s' => slice_from n' s'
  | _, _ => s
  end.

(** [s[-n:]] for [n > 0]: the start index [len(s) - n] is clipped at 0. *)
Definition slice_last (n : nat) (s : string) : string :=
  slice_from (len s - n) s.

(** [not value] for a value of type [Optional[str]] *)
Definition falsy (v : option string) : bool :=
  match v with
  | None => true
  | Some s => String.eqb s ""
  end.

(** [sep.join(l)] *)
Fixpoint str_join (sep : string) (l : list string) : string :=
  match l with
  | [] => ""
  | [x] => x
  | x :: l' => x +:+ sep +:+ str_join sep l'
  end.

(** [s.split(c)] for a separator of one character: never the empty list. *)
Fixpoint split (c : ascii) (s : string) : list string :=
  match s with
  | EmptyString => [""]
  | String a s' =>
      if Ascii.eqb a c then "" :: split c s'
      else match split c s' with
           | [] => [String a ""]
           | x :: l => String a x :: l
           end
  end.

End Py.

(** ** Exceptions and results *)

(** The exception classes the program raises, catches or lets through.
    [SystemExit] is the only one that is not a subclass of [Exception]. *)
Inductive exn :=
| ValueError (msg : string)
| RuntimeError (msg : string)
| ClientError (code : string)
| HfHubHTTPError (msg : string)
| OSError (msg : string)
| OtherException (cls : string) (msg : string)
| SystemExit (code : Z).

Definition is_Exception (e : exn) : bool :=
  match e with SystemExit _ => false | _ => true end.

Definition is_ClientError (e : exn) : bool :=
  match e with ClientError _ => true | _ => false end.

Definition is_HfHubHTTPError (e : exn) : bool :=
  match e with HfHubHTTPError _ => true | _ => false end.

Definition is_OSError (e : exn) : bool :=
  match e with OSError _ => true | _ => false end.

Definition is_ValueError (e : exn) : bool :=
  match e with ValueError _ => true | _ => false end.

(** [str(e)] *)
Definition exn_str (e : exn) : string :=
  match e with
  | ValueError m | RuntimeError m | HfHubHTTPError m | OSError m => m
  | ClientError c => "An error occurred (" +:+ c +:+ ")"
  | OtherException _ m => m
  | SystemExit c => pretty c
  end.

(** [type(e).__name__] *)
Definition exn_name (e : exn) : string :=
  match e with
  | ValueError _ => "ValueError"
  | RuntimeError _ => "RuntimeError"
  | ClientError _ => "ClientError"
  | HfHubHTTPError _ => "HfHubHTTPError"
  | OSError _ => "OSError"
  | OtherException c _ => c
  | SystemExit _ => "SystemExit"
  end.

Inductive result (A : Type) :=
| Ok (a : A)
| Raise (e : exn).
Arguments Ok {A} a.
Arguments Raise {A} e.

(** ** Regular expressions of [re.match]

    The two patterns of [validate_inputs] use character classes, sequence,
    [*], [?], bounded repetition and the anchors [^] and [$].  Whether
    [re.match] finds a match is membership in the language of the pattern,
    decided here with derivatives. *)

Module Re.

Inductive regex :=
| Void
| Eps
| Cls (p : ascii -> bool)
| Alt (r1 r2 : regex)
| Seq (r1 r2 : regex)
| Opt (r : regex)
| Star (r : regex)
| Rep (r : regex) (lo hi : nat).

Fixpoint nullable (r : regex) : bool :=
  match r with
  | Void => false
  | Eps => true
  | Cls _ => false
  | Alt r1 r2 => nullable r1 || nullable r2
  | Seq r1 r2 => nullable r1 && nullable r2
  | Opt _ => true
  | Star _ => true
  | Rep r lo _ => (lo =? 0)%nat || nullable r
  end.

Fixpoint deriv (c : ascii) (r : regex) : regex :=
  match r with
  | Void => Void
  | Eps => Void
  | Cls p => if p c then Eps else Void
  | Alt r1 r2 => Alt (deriv c r1) (deriv c r2)
  | Seq r1 r2 =>
      if nullable r1
      then Alt (Seq (deriv c r1) r2) (deriv c r2)
      else Seq (deriv c r1) r2
  | Opt r => deriv c r
  | Star r => Seq (deriv c r) (Star r)
  | Rep r lo hi =>
      match hi with
      | O => Void
      | S hi' => Seq (deriv c r) (Rep r (Nat.pred lo) hi')
      end
  end.

(** The whole of [s] is in the language of [r]. *)
Fixpoint fullmatch (r : regex) (s : string) : bool :=
  match s with
  | EmptyString => nullable r
  | String c s' => fullmatch (deriv c r) s'
  end.

(** [s] without a final newline, when it has one. *)
Fixpoint chomp (s : string) : option string :=
  match s with
  | EmptyString => None
  | String c EmptyString => if Ascii.eqb c "010" then Some "" else None
  | String c s' => option_map (String c) (chomp s')
  end.

(** [re.match('^' r '$', s)]: without [re.MULTILINE], [^] is the start of the
    string, and [$] is its end or the position before a newline that ends
    it. *)
Definition py_match (r : regex) (s : string) : bool :=
  fullmatch r s ||
  match chomp s with
  | Some s' => fullmatch r s'
  | None => false
  end.

Definition between (lo hi c : ascii) : bool :=
  (nat_of_ascii lo <=? nat_of_ascii c)%nat && (nat_of_ascii c <=? nat_of_ascii hi)%nat.

Definition one_of (l : list ascii) (c : ascii) : bool :=
  existsb (Ascii.eqb c) l.

Definition lit (a : ascii) : regex := Cls (Ascii.eqb a).

End Re.

(** ** [posixpath]

    The program runs in a Linux container: [os.path] is [posixpath] and the
    separator is the slash. *)

Module Path.

Definition nonempty (s : string) : bool := negb (String.eqb s "").

(** [os.path.isabs] *)
Definition isabs (s : string) : bool := Py.startswith "/" s.

(** [os.path.join(a, b)] *)
Definition join2 (a b : string) : string :=
  if Py.startswith "/" b then b
  else if String.eqb a "" || Py.endswith "/" a then a +:+ b
  else a +:+ "/" +:+ b.

(** [os.path.join(a, *p)] *)
Definition join (a : string) (p : list string) : string :=
  fold_left join2 p a.

(** The number of leading slashes [normpath] keeps: POSIX gives a meaning of
    its own to exactly two of them. *)
Definition initial_slashes (path : string) : nat :=
  if Py.startswith "/" path then
    if Py.startswith "//" path && negb (Py.startswith "///" path) then 2 else 1
  else 0.

(** One turn of the loop of [normpath] over the components. *)
Definition norm_step (initial : nat) (new_comps : list string) (comp : string)
  : list string :=
  if String.eqb comp "" || String.eqb comp "." then new_comps
  else if negb (String.eqb comp "..")
          || ((initial =? 0)%nat && match new_comps with [] => true | _ => false end)
          || match last new_comps with
             | Some c => String.eqb c ".."
             | None => false
             end
       then new_comps ++ [comp]
       else removelast new_comps.

(** [os.path.normpath] *)
Definition normpath (path : string) : string :=
  if String.eqb path "" then "."
  else
    let initial := initial_slashes path in
    let comps := fold_left (norm_step initial) (Py.split "/" path) [] in
    let path := Py.str_join "/" comps in
    let path := Py.str_join "" (replicate initial "/") +:+ path in
    if String.eqb path "" then "." else path.

(** [os.path.abspath], with the working directory [cwd] of the process *)
Definition abspath (cwd path : string) : string :=
  normpath (if isabs path then path else join2 cwd path).

(** [os.path.commonprefix] of two lists: their longest common prefix. *)
Fixpoint commonprefix (l1 l2 : list string) : list string :=
  match l1, l2 with
  | x :: l1', y :: l2' => if String.eqb x y then x :: commonprefix l1' l2' else []
  | _, _ => []
  end.

(** The components of the absolute form of a path:
    [[x for x in abspath(p).split(sep) if x]]. *)
Definition abs_comps (cwd p : string) : list string :=
  List.filter nonempty (Py.split "/" (abspath cwd p)).

(** [os.path.relpath(path, start)] *)
Definition relpath (cwd path start : string) : result string :=
  if String.eqb path "" then Raise (ValueError "no path specified")
  else
    let start_list := abs_comps cwd start in
    let path_list := abs_comps cwd path in
    let i := length (commonprefix start_list path_list) in
    let rel_list := replicate (length start_list - i) ".." ++ drop i path_list in
    match rel_list with
    | [] => Ok "."
    | c :: cs => Ok (join c cs)
    end.

End Path.

(** ** The local file system

    A tree of directories and regular files, rooted at ["/"].  The entries of
    a directory are kept in the order in which [os.scandir] lists them.
    Symbolic links are not modelled: the download is made with
    [local_dir_use_symlinks=False]. *)

Inductive node :=
| File (content : string)
| Dir (entries : list (string * node)).

Module Fs.

Fixpoint lookup_entry (name : string) (es : list (string * node)) : option node :=
  match es with
  | [] => None
  | (k, v) :: es' => if String.eqb k name then Some v else lookup_entry name es'
  end.

(** The node at a path of components below [n]. *)
Fixpoint resolve (cs : list string) (n : node) : option node :=
  match cs with
  | [] => Some n
  | c :: cs' =>
      match n with
      | File _ => None
      | Dir es =>
          match lookup_entry c es with
          | Some v => resolve cs' v
          | None => None
          end
      end
  end.

(** Replaces the node of entry [name] by [f] of it, or adds the entry. *)
Fixpoint put_entry (name : string) (f : option node -> node)
    (es : list (string * node)) : list (string * node) :=
  match es with
  | [] => [(name, f None)]
  | (k, v) :: es' =>
      if String.eqb k name then (k, f (Some v)) :: es'
      else (k, v) :: put_entry name f es'
  end.

(** Stores [new] at the path [cs], making the directories on the way as
    [os.makedirs(..., exist_ok=True)] does; a regular file on the way is left
    as it is. *)
Fixpoint put (cs : list string) (new : node) (n : node) : node :=
  match cs with
  | [] => new
  | c :: cs' =>
      match n with
      | File _ => n
      | Dir es =>
          Dir (put_entry c (fun old => put cs' new (default (Dir []) old)) es)
      end
  end.

(** [os.mkdir]: the parent must be a directory and the name must be free. *)
Fixpoint mkdir (cs : list string) (n : node) : option node :=
  match cs, n with
  | [], _ => None
  | _, File _ => None
  | [c], Dir es =>
      match lookup_entry c es with
      | Some _ => None
      | None => Some (Dir (put_entry c (fun _ => Dir []) es))
      end
  | c :: cs', Dir es =>
      match lookup_entry c es with
      | Some v =>
          match mkdir cs' v with
          | Some v' => Some (Dir (put_entry c (fun _ => v') es))
          | None => None
          end
      | None => None
      end
  end.

Fixpoint remove_entry (name : string) (es : list (string * node))
  : list (string * node) :=
  match es with
  | [] => []
  | (k, v) :: es' =>
      if String.eqb k name then es' else (k, v) :: remove_entry name es'
  end.

(** Removes the node at the path [cs] with everything below it. *)
Fixpoint remove (cs : list string) (n : node) : node :=
  match cs, n with
  | [], _ => n
  | _, File _ => n
  | [c], Dir es => Dir (remove_entry c es)
  | c :: cs', Dir es =>
      match lookup_entry c es with
      | Some v => Dir (put_entry c (fun _ => remove cs' v) es)
      | None => n
      end
  end.

(** The names [os.walk] reports as [dirs] and as [files] of a directory. *)
Definition dirs_of (es : list (string * node)) : list string :=
  flat_map (fun e => match snd e with Dir _ => [fst e] | File _ => [] end) es.

Definition files_of (es : list (string * node)) : list string :=
  flat_map (fun e => match snd e with File _ => [fst e] | Dir _ => [] end) es.

(** [os.walk(top)] below a node, top-down: the triple of the directory, then
    the walks of its sub-directories [os.path.join(top, name)] in order. *)
Fixpoint walk (top : string) (n : node) : list (string * list string * list string) :=
  match n with
  | File _ => []
  | Dir es =>
      (top, dirs_of es, files_of es)
      :: (fix walk_entries (es : list (string * node)) :=
            match es with
            | [] => []
            | (name, child) :: es' =>
                walk (Path.join2 top name) child ++ walk_entries es'
            end) es
  end.

Definition walk_entries (top : string) (es : list (string * node))
  : list (string * list string * list string) :=
  flat_map (fun e => walk (Path.join2 top (fst e)) (snd e)) es.

(** The path lookup of the kernel, in a tree without symbolic links: from
    the position [cur] (the names from the root down to a node) along the
    components [comps].  Every step starts in a directory; an empty component
    and [.] stay there, [..] goes to the parent (the root is its own parent),
    a name goes to the entry of that name, which must exist. *)
Fixpoint locate (root : node) (cur comps : list string) : option (list string) :=
  match comps with
  | [] => Some cur
  | c :: comps' =>
      match resolve cur root with
      | Some (Dir es) =>
          if String.eqb c "" || String.eqb c "." then locate root cur comps'
          else if String.eqb c ".." then locate root (removelast cur) comps'
          else match lookup_entry c es with
               | Some _ => locate root (cur ++ [c]) comps'
               | None => None
               end
      | _ => None
      end
  end.

(** The path the kernel walks from the root for [path]: the empty path names
    nothing, and a relative path is looked up from the working directory of
    the process, whose path [cwd] is absolute. *)
Definition os_path (cwd path : string) : option string :=
  if String.eqb path "" then None
  else if Path.isabs path then Some path
  else if Path.isabs cwd then Some (Path.join2 cwd path)
  else None.

(** Where [path] leads, when it leads somewhere. *)
Definition lookup_path (root : node) (cwd path : string) : option (list string) :=
  match os_path cwd path with
  | Some q => locate root [] (Py.split "/" q)
  | None => None
  end.

(** [os.stat(path)]: the node [path] leads to. *)
Definition stat (root : node) (cwd path : string) : option node :=
  match lookup_path root cwd path with
  | Some pos => resolve pos root
  | None => None
  end.

(** [os.mkdir(path)] for a path that does not end with a slash: the path up
    to the last component must lead to a directory, in which the last
    component, a name that is free, is made. *)
Definition make_dir (root : node) (cwd path : string) : option node :=
  match os_path cwd path with
  | Some q =>
      let comps := Py.split "/" q in
      match last comps with
      | Some name =>
          if String.eqb name "" || String.eqb name "." || String.eqb name ".."
          then None
          else match locate root [] (removelast comps) with
               | Some pos => mkdir (pos ++ [name]) root
               | None => None
               end
      | None => None
      end
  | None => None
  end.

End Fs.

(** ** The world and the state of a run *)

Inductive level := INFO | WARNING | ERROR.

(** What a run does that can be observed from outside: its log lines and its
    calls of the hub, of the object store and of the file system. *)
Inductive event :=
| Log (lv : level) (msg : string)
| Print (msg : string)
| EvCreateClient (endpoint_url : string)
| EvListObjectsV2 (bucket prefix : string) (max_keys : nat)
| EvMkdtemp (path : string)
| EvSnapshotDownload (repo_id local_dir : string) (token : option string)
| EvUploadFile (local_file_path bucket key : string)
| EvRmtree (path : string).

(** An upload task: [(local_file_path, s3_key, relative_path)]. *)
Definition task : Type := string * string * string.

(** What [snapshot_download] leaves in [local_dir], and what it returns or
    raises. *)
Record hub_outcome := {
  hub_files : list (string * node);
  hub_result : result string
}.

(** The order in which the futures of the worker pool complete: some
    permutation of the order of submission. *)
Record scheduler := {
  completion : list task -> list task;
  completion_perm : forall l, Permutation (completion l) l
}.

Record world := {
  (** [os.environ] *)
  environ : gmap string string;
  (** [os.getcwd()] *)
  cwd : string;
  (** [boto3.client] refusing its arguments *)
  client_fault : option exn;
  (** a failure of the listing request that is not decided by the content of
      the store: network, credentials *)
  list_fault : option exn;
  (** a failure of the upload to a key *)
  upload_fault : string -> option exn;
  (** the random part of the name [mkdtemp] picks *)
  mkdtemp_name : string;
  (** the hub *)
  hub : string -> string -> option string -> hub_outcome;
  (** [shutil.rmtree] failing: it raises the [OSError] of the system call
      that failed *)
  rmtree_fault : option string;
  (** the worker pool *)
  pool : scheduler
}.

Record state := {
  (** the root directory of the local file system *)
  fs : node;
  (** the object store: bucket, key, content *)
  s3 : gmap string (gmap string string);
  (** the variable [download_dir] of [main], read by its [finally] clause *)
  var_download_dir : option string;
  (** the events so far, oldest first *)
  trace : list event
}.

(** ** The monad of the program: state and exceptions *)

Definition M (A : Type) : Type := state -> result A * state.

Definition ret {A} (a : A) : M A := fun st => (Ok a, st).

Definition raise {A} (e : exn) : M A := fun st => (Raise e, st).

Definition bind {A B} (m : M A) (k : A -> M B) : M B :=
  fun st =>
    match m st with
    | (Ok a, st') => k a st'
    | (Raise e, st') => (Raise e, st')
    end.

#[global] Instance M_ret : MRet M := @ret.
#[global] Instance M_bind : MBind M := fun A B k m => bind m k.

(** [try: m except ...]: [handler e] is the body of the first clause that
    matches [e], if one does. *)
Definition try_except {A} (m : M A) (handler : exn -> option (M A)) : M A :=
  fun st =>
    match m st with
    | (Ok a, st') => (Ok a, st')
    | (Raise e, st') =>
        match handler e with
        | Some h => h st'
        | None => (Raise e, st')
        end
    end.

(** [try: m finally: f]: [f] runs whatever [m] did; what [m] returned or
    raised stands unless [f] raises. *)
Definition try_finally {A} (m : M A) (f : M unit) : M A :=
  fun st =>
    match m st with
    | (r, st') =>
        match f st' with
        | (Ok _, st'') => (r, st'')
        | (Raise e, st'') => (Raise e, st'')
        end
    end.

Definition get : M state := fun st => (Ok st, st).

Definition emit (e : event) : M unit :=
  fun st =>
    (Ok tt, {| fs := fs st; s3 := s3 st; var_download_dir := var_download_dir st;
               trace := trace st ++ [e] |}).

Definition set_fs (n : node) : M unit :=
  fun st =>
    (Ok tt, {| fs := n; s3 := s3 st; var_download_dir := var_download_dir st;
               trace := trace st |}).

Definition set_s3 (m : gmap string (gmap string string)) : M unit :=
  fun st =>
    (Ok tt, {| fs := fs st; s3 := m; var_download_dir := var_download_dir st;
               trace := trace st |}).

Definition set_download_dir (d : option string) : M unit :=
  fun st =>
    (Ok tt, {| fs := fs st; s3 := s3 st; var_download_dir := d;
               trace := trace st |}).

(** [logger.info], [logger.warning], [logger.error] *)
Definition log (lv : level) (msg : string) : M unit := emit (Log lv msg).

(** [tqdm.write(msg)]: a line on the standard output, past the logger *)
Definition tqdm_write (msg : string) : M unit := emit (Print msg).

(** [sys.exit(code)] *)
Definition sys_exit {A} (code : Z) : M A := raise (SystemExit code).

(** The exit status of the process when [main()] ends with [r]. *)
Definition exit_status {A} (r : result A) : Z :=
  match r with
  | Ok _ => 0
  | Raise (SystemExit code) => code
  | Raise _ => 1
  end.

(** ** The collaborators: file system, hub, object store *)

Section Collaborators.

Variable w : world.

(** [os.path.exists] *)
Definition path_exists (path : string) : M bool :=
  st ← get;
  mret (bool_decide (is_Some (Fs.stat (fs st) (cwd w) path))).

(** [tempfile.mkdtemp(prefix=prefix, dir=dir)]: the directory
    [os.path.join(dir, prefix + name)] is made with [os.mkdir] and its path
    returned (since Python 3.12 in absolute form, which names the same
    directory); [name] is the random name [tempfile] draws, which has no
    slash.  A name that is taken or a [dir] that does not lead to a directory
    ends in an [OSError]. *)
Definition mkdtemp (prefix dir : string) : M string :=
  let file := Path.join2 dir (prefix +:+ mkdtemp_name w) in
  st ← get;
  match Fs.make_dir (fs st) (cwd w) file with
  | Some fs' => set_fs fs';; emit (EvMkdtemp file);; mret file
  | None => raise (OSError ("cannot create directory " +:+ file))
  end.

(** [shutil.rmtree(path)]: [path] must lead to a directory, which is removed
    with all it holds; the root itself cannot be removed, only emptied. *)
Definition rmtree (path : string) : M unit :=
  emit (EvRmtree path);;
  match rmtree_fault w with
  | Some msg => raise (OSError msg)
  | None =>
      st ← get;
      match Fs.lookup_path (fs st) (cwd w) path with
      | Some pos =>
          match Fs.resolve pos (fs st) with
          | Some (Dir _) =>
              match pos with
              | [] =>
                  set_fs (Dir []);;
                  raise (OSError ("cannot remove the root directory: " +:+ path))
              | _ :: _ => set_fs (Fs.remove pos (fs st))
              end
          | _ => raise (OSError ("not a directory: " +:+ path))
          end
      | None => raise (OSError ("no such file or directory: " +:+ path))
      end
  end.

(** [os.walk(top)]: nothing when [top] does not lead to a directory. *)
Definition os_walk (top : string) : M (list (string * list string * list string)) :=
  st ← get;
  mret match Fs.stat (fs st) (cwd w) top with
       | Some n => Fs.walk top n
       | None => []
       end.

(** [snapshot_download(repo_id=..., local_dir=..., local_dir_use_symlinks=False,
    resume_download=True, token=...)]: the hub client makes [local_dir] if
    needed (at the normalized absolute path, which is where [local_dir] leads
    when it leads somewhere) and writes into it, also when it fails half-way;
    it never removes [local_dir]. *)
Definition snapshot_download (repo_id local_dir : string) (token : option string)
  : M string :=
  emit (EvSnapshotDownload repo_id local_dir token);;
  st ← get;
  let o := hub w repo_id local_dir token in
  set_fs (Fs.put (Path.abs_comps (cwd w) local_dir) (Dir (hub_files o)) (fs st));;
  match hub_result o with
  | Ok path => mret path
  | Raise e => raise e
  end.

(** The response of a listing: the key ['Contents'] is absent when no object
    is listed. *)
Record list_response := {
  Contents : option (list string);
  KeyCount : nat
}.

(** [s3_client.list_objects_v2(Bucket=bucket, Prefix=prefix, MaxKeys=max_keys)] *)
Definition list_objects_v2 (bucket prefix : string) (max_keys : nat)
  : M list_response :=
  emit (EvListObjectsV2 bucket prefix max_keys);;
  match list_fault w with
  | Some e => raise e
  | None =>
      st ← get;
      match s3 st !! bucket with
      | None => raise (ClientError "NoSuchBucket")
      | Some objs =>
          let keys :=
            take max_keys
              (List.filter (Py.startswith prefix) (map fst (map_to_list objs))) in
          mret {| Contents := match keys with [] => None | _ => Some keys end;
                  KeyCount := length keys |}
      end
  end.

(** [s3_client.upload_file(local_file_path, bucket, key)] *)
Definition upload_file (local_file_path bucket key : string) : M unit :=
  emit (EvUploadFile local_file_path bucket key);;
  match upload_fault w key with
  | Some e => raise e
  | None =>
      st ← get;
      match Fs.stat (fs st) (cwd w) local_file_path with
      | Some (File content) =>
          match s3 st !! bucket with
          | Some objs => set_s3 (<[bucket := <[key := content]> objs]> (s3 st))
          | None => raise (OtherException "S3UploadFailedError" "NoSuchBucket")
          end
      | _ => raise (OSError ("cannot read " +:+ local_file_path))
      end
  end.

(** [os.path.getsize]; the size of a directory is not modelled, the program
    asks for the size of regular files only. *)
Definition getsize (path : string) : M nat :=
  st ← get;
  match Fs.stat (fs st) (cwd w) path with
  | Some (File content) => mret (Py.len content)
  | Some (Dir _) => mret 0
  | None => raise (OSError ("cannot stat " +:+ path))
  end.

End Collaborators.

(** ** [mask_credential] *)

Definition mask_credential (value : option string) : string :=
  match value with
  | None => "***"
  | Some v =>
      if Py.falsy value || (Py.len v <? 8)%nat then "***"
      else Py.slice_to 4 v +:+ "***" +:+ Py.slice_last 4 v
  end.

(** ** The patterns of [validate_inputs] *)

(** [[a-zA-Z0-9]] *)
Definition alnum (c : ascii) : bool :=
  Re.between "a" "z" c || Re.between "A" "Z" c || Re.between "0" "9" c.

(** [[a-zA-Z0-9._-]] *)
Definition alnum_dot_us_dash (c : ascii) : bool :=
  alnum c || Re.one_of ["."; "_"; "-"]%char c.

(** [[a-z0-9]] *)
Definition lower_digit (c : ascii) : bool :=
  Re.between "a" "z" c || Re.between "0" "9" c.

(** [[a-z0-9.-]] *)
Definition lower_digit_dot_dash (c : ascii) : bool :=
  lower_digit c || Re.one_of ["."; "-"]%char c.

(** [model_pattern] of the source, between [^] and [$]: one [[a-zA-Z0-9]],
    then [[a-zA-Z0-9._-]] any number of times, then an optional group made of
    a slash, one [[a-zA-Z0-9]] and [[a-zA-Z0-9._-]] any number of times. *)
Definition model_pattern : Re.regex :=
  Re.Seq (Re.Cls alnum)
    (Re.Seq (Re.Star (Re.Cls alnum_dot_us_dash))
       (Re.Opt (Re.Seq (Re.lit "/")
                  (Re.Seq (Re.Cls alnum) (Re.Star (Re.Cls alnum_dot_us_dash)))))).

(** [bucket_pattern] of the source, [^[a-z0-9][a-z0-9.-]{1,61}[a-z0-9]$]. *)
Definition bucket_pattern : Re.regex :=
  Re.Seq (Re.Cls lower_digit)
    (Re.Seq (Re.Rep (Re.Cls lower_digit_dot_dash) 1 61) (Re.Cls lower_digit)).

(** ** [validate_inputs] *)

Definition validate_inputs (model_name s3_bucket s3_prefix : string) : M unit :=
  if negb (Re.py_match model_pattern model_name) then
    raise (ValueError
      ("Invalid MODEL_NAME '" +:+ model_name +:+ "'. Must match pattern: "
       +:+ "alphanumeric start, followed by alphanumeric/dots/hyphens/underscores, "
       +:+ "optionally with a single '/' separator for username/repo format."))
  else if negb (Re.py_match bucket_pattern s3_bucket) then
    raise (ValueError
      ("Invalid S3_BUCKET '" +:+ s3_bucket +:+ "'. Must be 3-63 characters, "
       +:+ "lowercase letters, numbers, dots, and hyphens only."))
  else if Py.contains ".." s3_prefix then
    raise (ValueError
      ("Invalid S3_PREFIX '" +:+ s3_prefix
       +:+ "'. Cannot contain '..' (path traversal)."))
  else if Py.startswith "/" s3_prefix then
    raise (ValueError
      ("Invalid S3_PREFIX '" +:+ s3_prefix
       +:+ "'. Cannot start with '/' (absolute path)."))
  else log INFO "Input validation passed successfully".

(** [f"{total_size / 1024 / 1024:.2f}"]: the two divisions by a power of two
    are exact in floating point for a size below 2^53 bytes, and the result
    is written with two decimals, rounded half to even. *)
Definition format_mb (total_size : nat) : string :=
  let n := (N.of_nat total_size * 100)%N in
  let q := (n / 1048576)%N in
  let r := (n mod 1048576)%N in
  let hundredths :=
    if (524288 <? r)%N then (q + 1)%N
    else if (r <? 524288)%N then q
    else if N.even q then q else (q + 1)%N in
  pretty (hundredths / 100)%N +:+ "."
  +:+ pretty ((hundredths mod 100) / 10)%N +:+ pretty (hundredths mod 10)%N.

(** ** The program, in a world *)

(** The dictionary [config] of [validate_environment]. *)
Record config := {
  model_name : string;
  s3_bucket : string;
  s3_endpoint_url : string;
  aws_access_key_id : string;
  aws_secret_access_key : string;
  s3_prefix : string;
  hf_token : option string;
  download_dir : string
}.

(** The client object of [boto3]: its calls go to the store of the world. *)
Record s3_client := {
  endpoint_url : string
}.

Section Program.

Variable w : world.

(** A required variable of [validate_environment]:
    [v = os.environ.get(name)], then [if not v: logger.error(...); sys.exit(1)]. *)
Definition required_env (name : string) : M string :=
  match environ w !! name with
  | Some v =>
      if Py.falsy (Some v) then
        log ERROR (name +:+ " environment variable is required");; sys_exit 1
      else mret v
  | None =>
      log ERROR (name +:+ " environment variable is required");; sys_exit 1
  end.

Definition validate_environment : M config :=
  v_model_name ← required_env "MODEL_NAME";
  v_s3_bucket ← required_env "S3_BUCKET";
  v_s3_endpoint_url ← required_env "S3_ENDPOINT_URL";
  v_aws_access_key ← required_env "AWS_ACCESS_KEY_ID";
  v_aws_secret_key ← required_env "AWS_SECRET_ACCESS_KEY";
  let cfg :=
    {| model_name := v_model_name;
       s3_bucket := v_s3_bucket;
       s3_endpoint_url := v_s3_endpoint_url;
       aws_access_key_id := v_aws_access_key;
       aws_secret_access_key := v_aws_secret_key;
       s3_prefix := default "models/" (environ w !! "S3_PREFIX");
       hf_token := environ w !! "HF_TOKEN";
       download_dir := default "/tmp" (environ w !! "DOWNLOAD_DIR") |} in
  try_except
    (validate_inputs cfg.(model_name) cfg.(s3_bucket) cfg.(s3_prefix))
    (fun e =>
       if is_ValueError e then
         Some (log ERROR ("Input validation failed: " +:+ exn_str e);; sys_exit 1)
       else None);;
  log INFO "Configuration loaded:";;
  log INFO ("  MODEL_NAME: " +:+ cfg.(model_name));;
  log INFO ("  S3_BUCKET: " +:+ cfg.(s3_bucket));;
  log INFO ("  S3_ENDPOINT_URL: " +:+ cfg.(s3_endpoint_url));;
  log INFO ("  S3_PREFIX: " +:+ cfg.(s3_prefix));;
  log INFO ("  AWS_ACCESS_KEY_ID: " +:+ mask_credential (Some cfg.(aws_access_key_id)));;
  log INFO ("  AWS_SECRET_ACCESS_KEY: "
            +:+ mask_credential (Some cfg.(aws_secret_access_key)));;
  log INFO ("  HF_TOKEN: " +:+ (if Py.falsy cfg.(hf_token) then "not set" else "***"));;
  log INFO ("  DOWNLOAD_DIR: " +:+ cfg.(download_dir));;
  mret cfg.

Definition create_s3_client (endpoint_url aws_access_key_id aws_secret_access_key : string)
  : M s3_client :=
  log INFO ("Creating S3 client with endpoint: " +:+ endpoint_url);;
  emit (EvCreateClient endpoint_url);;
  match client_fault w with
  | Some e => raise e
  | None => mret {| endpoint_url := endpoint_url |}
  end.

Definition model_exists_in_s3 (client : s3_client) (bucket prefix : string) : M bool :=
  log INFO ("Checking S3 for existing model: s3://" +:+ bucket +:+ "/" +:+ prefix);;
  try_except
    (response ← list_objects_v2 w bucket prefix 1;
     let exists_ := bool_decide (is_Some (Contents response)) in
     (if exists_
      then log INFO ("Model found in S3 at s3://" +:+ bucket +:+ "/" +:+ prefix)
      else log INFO ("Model not found in S3 at s3://" +:+ bucket +:+ "/" +:+ prefix));;
     mret exists_)
    (fun e =>
       if is_ClientError e then
         Some (log ERROR ("Error checking S3: " +:+ exn_str e);; raise e)
       else None).

(** The regular files below a node, as [Path(...).rglob('*')] finds them and
    [is_file()] keeps them. *)
Fixpoint count_files (n : node) : nat :=
  match n with
  | File _ => 1
  | Dir es =>
      (fix count_entries (es : list (string * node)) : nat :=
         match es with
         | [] => 0
         | (_, child) :: es' => count_files child + count_entries es'
         end) es
  end.

(** The file system under [download_path] for [rglob]: a path that is a
    regular file has nothing below it. *)
Definition rglob_file_count (download_path : string) : M nat :=
  st ← get;
  mret match Fs.stat (fs st) (cwd w) download_path with
       | Some (Dir es) => count_files (Dir es)
       | _ => 0
       end.

(** The lines that report durations, sizes and speeds as floating point
    numbers, and the lines of the largest files, are left out. *)
Definition download_model_from_hf (model_name download_dir : string)
    (hf_token : option string) : M string :=
  log INFO ("Downloading model '" +:+ model_name +:+ "' from HuggingFace...");;
  log INFO ("Download directory: " +:+ download_dir);;
  log INFO "Starting download - this may take a while for large models...";;
  download_path ← snapshot_download w model_name download_dir hf_token;
  log INFO ("Download complete: " +:+ download_path);;
  present ← path_exists w download_path;
  (if negb present then
     log ERROR ("Download path does not exist: " +:+ download_path);;
     raise (RuntimeError
       ("Download validation failed: path " +:+ download_path +:+ " does not exist"))
   else mret tt);;
  file_count ← rglob_file_count download_path;
  (if (file_count =? 0)%nat then
     log WARNING ("Download directory is empty - model repo may be empty or "
                  +:+ "download may have failed silently")
   else
     log INFO ("Downloaded " +:+ pretty file_count +:+ " files");;
     log INFO "Largest files downloaded:");;
  mret download_path.

Definition upload_file_to_s3 (client : s3_client)
    (local_file_path bucket s3_key : string) : M nat :=
  upload_file w local_file_path bucket s3_key;;
  getsize w local_file_path.

(** The two nested loops that fill [files_to_upload]. *)
Fixpoint collect_files (local_dir s3_prefix root : string) (files : list string)
  : M (list task) :=
  match files with
  | [] => mret []
  | file :: files' =>
      let local_file_path := Path.join2 root file in
      match Path.relpath (cwd w) local_file_path local_dir with
      | Raise e => raise e
      | Ok relative_path =>
          let s3_key := s3_prefix +:+ relative_path in
          rest ← collect_files local_dir s3_prefix root files';
          mret ((local_file_path, s3_key, relative_path) :: rest)
      end
  end.

Fixpoint collect_walk (local_dir s3_prefix : string)
    (triples : list (string * list string * list string)) : M (list task) :=
  match triples with
  | [] => mret []
  | (root, _, files) :: triples' =>
      here ← collect_files local_dir s3_prefix root files;
      rest ← collect_walk local_dir s3_prefix triples';
      mret (here ++ rest)
  end.

(** The worker pool after the loop over [as_completed] has raised: leaving the
    [with] block waits for the futures that are still running or queued, and
    drops what they return or raise. *)
Fixpoint drain (client : s3_client) (bucket : string) (pending : list task) : M unit :=
  match pending with
  | [] => mret tt
  | (local_file_path, s3_key, _) :: pending' =>
      try_except
        (upload_file_to_s3 client local_file_path bucket s3_key;; mret tt)
        (fun _ => Some (mret tt));;
      drain client bucket pending'
  end.

(** The loop [for future in as_completed(future_to_file)]: the futures come in
    the order in which their uploads complete; the state of the loop is
    [(total_size, file_count)]. *)
Fixpoint as_completed_loop (client : s3_client) (bucket : string)
    (completed : list task) (total_size file_count : nat) : M (nat * nat) :=
  match completed with
  | [] => mret (total_size, file_count)
  | (local_file_path, s3_key, relative_path) :: completed' =>
      acc ← try_except
        (file_size ← upload_file_to_s3 client local_file_path bucket s3_key;
         tqdm_write ("  Uploaded: " +:+ relative_path +:+ " -> " +:+ s3_key);;
         mret (total_size + file_size, file_count + 1))
        (fun e =>
           Some ((if is_Exception e then
                    log ERROR ("Failed to upload " +:+ relative_path +:+ ": "
                               +:+ exn_str e)
                  else mret tt);;
                 drain client bucket completed';;
                 raise e));
      as_completed_loop client bucket completed' (fst acc) (snd acc)
  end.

Definition normalize_prefix (s3_prefix : string) : string :=
  if negb (Py.endswith "/" s3_prefix) then s3_prefix +:+ "/" else s3_prefix.

(** The list [files_to_upload]. *)
Definition files_to_upload (local_dir s3_prefix : string) : M (list task) :=
  triples ← os_walk w local_dir;
  collect_walk local_dir (normalize_prefix s3_prefix) triples.

(** [ThreadPoolExecutor(max_workers=max_workers)]: the pool refuses to be
    made without a worker. *)
Definition thread_pool_executor (max_workers : nat) : M unit :=
  if (max_workers =? 0)%nat
  then raise (ValueError "max_workers must be greater than 0")
  else mret tt.

Definition upload_directory_to_s3 (client : s3_client)
    (local_dir bucket s3_prefix : string) (max_workers : nat) : M unit :=
  let s3_prefix' := normalize_prefix s3_prefix in
  log INFO ("Uploading " +:+ local_dir +:+ " to s3://" +:+ bucket +:+ "/" +:+ s3_prefix');;
  files ← files_to_upload local_dir s3_prefix;
  match files with
  | [] => log WARNING "No files to upload"
  | _ =>
      log INFO ("Uploading " +:+ pretty (length files) +:+ " files with "
                +:+ pretty max_workers +:+ " concurrent workers");;
      thread_pool_executor max_workers;;
      acc ← as_completed_loop client bucket (completion (pool w) files) 0 0;
      log INFO ("Upload complete: " +:+ pretty (snd acc) +:+ " files, "
                +:+ format_mb (fst acc) +:+ " MB total")
  end.

Definition cleanup_local_files (directory : string) : M unit :=
  log INFO ("Cleaning up local files: " +:+ directory);;
  try_except
    (present ← path_exists w directory;
     if present : bool then
       rmtree w directory;;
       log INFO "Cleanup complete"
     else log INFO "Directory does not exist, skipping cleanup")
    (fun e =>
       if is_OSError e then
         Some (log WARNING ("Cleanup failed (non-fatal): " +:+ exn_str e))
       else None).

(** [full_s3_prefix] of [main] *)
Definition full_s3_prefix (s3_prefix model_name : string) : string :=
  let s3_prefix :=
    if Path.nonempty s3_prefix && negb (Py.endswith "/" s3_prefix)
    then s3_prefix +:+ "/" else s3_prefix in
  s3_prefix +:+ model_name +:+ "/".

Definition banner (lv : level) (msg : string) : M unit :=
  log lv "============================================================";;
  log lv msg;;
  log lv "============================================================".

(** The [try] block of [main] *)
Definition main_body : M unit :=
  cfg ← validate_environment;
  client ← create_s3_client cfg.(s3_endpoint_url) cfg.(aws_access_key_id)
             cfg.(aws_secret_access_key);
  let full := full_s3_prefix cfg.(s3_prefix) cfg.(model_name) in
  found ← model_exists_in_s3 client cfg.(s3_bucket) full;
  if found : bool then
    log INFO "Model found in S3, skipping download";;
    banner INFO "SUCCESS: Model is ready in S3";;
    sys_exit 0
  else
    log INFO "Model not found in S3, starting download from HuggingFace";;
    dir ← mkdtemp w "hf_model_" cfg.(download_dir);
    set_download_dir (Some dir);;
    log INFO ("Created secure download directory: " +:+ dir);;
    download_model_from_hf cfg.(model_name) dir cfg.(hf_token);;
    upload_directory_to_s3 client dir cfg.(s3_bucket) full 10;;
    banner INFO "SUCCESS: Model downloaded and uploaded to S3";;
    sys_exit 0.

(** The [except] clauses of [main], in their order *)
Definition main_handlers (e : exn) : option (M unit) :=
  if is_ClientError e then
    Some (banner ERROR "FAILED: S3 operation error";;
          log ERROR ("S3 Error (" +:+ match e with ClientError c => c | _ => "" end
                     +:+ "): " +:+ exn_str e);;
          sys_exit 1)
  else if is_HfHubHTTPError e then
    Some (banner ERROR "FAILED: HuggingFace Hub error";;
          log ERROR ("HF Hub Error: " +:+ exn_str e);;
          sys_exit 1)
  else if is_OSError e then
    Some (banner ERROR "FAILED: Filesystem error";;
          log ERROR ("Filesystem Error: " +:+ exn_str e);;
          sys_exit 1)
  else if is_Exception e then
    Some (banner ERROR "FAILED: An unexpected error occurred";;
          log ERROR ("Unexpected Error (" +:+ exn_name e +:+ "): " +:+ exn_str e);;
          log WARNING "This is an unexpected error type. Please report this issue.";;
          sys_exit 1)
  else None.

(** The [finally] clause of [main] *)
Definition main_finally : M unit :=
  st ← get;
  match var_download_dir st with
  | Some dir =>
      if Path.nonempty dir then
        present ← path_exists w dir;
        if present : bool then cleanup_local_files dir else mret tt
      else mret tt
  | None => mret tt
  end.

Definition main : M unit :=
  banner INFO "HuggingFace Model Cache Loader - Starting";;
  set_download_dir None;;
  try_finally (try_except main_body main_handlers) main_finally.

End Program.

(** ** Concrete worlds and states *)

Module Examples.

Definition fifo : scheduler :=
  {| completion := fun l => l;
     completion_perm := fun l => Permutation_refl l |}.

Definition lifo : scheduler :=
  {| completion := @rev task;
     completion_perm := fun l => Permutation_sym (Permutation_rev l) |}.

(** The environment of the test suite ([mock_env_vars]). *)
Definition test_env : gmap string string :=
  list_to_map
    [("MODEL_NAME", "gpt2");
     ("S3_BUCKET", "test-bucket");
     ("S3_ENDPOINT_URL", "https://objectstore.example.com");
     ("AWS_ACCESS_KEY_ID", "AKIATEST1234567890AB");
     ("AWS_SECRET_ACCESS_KEY", "secretkey1234567890abcdefghijklmnopqrstuvwxyz");
     ("S3_PREFIX", "models/");
     ("DOWNLOAD_DIR", "/tmp")].

(** A hub whose repositories hold [a/b.txt] and [c.txt]. *)
Definition two_files : list (string * node) :=
  [("a", Dir [("b.txt", File "bbb")]); ("c.txt", File "cc")].

Definition test_world : world :=
  {| environ := test_env;
     cwd := "/app";
     client_fault := None;
     list_fault := None;
     upload_fault := fun _ => None;
     mkdtemp_name := "k3x9_q1z";
     hub := fun _ local_dir _ =>
              {| hub_files := two_files; hub_result := Ok local_dir |};
     rmtree_fault := None;
     pool := fifo |}.

(** A machine with [/tmp] and [/app], and a store with an empty bucket. *)
Definition fresh_state : state :=
  {| fs := Dir [("tmp", Dir []); ("app", Dir [])];
     s3 := {["test-bucket" := ∅]};
     var_download_dir := None;
     trace := [] |}.

(** The same with the model already in the bucket. *)
Definition populated_state : state :=
  {| fs := Dir [("tmp", Dir []); ("app", Dir [])];
     s3 := {["test-bucket" := {["models/gpt2/config.json" := "{}"]}]};
     var_download_dir := None;
     trace := [] |}.

(** The same world with an upload that fails for [c.txt]. *)
Definition failing_upload_world : world :=
  {| environ := test_env;
     cwd := "/app";
     client_fault := None;
     list_fault := None;
     upload_fault := fun key =>
       if String.eqb key "models/gpt2/c.txt"
       then Some (OtherException "S3UploadFailedError" "connection reset")
       else None;
     mkdtemp_name := "k3x9_q1z";
     hub := fun _ local_dir _ =>
              {| hub_files := two_files; hub_result := Ok local_dir |};
     rmtree_fault := None;
     pool := lifo |}.

(** A hub whose repository is empty. *)
Definition empty_repo_world : world :=
  {| environ := test_env;
     cwd := "/app";
     client_fault := None;
     list_fault := None;
     upload_fault := fun _ => None;
     mkdtemp_name := "k3x9_q1z";
     hub := fun _ local_dir _ => {| hub_files := []; hub_result := Ok local_dir |};
     rmtree_fault := None;
     pool := fifo |}.

(** A hub that reports another directory than the one it was given. *)
Definition elsewhere_world : world :=
  {| environ := test_env;
     cwd := "/app";
     client_fault := None;
     list_fault := None;
     upload_fault := fun _ => None;
     mkdtemp_name := "k3x9_q1z";
     hub := fun _ local_dir _ =>
              {| hub_files := two_files; hub_result := Ok "/app" |};
     rmtree_fault := None;
     pool := fifo |}.

(** A hub that reports a path that does not exist: the empty path, or a path
    through a directory that is not there. *)
Definition nowhere_world (reported : string) : world :=
  {| environ := test_env;
     cwd := "/app";
     client_fault := None;
     list_fault := None;
     upload_fault := fun _ => None;
     mkdtemp_name := "k3x9_q1z";
     hub := fun _ local_dir _ =>
              {| hub_files := two_files; hub_result := Ok reported |};
     rmtree_fault := None;
     pool := fifo |}.

(** The test world with another [DOWNLOAD_DIR]. *)
Definition download_dir_world (dir : string) : world :=
  {| environ := <["DOWNLOAD_DIR" := dir]> test_env;
     cwd := "/app";
     client_fault := None;
     list_fault := None;
     upload_fault := fun _ => None;
     mkdtemp_name := "k3x9_q1z";
     hub := fun _ local_dir _ =>
              {| hub_files := two_files; hub_result := Ok local_dir |};
     rmtree_fault := None;
     pool := fifo |}.

End Examples.

(** The world [w] with another behaviour of [shutil.rmtree]. *)
Definition with_rmtree_fault (w : world) (fault : option string) : world :=
  {| environ := environ w;
     cwd := cwd w;
     client_fault := client_fault w;
     list_fault := list_fault w;
     upload_fault := upload_fault w;
     mkdtemp_name := mkdtemp_name w;
     hub := hub w;
     rmtree_fault := fault;
     pool := pool w |}.

(** * The vocabulary of the properties

    Predicates on traces, states and trees, and the logic in which the
    properties of [main] are proved. *)

(** The four checks of [validate_inputs] as one boolean. *)
Definition inputs_ok (model_name s3_bucket s3_prefix : string) : bool :=
  Re.py_match model_pattern model_name
  && Re.py_match bucket_pattern s3_bucket
  && negb (Py.contains ".." s3_prefix)
  && negb (Py.startswith "/" s3_prefix).

(** The listing requests of a trace. *)
Definition list_requests (t : list event) : list (string * string * nat) :=
  flat_map (fun e => match e with
                     | EvListObjectsV2 b p k => [(b, p, k)]
                     | _ => []
                     end) t.

(** [hoare P m Q]: from a state that satisfies [P], the computation [m] ends
    with a result and in a state that satisfy [Q]. *)
Definition hoare {A} (P : state -> Prop) (m : M A) (Q : result A -> state -> Prop)
  : Prop :=
  forall st, P st -> Q (fst (m st)) (snd (m st)).

(** The events that are not a call on a local directory. *)
Definition benign (e : event) : bool :=
  match e with
  | EvMkdtemp _ | EvSnapshotDownload _ _ _ | EvRmtree _ => false
  | _ => true
  end.

(** [m] keeps the invariant [I], whether it returns or raises. *)
Definition inv {A} (I : state -> Prop) (m : M A) : Prop :=
  hoare I m (fun _ st => I st).

(** What [main] does before its [try] statement. *)
Definition main_start : M unit :=
  banner INFO "HuggingFace Model Cache Loader - Starting";;
  set_download_dir None.

(** The calls that create, fill or remove local directories. *)
Definition fs_events (t : list event) : list event :=
  List.filter (fun e => negb (benign e)) t.

(** The file system, the variable [download_dir] and the calls on local
    directories are as they were. *)
Definition untouched (f0 : node) (v0 : option string) (t0 : list event)
    (st : state) : Prop :=
  fs st = f0 /\ var_download_dir st = v0 /\ fs_events (trace st) = t0.

(** The directories [mkdtemp] created in a trace. *)
Definition mkdtemps (t : list event) : list string :=
  flat_map (fun e => match e with EvMkdtemp d => [d] | _ => [] end) t.

(** [os.path.exists(d)] holds in [st]. *)
Definition dir_exists (w : world) (d : string) (st : state) : Prop :=
  is_Some (Fs.stat (fs st) (cwd w) d).

(** No directory has been created since the trace was [t0]. *)
Definition before_mkdtemp (t0 : list event) (st : state) : Prop :=
  var_download_dir st = None
  /\ exists new, trace st = t0 ++ new /\ mkdtemps new = [].

(** The file system is still [f0], and no directory has been created since
    the trace was [t0]. *)
Definition not_yet_made (f0 : node) (t0 : list event) (st : state) : Prop :=
  fs st = f0 /\ before_mkdtemp t0 st.

(** The tree [n] has every directory of [n0], with at least its entries. *)
Definition extends (n0 n : node) : Prop :=
  forall cur es,
    Fs.resolve cur n0 = Some (Dir es) ->
    exists es', Fs.resolve cur n = Some (Dir es')
                /\ forall c, is_Some (Fs.lookup_entry c es) ->
                             is_Some (Fs.lookup_entry c es').

(** The directory [d] could be made in the file system [f0], and the file
    system of [st] is [f0] with a directory, and what is below it, where [d]
    has been made. *)
Definition made_in (w : world) (f0 : node) (d : string) (st : state) : Prop :=
  is_Some (Fs.make_dir f0 (cwd w) d)
  /\ Fs.remove (Path.abs_comps (cwd w) d) (fs st) = f0
  /\ exists es, Fs.resolve (Path.abs_comps (cwd w) d) (fs st) = Some (Dir es).

(** The directory [d], and no other, has been created, in the file system
    [f0], since the trace was [t0]; it is still there, and the variable
    [download_dir] holds [v]. *)
Definition created (w : world) (f0 : node) (t0 : list event) (d : string)
    (v : option string) (st : state) : Prop :=
  var_download_dir st = v
  /\ Path.nonempty d = true
  /\ made_in w f0 d st
  /\ exists t1 t2, trace st = t0 ++ t1 ++ EvMkdtemp d :: t2
                   /\ mkdtemps t1 = [] /\ mkdtemps t2 = [].

(** Where the [try] block and its handlers leave the run *)
Definition after_try (w : world) (f0 : node) (t0 : list event) (st : state)
  : Prop :=
  not_yet_made f0 t0 st \/ exists d, created w f0 t0 d (Some d) st.

(** The last event of [cleanup_local_files] on a directory that exists. *)
Definition cleanup_end (w : world) : event :=
  match rmtree_fault w with
  | None => Log INFO "Cleanup complete"
  | Some msg => Log WARNING ("Cleanup failed (non-fatal): " +:+ msg)
  end.

(** Where a run of [main] ends: either no directory was created, or one
    directory [d] was, and the run ends with [cleanup_local_files] on it: its
    first line, the call of [shutil.rmtree] and its last line; the file system
    is [f0] again when [shutil.rmtree] has not failed. *)
Definition after_main (w : world) (f0 : node) (t0 : list event) (st : state)
  : Prop :=
  not_yet_made f0 t0 st
  \/ exists d t1 t2,
       is_Some (Fs.make_dir f0 (cwd w) d)
       /\ trace st = t0 ++ t1 ++ EvMkdtemp d
                        :: t2 ++ [Log INFO ("Cleaning up local files: " +:+ d);
                                  EvRmtree d; cleanup_end w]
       /\ mkdtemps t1 = [] /\ mkdtemps t2 = []
       /\ (rmtree_fault w = None -> fs st = f0).

(** The regular files below the entries of a directory. *)
Definition count_entries (es : list (string * node)) : nat :=
  fold_right (fun e acc => count_files (snd e) + acc) 0 es.

(** The upload of one task, as the worker pool runs it. *)
Definition run_task (w : world) (client : s3_client) (bucket : string) (t : task)
  : M nat :=
  upload_file_to_s3 w client (fst (fst t)) bucket (snd (fst t)).

(** Two states in which an upload to [bucket] behaves alike: the same files,
    and the bucket present in both or in neither. *)
Definition same_view (bucket : string) (st st' : state) : Prop :=
  fs st = fs st' /\ (s3 st !! bucket = None <-> s3 st' !! bucket = None).

(** The character [c] occurs in [s]. *)
Fixpoint has_char (c : ascii) (s : string) : bool :=
  match s with
  | EmptyString => false
  | String a s' => Ascii.eqb a c || has_char c s'
  end.

(** The names a directory can hold: not empty, without a slash, and neither
    [.] nor [..], which [os.scandir] never lists. *)
Definition valid_name (s : string) : bool :=
  Path.nonempty s && negb (has_char "/" s)
  && negb (String.eqb s ".") && negb (String.eqb s "..").

(** What [normpath] keeps on its stack: non-empty parts without slash. *)
Definition good_comp (x : string) : Prop :=
  Path.nonempty x = true /\ has_char "/" x = false.

(** The regular files below a node, each by the names on the way down, in the
    order of [os.walk]. *)
Fixpoint files_below (n : node) : list (list string) :=
  match n with
  | File _ => []
  | Dir es =>
      map (fun f => [f]) (Fs.files_of es)
      ++ (fix below (es : list (string * node)) :=
            match es with
            | [] => []
            | (name, child) :: es' =>
                map (cons name) (files_below child) ++ below es'
            end) es
  end.

(** Every name in the tree is one a directory can hold. *)
Fixpoint wf_node (n : node) : bool :=
  match n with
  | File _ => true
  | Dir es =>
      (fix wf_entries (es : list (string * node)) :=
         match es with
         | [] => true
         | (name, child) :: es' =>
             valid_name name && wf_node child && wf_entries es'
         end) es
  end.

(** The task the program builds for the file at the names [cs] below
    [local_dir]. *)
Definition task_of (local_dir pre : string) (cs : list string) : task :=
  (Path.join local_dir cs, pre +:+ Py.str_join "/" cs, Py.str_join "/" cs).

(** The calls of [upload_file] in a trace. *)
Definition upload_events (t : list event) : list event :=
  List.filter (fun e => match e with EvUploadFile _ _ _ => true | _ => false end) t.

(** The call of [upload_file] that a task makes. *)
Definition upload_event_of (bucket : string) (t : task) : event :=
  EvUploadFile (fst (fst t)) bucket (snd (fst t)).

(** ** The vocabulary of the further properties *)

(** The variables [validate_environment] requires. *)
Definition required_vars : list string :=
  ["MODEL_NAME"; "S3_BUCKET"; "S3_ENDPOINT_URL"; "AWS_ACCESS_KEY_ID";
   "AWS_SECRET_ACCESS_KEY"].

(** The variable is set, and not to the empty string. *)
Definition env_set (w : world) (name : string) : bool :=
  negb (Py.falsy (environ w !! name)).

(** The configuration the environment describes. *)
Definition config_of_env (w : world) : config :=
  {| model_name := default "" (environ w !! "MODEL_NAME");
     s3_bucket := default "" (environ w !! "S3_BUCKET");
     s3_endpoint_url := default "" (environ w !! "S3_ENDPOINT_URL");
     aws_access_key_id := default "" (environ w !! "AWS_ACCESS_KEY_ID");
     aws_secret_access_key := default "" (environ w !! "AWS_SECRET_ACCESS_KEY");
     s3_prefix := default "models/" (environ w !! "S3_PREFIX");
     hf_token := environ w !! "HF_TOKEN";
     download_dir := default "/tmp" (environ w !! "DOWNLOAD_DIR") |}.

(** The environment passes [validate_environment]. *)
Definition env_valid (w : world) : bool :=
  forallb (env_set w) required_vars
  && inputs_ok (config_of_env w).(model_name) (config_of_env w).(s3_bucket)
       (config_of_env w).(s3_prefix).

Definition is_log (e : event) : bool :=
  match e with Log _ _ => true | _ => false end.

(** Since the trace was [t0] only log lines were added, and nothing else of
    the state has changed. *)
Definition only_logged (st0 st : state) : Prop :=
  fs st = fs st0 /\ s3 st = s3 st0 /\ var_download_dir st = var_download_dir st0
  /\ exists logs, trace st = trace st0 ++ logs /\ forallb is_log logs = true.

(** The exceptions a run can meet when its collaborators fail as libraries
    do: the two exits of the program, and the subclasses of [Exception]. *)
Definition failure (e : exn) : Prop :=
  e = SystemExit 1 \/ is_Exception e = true.

Definition exit_or_error (e : exn) : Prop :=
  e = SystemExit 0 \/ e = SystemExit 1 \/ is_Exception e = true.

(** The collaborators of the world fail with subclasses of [Exception]. *)
Definition faults_are_errors (w : world) : Prop :=
  (forall e, client_fault w = Some e -> is_Exception e = true)
  /\ (forall e, list_fault w = Some e -> is_Exception e = true)
  /\ (forall key e, upload_fault w key = Some e -> is_Exception e = true)
  /\ (forall repo_id local_dir token e,
        hub_result (hub w repo_id local_dir token) = Raise e ->
        is_Exception e = true).

(** What [m] raises, when it raises, satisfies [P]. *)
Definition raises {A} (P : exn -> Prop) (m : M A) : Prop :=
  forall st, match fst (m st) with Raise e => P e | Ok _ => True end.

(** [m] never returns: it raises, and what it raises satisfies [P]. *)
Definition ends_raising {A} (P : exn -> Prop) (m : M A) : Prop :=
  forall st, exists e, fst (m st) = Raise e /\ P e.

(** A world without any environment variable. *)
Definition empty_env_world : world :=
  {| environ := ∅;
     cwd := "/app";
     client_fault := None;
     list_fault := None;
     upload_fault := fun _ => None;
     mkdtemp_name := "k3x9_q1z";
     hub := fun _ local_dir _ => {| hub_files := []; hub_result := Ok local_dir |};
     rmtree_fault := None;
     pool := Examples.fifo |}.

(** The content stored under [key] in [bucket], if any. *)
Definition object (st : state) (bucket key : string) : option string :=
  s3 st !! bucket ≫= (fun objs => objs !! key).

(** From [st0] to [st] nothing but objects of [bucket] whose key starts with
    [pre] has changed: the file system and [download_dir] are the same, no
    bucket has appeared or gone, no object has gone, and every object of
    another bucket or under another key has the content it had. *)
Definition written_under (bucket pre : string) (st0 st : state) : Prop :=
  fs st = fs st0
  /\ var_download_dir st = var_download_dir st0
  /\ (forall b, s3 st !! b = None <-> s3 st0 !! b = None)
  /\ (forall b k, is_Some (object st0 b k) -> is_Some (object st b k))
  /\ (forall b k, b <> bucket \/ Py.startswith pre k = false ->
                  object st b k = object st0 b k).

(** The key of the task starts with [pre]. *)
Definition task_under (pre : string) (t : task) : Prop :=
  Py.startswith pre (snd (fst t)) = true.

(** No directory of the tree lists a name twice. *)
Fixpoint distinct_names (n : node) : bool :=
  match n with
  | File _ => true
  | Dir es =>
      bool_decide (NoDup (map fst es))
      && (fix distinct_entries (es : list (string * node)) :=
            match es with
            | [] => true
            | (_, child) :: es' => distinct_names child && distinct_entries es'
            end) es
  end.

(** The content of the regular file a task reads, in the file system [f]. *)
Definition content_of (w : world) (f : node) (t : task) : string :=
  match Fs.stat f (cwd w) (fst (fst t)) with
  | Some (File content) => content
  | _ => ""
  end.

(** The task reads a regular file. *)
Definition readable (w : world) (f : node) (t : task) : Prop :=
  exists content, Fs.stat f (cwd w) (fst (fst t)) = Some (File content).

(** The objects of a bucket after the uploads of [tasks], in their order. *)
Definition store_tasks (w : world) (f : node) (tasks : list task)
    (objs : gmap string string) : gmap string string :=
  fold_left (fun o t => <[snd (fst t) := content_of w f t]> o) tasks objs.

(** The sizes of the files the tasks read, added up. *)
Definition size_tasks (w : world) (f : node) (tasks : list task) : nat :=
  fold_right (fun t acc => Py.len (content_of w f t) + acc) 0 tasks.

(** The size of the regular file at [names] below [n]. *)
Definition file_size (n : node) (names : list string) : nat :=
  match Fs.resolve names n with
  | Some (File content) => Py.len content
  | _ => 0
  end.

(** The sizes of the regular files below [n], added up. *)
Definition total_size (n : node) : nat :=
  fold_right (fun names acc => file_size n names + acc) 0 (files_below n).

(** A machine on which the model has been downloaded below [/tmp]. *)
Definition downloaded_state : state :=
  {| fs := Dir [("tmp", Dir [("hf_model_k3x9_q1z", Dir Examples.two_files)]);
                ("app", Dir [])];
     s3 := {["test-bucket" := {["models/old.bin" := "old"]}; "other" := ∅]};
     var_download_dir := Some "/tmp/hf_model_k3x9_q1z";
     trace := [] |}.

(** The file system is [f] and the store is [s]. *)
Definition view (f : node) (s : gmap string (gmap string string)) (st : state)
  : Prop :=
  fs st = f /\ s3 st = s.

(** The directory [main] lets [mkdtemp] make. *)
Definition main_download_dir (w : world) : string :=
  Path.join2 (config_of_env w).(download_dir) ("hf_model_" +:+ mkdtemp_name w).

(** The prefix under which [main] stores the model. *)
Definition main_prefix (w : world) : string :=
  full_s3_prefix (config_of_env w).(s3_prefix) (config_of_env w).(model_name).

(** What the hub delivers to [main]. *)
Definition main_hub (w : world) : hub_outcome :=
  hub w (config_of_env w).(model_name) (main_download_dir w)
    (config_of_env w).(hf_token).

(** Every character of [s] is in the class [p]. *)
Fixpoint all_chars (p : ascii -> bool) (s : string) : bool :=
  match s with
  | EmptyString => true
  | String c s' => p c && all_chars p s'
  end.

(** The last character of [s] is in the class [p]. *)
Fixpoint last_char (p : ascii -> bool) (s : string) : bool :=
  match s with
  | EmptyString => false
  | String c EmptyString => p c
  | String _ s' => last_char p s'
  end.

(** What the message of [validate_inputs] says of a bucket name, and what
    the pattern adds for its first and last characters. *)
Definition bucket_ok (s : string) : bool :=
  (3 <=? Py.len s)%nat && (Py.len s <=? 63)%nat
  && all_chars lower_digit_dot_dash s
  && match s with
     | String c _ => lower_digit c
     | EmptyString => false
     end
  && last_char lower_digit s.

(** One part of a model name: a letter or digit, then letters, digits, dots,
    underscores and hyphens. *)
Definition segment_ok (s : string) : bool :=
  match s with
  | String c s' => alnum c && all_chars alnum_dot_us_dash s'
  | EmptyString => false
  end.

(** A model name: one part, or two parts with a slash between them. *)
Definition model_ok (s : string) : bool :=
  match Py.split "/" s with
  | [a] => segment_ok a
  | [a; b] => segment_ok a && segment_ok b
  | _ => false
  end.

(** The line feed. *)
Definition newline : string := String "010" "".

(** [s], or [s] without the line feed that ends it, passes [ok]. *)
Definition ok_up_to_newline (ok : string -> bool) (s : string) : Prop :=
  ok s = true \/ exists s', s = s' +:+ newline /\ ok s' = true.

(** From [st0] to [st] the store has changed in objects of [bucket] whose key
    starts with [pre] at most: no bucket has appeared or gone, no object has
    gone, and every object of another bucket or under another key has the
    content it had. *)
Definition store_written_under (bucket pre : string) (st0 st : state) : Prop :=
  (forall b, s3 st !! b = None <-> s3 st0 !! b = None)
  /\ (forall b k, is_Some (object st0 b k) -> is_Some (object st b k))
  /\ (forall b k, b <> bucket \/ Py.startswith pre k = false ->
                  object st b k = object st0 b k).

(** * Properties *)

(** ** Examples of the path functions and of the patterns *)

Example normpath_ex :
  map Path.normpath [""; "/"; "//"; "///"; "a/./b//c/"; "/a/b/../c"; "../x"; "/../x"; "a/.."]
  = ["."; "/"; "//"; "/"; "a/b/c"; "/a/c"; "../x"; "/x"; "."].
Proof. vm_compute. reflexivity. Qed.

Example relpath_ex :
  Path.relpath "/work" "/tmp/hf_model_x/a/b.txt" "/tmp/hf_model_x" = Ok "a/b.txt"
  /\ Path.relpath "/work" "d/a/b.txt" "d/" = Ok "a/b.txt"
  /\ Path.relpath "/work" "/tmp/y" "/tmp/x" = Ok "../y".
Proof. vm_compute. auto. Qed.

Example model_pattern_ex :
  map (Re.py_match model_pattern)
    ["gpt2"; "openai/gpt-3.5-turbo"; "meta-llama/Llama-2-7b-hf"; "a..b";
     "../../../etc/passwd"; "model@name"; "org/model/extra"; ""; "/x"; "a/"]
  = [true; true; true; true; false; false; false; false; false; false].
Proof. vm_compute. reflexivity. Qed.

Example bucket_pattern_ex :
  map (Re.py_match bucket_pattern)
    ["test-bucket"; "my-bucket"; "test.bucket.name"; "bucket123"; "a..b"; "abc";
     "MyBucket"; "ab"; "bucket_name"; "-ab"; "ab-"]
  = [true; true; true; true; true; true; false; false; false; false; false].
Proof. vm_compute. reflexivity. Qed.

(** ** Strings *)

Lemma append_cons (c : ascii) (s t : string) :
  String c s +:+ t = String c (s +:+ t).
Proof. reflexivity. Qed.

Lemma append_empty_l (t : string) : "" +:+ t = t.
Proof. reflexivity. Qed.

Lemma append_empty_r (s : string) : s +:+ "" = s.
Proof. induction s as [|c s IH]; [reflexivity|]. rewrite append_cons, IH. reflexivity. Qed.

Lemma append_assoc (s t u : string) : (s +:+ t) +:+ u = s +:+ t +:+ u.
Proof.
  induction s as [|c s IH]; [reflexivity|].
  rewrite !append_cons, IH. reflexivity.
Qed.

Lemma len_append (s t : string) : Py.len (s +:+ t) = Py.len s + Py.len t.
Proof.
  induction s as [|c s IH]; [reflexivity|].
  rewrite append_cons. unfold Py.len in *. simpl. rewrite IH. reflexivity.
Qed.

Lemma endswith_append (p s : string) : Py.endswith p (s +:+ p) = true.
Proof.
  induction s as [|c s IH].
  - rewrite append_empty_l.
    destruct p; cbn [Py.endswith]; rewrite String.eqb_refl; reflexivity.
  - rewrite append_cons. cbn [Py.endswith]. rewrite IH. apply orb_true_r.
Qed.

(** A string splits at every position into [s[:n]] and [s[n:]]. *)
Lemma slice_to_from (n : nat) (s : string) :
  s = Py.slice_to n s +:+ Py.slice_from n s.
Proof.
  revert s. induction n as [|n IH]; intros [|c s]; try reflexivity.
  simpl. rewrite append_cons. f_equal. apply IH.
Qed.

Lemma len_slice_to (n : nat) (s : string) :
  n <= Py.len s -> Py.len (Py.slice_to n s) = n.
Proof.
  revert s. induction n as [|n IH]; intros [|c s] H; try reflexivity.
  - simpl in H. lia.
  - unfold Py.len in *. simpl in *. rewrite IH; lia.
Qed.

Lemma len_slice_from (n : nat) (s : string) :
  Py.len (Py.slice_from n s) = Py.len s - n.
Proof.
  revert s. induction n as [|n IH]; intros [|c s]; try reflexivity.
  unfold Py.len in *. simpl. apply IH.
Qed.

Lemma slice_from_add (m n : nat) (s : string) :
  Py.slice_from (m + n) s = Py.slice_from n (Py.slice_from m s).
Proof.
  revert s. induction m as [|m IH]; intros s.
  - destruct s; reflexivity.
  - destruct s as [|c s]; [destruct n; reflexivity|]. simpl. apply IH.
Qed.

(** ** Paths *)

Lemma split_not_nil (c : ascii) (s : string) : Py.split c s <> [].
Proof.
  destruct s as [|a s]; simpl; [discriminate|].
  destruct (Ascii.eqb a c); [discriminate|].
  destruct (Py.split c s); discriminate.
Qed.

Lemma split_append_sep (c : ascii) (a b : string) :
  Py.split c (a +:+ String c b) = Py.split c a ++ Py.split c b.
Proof.
  induction a as [|x a IH].
  - rewrite append_empty_l. simpl. rewrite Ascii.eqb_refl. reflexivity.
  - rewrite append_cons. simpl. rewrite IH.
    destruct (Ascii.eqb x c); [reflexivity|].
    pose proof (split_not_nil c a) as Hne.
    destruct (Py.split c a) as [|y l]; [contradiction|reflexivity].
Qed.

Lemma split_no_char (c : ascii) (s : string) :
  has_char c s = false -> Py.split c s = [s].
Proof.
  induction s as [|a s IH]; intros H; [reflexivity|].
  simpl in H. apply orb_false_elim in H as [Ha Hs].
  simpl. rewrite Ha, (IH Hs). reflexivity.
Qed.

Lemma split_parts_no_char (c : ascii) (s : string) :
  Forall (fun x => has_char c x = false) (Py.split c s).
Proof.
  induction s as [|a s IH]; simpl; [repeat constructor|].
  destruct (Ascii.eqb a c) eqn:Ha; [constructor; [reflexivity|exact IH]|].
  destruct (Py.split c s) as [|y l]; [repeat constructor; simpl; rewrite Ha; reflexivity|].
  inversion IH as [|? ? Hy Hl]; subst. constructor; [|exact Hl].
  simpl. rewrite Ha, Hy. reflexivity.
Qed.

(** Splitting what was joined gives the parts back. *)
Lemma split_str_join (l : list string) :
  l <> [] ->
  Forall (fun x => has_char "/" x = false) l ->
  Py.split "/" (Py.str_join "/" l) = l.
Proof.
  induction l as [|x l IH]; intros Hne H; [contradiction|].
  inversion H as [|? ? Hx Hl]; subst.
  destruct l as [|y l]; [apply split_no_char, Hx|].
  change (Py.str_join "/" (x :: y :: l)) with (x +:+ "/" +:+ Py.str_join "/" (y :: l)).
  change (x +:+ "/" +:+ Py.str_join "/" (y :: l))
    with (x +:+ String "/" (Py.str_join "/" (y :: l))).
  rewrite split_append_sep, (split_no_char _ _ Hx), IH; [reflexivity|discriminate|exact Hl].
Qed.

Lemma eqb_char_cons (a c : ascii) (r : string) :
  String.eqb (String a "") (String c r) = Ascii.eqb a c && String.eqb "" r.
Proof. reflexivity. Qed.

Lemma endswith_slash_append (x y : string) :
  Path.nonempty y = true ->
  Py.endswith "/" (x +:+ y) = Py.endswith "/" y.
Proof.
  intros Hy. induction x as [|c x IH]; [reflexivity|].
  rewrite append_cons. cbn [Py.endswith]. rewrite IH.
  rewrite eqb_char_cons.
  destruct (x +:+ y) eqn:E; [|rewrite andb_false_r; reflexivity].
  destruct x; [|discriminate E]. rewrite append_empty_l in E. subst y.
  discriminate Hy.
Qed.

Lemma endswith_slash_no_char (s : string) :
  has_char "/" s = false -> Py.endswith "/" s = false.
Proof.
  induction s as [|c s IH]; intros H; [reflexivity|].
  simpl in H. apply orb_false_elim in H as [Hc Hs].
  cbn [Py.endswith]. rewrite (IH Hs), orb_false_r.
  rewrite eqb_char_cons, Ascii.eqb_sym, Hc. reflexivity.
Qed.

(** A string that ends with a slash is a string followed by a slash. *)
Lemma endswith_slash_inv (s : string) :
  Py.endswith "/" s = true -> exists s0, s = s0 +:+ "/".
Proof.
  induction s as [|c s IH]; intros H; [discriminate H|].
  cbn [Py.endswith] in H. apply orb_prop in H as [H|H].
  - apply String.eqb_eq in H. exists "". rewrite <- H. reflexivity.
  - destruct (IH H) as [s0 ->]. exists (String c s0). reflexivity.
Qed.

Lemma valid_name_inv (s : string) :
  valid_name s = true ->
  Path.nonempty s = true /\ has_char "/" s = false /\ s <> "." /\ s <> "..".
Proof.
  unfold valid_name. intros H.
  apply andb_prop in H as [H H4]. apply andb_prop in H as [H H3].
  apply andb_prop in H as [H1 H2].
  apply negb_true_iff in H2, H3, H4.
  repeat split; try assumption.
  - intros ->. discriminate H3.
  - intros ->. discriminate H4.
Qed.

Lemma prefix_cons (a b : ascii) (s1 s2 : string) :
  String.prefix (String a s1) (String b s2)
  = if ascii_dec a b then String.prefix s1 s2 else false.
Proof. reflexivity. Qed.

Lemma startswith_slash_cons (c : ascii) (s : string) :
  Py.startswith "/" (String c s) = Ascii.eqb c "/".
Proof.
  unfold Py.startswith. rewrite prefix_cons.
  destruct (ascii_dec "/" c) as [<-|Hne].
  - rewrite Ascii.eqb_refl. destruct s; reflexivity.
  - symmetry. apply Ascii.eqb_neq. congruence.
Qed.

Lemma valid_name_not_abs (s : string) :
  valid_name s = true -> Py.startswith "/" s = false.
Proof.
  intros H. apply valid_name_inv in H as (_ & Hs & _).
  destruct s as [|c s]; [reflexivity|].
  simpl in Hs. apply orb_false_elim in Hs as [Hc _].
  rewrite startswith_slash_cons. exact Hc.
Qed.

(** *** [normpath] on absolute paths *)

Lemma Forall_removelast {A} (P : A -> Prop) (l : list A) :
  Forall P l -> Forall P (removelast l).
Proof.
  induction 1 as [|x l Hx Hl IH]; [constructor|].
  simpl. destruct l; [constructor|]. constructor; assumption.
Qed.

Lemma norm_step_good (i : nat) (stack : list string) (comp : string) :
  Forall good_comp stack -> has_char "/" comp = false ->
  Forall good_comp (Path.norm_step i stack comp).
Proof.
  intros Hs Hc. unfold Path.norm_step.
  destruct (String.eqb comp "") eqn:He; [exact Hs|].
  destruct (String.eqb comp "."); [exact Hs|]. cbn [orb].
  match goal with |- Forall _ (if ?b then _ else _) => destruct b end.
  - apply Forall_app. split; [exact Hs|]. constructor; [|constructor].
    split; [unfold Path.nonempty; rewrite He; reflexivity|exact Hc].
  - apply Forall_removelast, Hs.
Qed.

Lemma norm_fold_good (i : nat) (comps stack : list string) :
  Forall (fun x => has_char "/" x = false) comps ->
  Forall good_comp stack ->
  Forall good_comp (fold_left (Path.norm_step i) comps stack).
Proof.
  revert stack. induction comps as [|c comps IH]; intros stack Hc Hs; [exact Hs|].
  inversion Hc as [|? ? H1 H2]; subst. simpl.
  apply IH; [exact H2|]. apply norm_step_good; assumption.
Qed.

Lemma norm_step_pos (i : nat) (stack : list string) (comp : string) :
  i <> 0 -> Path.norm_step i stack comp = Path.norm_step 1 stack comp.
Proof.
  intros Hi. unfold Path.norm_step.
  destruct i as [|i]; [contradiction|]. reflexivity.
Qed.

Lemma norm_fold_pos (i : nat) (comps stack : list string) :
  i <> 0 ->
  fold_left (Path.norm_step i) comps stack
  = fold_left (Path.norm_step 1) comps stack.
Proof.
  intros Hi. revert stack. induction comps as [|c comps IH]; intros stack;
    [reflexivity|].
  simpl. rewrite (norm_step_pos i _ _ Hi). apply IH.
Qed.

Lemma norm_step_valid (stack : list string) (name : string) :
  valid_name name = true -> Path.norm_step 1 stack name = stack ++ [name].
Proof.
  intros H. unfold valid_name in H.
  apply andb_prop in H as [H H4]. apply andb_prop in H as [H H3].
  apply andb_prop in H as [H1 H2].
  unfold Path.norm_step. unfold Path.nonempty in H1.
  apply negb_true_iff in H1, H3, H4. rewrite H1, H3, H4. reflexivity.
Qed.

Lemma norm_step_empty (i : nat) (stack : list string) :
  Path.norm_step i stack "" = stack.
Proof. reflexivity. Qed.

Lemma initial_slashes_abs (q : string) :
  Path.isabs q = true ->
  Path.initial_slashes q = 1 \/ Path.initial_slashes q = 2.
Proof.
  unfold Path.isabs, Path.initial_slashes. intros ->.
  destruct (Py.startswith "//" q && negb (Py.startswith "///" q)); auto.
Qed.

Lemma isabs_nonempty (q : string) : Path.isabs q = true -> q <> "".
Proof. intros H ->. discriminate H. Qed.

(** The components of a normalized absolute path are the stack [normpath]
    built. *)
Lemma comps_of_normalized (i : nat) (stack : list string) :
  i = 1 \/ i = 2 ->
  Forall good_comp stack ->
  List.filter Path.nonempty
    (Py.split "/" (Py.str_join "" (replicate i "/") +:+ Py.str_join "/" stack))
  = stack.
Proof.
  intros Hi Hs.
  assert (Hsplit : List.filter Path.nonempty (Py.split "/" (Py.str_join "/" stack))
                   = stack).
  { destruct stack as [|x stack]; [reflexivity|].
    rewrite split_str_join; [|discriminate|].
    - clear Hi. induction Hs as [|y l [Hy _] Hl IH]; [reflexivity|].
      simpl. rewrite Hy. f_equal. exact IH.
    - eapply Forall_impl; [exact Hs|]. intros y [_ Hy]. exact Hy. }
  destruct Hi as [-> | ->].
  - change (Py.str_join "" (replicate 1 "/") +:+ Py.str_join "/" stack)
      with ("" +:+ String "/" (Py.str_join "/" stack)).
    rewrite split_append_sep. simpl. exact Hsplit.
  - change (Py.str_join "" (replicate 2 "/") +:+ Py.str_join "/" stack)
      with ("" +:+ String "/" ("" +:+ String "/" (Py.str_join "/" stack))).
    rewrite !split_append_sep. simpl. exact Hsplit.
Qed.

Lemma abs_comps_of_abs (q : string) :
  Path.isabs q = true ->
  List.filter Path.nonempty (Py.split "/" (Path.normpath q))
  = fold_left (Path.norm_step 1) (Py.split "/" q) [].
Proof.
  intros Habs. pose proof (initial_slashes_abs q Habs) as Hi.
  assert (Hgood : Forall good_comp
            (fold_left (Path.norm_step (Path.initial_slashes q)) (Py.split "/" q) [])).
  { apply norm_fold_good; [apply split_parts_no_char|constructor]. }
  unfold Path.normpath.
  destruct (String.eqb_spec q "") as [->|_]; [discriminate Habs|]. cbv zeta.
  match goal with
  | |- context [if String.eqb ?p "" then _ else _] =>
      replace (String.eqb p "") with false
  end.
  - rewrite comps_of_normalized by assumption.
    apply norm_fold_pos. destruct Hi as [-> | ->]; discriminate.
  - destruct Hi as [-> | ->]; reflexivity.
Qed.

(** *** [join] and [abspath] *)

Lemma join2_valid (a name : string) :
  valid_name name = true ->
  Path.join2 a name
  = if String.eqb a "" || Py.endswith "/" a then a +:+ name
    else a +:+ "/" +:+ name.
Proof.
  intros H. unfold Path.join2. rewrite (valid_name_not_abs _ H). reflexivity.
Qed.

(** Joining a name to a path adds one component to its split. *)
Lemma join2_split (p name : string) :
  valid_name name = true ->
  exists l, Py.split "/" (Path.join2 p name) = l ++ [name]
            /\ (Py.split "/" p = l \/ Py.split "/" p = l ++ [""]).
Proof.
  intros H. rewrite (join2_valid _ _ H).
  pose proof (valid_name_inv _ H) as (_ & Hslash & _).
  destruct (String.eqb_spec p "") as [->|Hne].
  - exists []. cbn [String.eqb orb]. rewrite append_empty_l, (split_no_char _ _ Hslash).
    split; [reflexivity|right; reflexivity].
  - cbn [orb]. destruct (Py.endswith "/" p) eqn:He; cbv iota.
    + destruct (endswith_slash_inv _ He) as [p0 ->].
      exists (Py.split "/" p0). rewrite append_assoc.
      change ("/" +:+ name) with (String "/" name).
      change (p0 +:+ "/") with (p0 +:+ String "/" "").
      rewrite !split_append_sep, (split_no_char _ _ Hslash).
      split; [reflexivity|right; reflexivity].
    + exists (Py.split "/" p).
      change (p +:+ "/" +:+ name) with (p +:+ String "/" name).
      rewrite split_append_sep, (split_no_char _ _ Hslash).
      split; [reflexivity|left; reflexivity].
Qed.

Lemma startswith_slash_append (a b : string) :
  a <> "" -> Py.startswith "/" (a +:+ b) = Py.startswith "/" a.
Proof.
  intros Ha. destruct a as [|c a]; [contradiction|].
  rewrite append_cons, !startswith_slash_cons. reflexivity.
Qed.

Lemma join2_isabs (a b : string) :
  a <> "" -> Py.startswith "/" b = false ->
  Path.isabs (Path.join2 a b) = Path.isabs a.
Proof.
  intros Ha Hb. unfold Path.isabs, Path.join2. rewrite Hb.
  destruct (String.eqb a "" || Py.endswith "/" a);
    apply startswith_slash_append, Ha.
Qed.

Lemma join2_valid_isabs (p name : string) :
  valid_name name = true ->
  Path.isabs (Path.join2 p name) = Path.isabs p.
Proof.
  intros H. destruct (String.eqb_spec p "") as [->|Hne].
  - rewrite (join2_valid _ _ H). simpl. rewrite append_empty_l.
    apply (valid_name_not_abs _ H).
  - apply join2_isabs; [exact Hne|apply valid_name_not_abs, H].
Qed.

(** Below an absolute working directory a relative path is put after a
    slash. *)
Lemma join2_cwd (cwd : string) :
  Path.isabs cwd = true ->
  exists c0, forall x, Py.startswith "/" x = false ->
                       Path.join2 cwd x = c0 +:+ String "/" x.
Proof.
  intros Habs. pose proof (isabs_nonempty _ Habs) as Hne.
  destruct (Py.endswith "/" cwd) eqn:He.
  - destruct (endswith_slash_inv _ He) as [c0 Hc0]. exists c0. intros x Hx.
    unfold Path.join2. rewrite Hx, He, orb_true_r. rewrite Hc0.
    rewrite append_assoc. reflexivity.
  - exists cwd. intros x Hx. unfold Path.join2. rewrite Hx, He.
    destruct (String.eqb_spec cwd "") as [E|_]; [contradiction|]. reflexivity.
Qed.

Lemma norm_fold_extend (l stack : list string) (name : string) (sp : list string) :
  valid_name name = true ->
  (sp = l \/ sp = l ++ [""]) ->
  fold_left (Path.norm_step 1) (l ++ [name]) stack
  = fold_left (Path.norm_step 1) sp stack ++ [name].
Proof.
  intros H Hsp. rewrite fold_left_app. simpl. rewrite (norm_step_valid _ _ H).
  destruct Hsp as [-> | ->]; [reflexivity|].
  rewrite fold_left_app. reflexivity.
Qed.

(** The components of [os.path.join(p, name)] are those of [p], then
    [name]. *)
Lemma abs_comps_join2 (cwd p name : string) :
  Path.isabs cwd = true ->
  valid_name name = true ->
  Path.abs_comps cwd (Path.join2 p name) = Path.abs_comps cwd p ++ [name].
Proof.
  intros Hcwd H. unfold Path.abs_comps, Path.abspath.
  rewrite (join2_valid_isabs _ _ H).
  destruct (join2_split p name H) as (l & Hl & Hp).
  destruct (Path.isabs p) eqn:Hpabs.
  - rewrite !abs_comps_of_abs;
      [|exact Hpabs|rewrite (join2_valid_isabs _ _ H); exact Hpabs].
    rewrite Hl. apply norm_fold_extend; assumption.
  - destruct (join2_cwd cwd Hcwd) as [c0 Hc0].
    assert (Hx : Py.startswith "/" (Path.join2 p name) = false).
    { pose proof (join2_valid_isabs p name H) as E. rewrite Hpabs in E. exact E. }
    assert (Habs1 : Path.isabs (Path.join2 cwd p) = true).
    { rewrite join2_isabs; [exact Hcwd|apply isabs_nonempty, Hcwd|exact Hpabs]. }
    assert (Habs2 : Path.isabs (Path.join2 cwd (Path.join2 p name)) = true).
    { rewrite join2_isabs; [exact Hcwd|apply isabs_nonempty, Hcwd|exact Hx]. }
    rewrite !abs_comps_of_abs by assumption.
    rewrite (Hc0 _ Hx), (Hc0 _ Hpabs), !split_append_sep, Hl.
    rewrite app_assoc.
    apply norm_fold_extend; [exact H|].
    destruct Hp as [-> | ->]; [left; reflexivity|right; apply app_assoc].
Qed.

Lemma abs_comps_join (cwd p : string) (names : list string) :
  Path.isabs cwd = true ->
  Forall (fun n => valid_name n = true) names ->
  Path.abs_comps cwd (Path.join p names) = Path.abs_comps cwd p ++ names.
Proof.
  intros Hcwd Hn. revert p. unfold Path.join.
  induction Hn as [|n names Hv _ IH]; intros p; [rewrite app_nil_r; reflexivity|].
  simpl. rewrite IH, (abs_comps_join2 _ _ _ Hcwd Hv), <- app_assoc. reflexivity.
Qed.

(** *** [relpath] below the starting directory *)

Lemma join2_nonempty (a b : string) :
  Path.nonempty b = true -> Path.nonempty (Path.join2 a b) = true.
Proof.
  unfold Path.join2, Path.nonempty. intros Hb.
  destruct (Py.startswith "/" b); [exact Hb|].
  destruct b as [|c b]; [discriminate Hb|].
  destruct (String.eqb a "" || Py.endswith "/" a).
  - destruct a; reflexivity.
  - destruct a; reflexivity.
Qed.

Lemma join_nonempty (p : string) (names : list string) :
  names <> [] ->
  Forall (fun n => valid_name n = true) names ->
  Path.nonempty (Path.join p names) = true.
Proof.
  intros Hne Hn. revert p Hne. unfold Path.join.
  induction Hn as [|n names Hv Hn IH]; intros p Hne; [contradiction|].
  simpl. destruct names as [|n' names].
  - simpl. apply join2_nonempty. apply (valid_name_inv _ Hv).
  - apply IH. discriminate.
Qed.

Lemma commonprefix_app (l k : list string) : Path.commonprefix l (l ++ k) = l.
Proof.
  induction l as [|x l IH]; [destruct k; reflexivity|].
  simpl. rewrite String.eqb_refl, IH. reflexivity.
Qed.

Lemma join_names_from (acc : string) (cs : list string) :
  Path.nonempty acc = true -> Py.endswith "/" acc = false ->
  Forall (fun n => valid_name n = true) cs ->
  fold_left Path.join2 cs acc
  = match cs with
    | [] => acc
    | _ => acc +:+ "/" +:+ Py.str_join "/" cs
    end.
Proof.
  intros Hne He Hcs. revert acc Hne He.
  induction Hcs as [|x cs Hx Hcs IH]; intros acc Hne He; [reflexivity|].
  pose proof (valid_name_inv _ Hx) as (Hx1 & Hx2 & _).
  simpl fold_left. rewrite (join2_valid _ _ Hx), He.
  unfold Path.nonempty in Hne. apply negb_true_iff in Hne. rewrite Hne. cbn [orb].
  rewrite IH.
  - destruct cs as [|y cs]; [reflexivity|].
    change (Py.str_join "/" (x :: y :: cs))
      with (x +:+ "/" +:+ Py.str_join "/" (y :: cs)).
    rewrite !append_assoc. reflexivity.
  - destruct acc; [discriminate Hne|reflexivity].
  - rewrite endswith_slash_append by (destruct x; [discriminate Hx1|reflexivity]).
    change ("/" +:+ x) with ("/" +:+ x).
    rewrite endswith_slash_append by exact Hx1.
    apply endswith_slash_no_char, Hx2.
Qed.

Lemma join_names (c : string) (cs : list string) :
  Forall (fun n => valid_name n = true) (c :: cs) ->
  Path.join c cs = Py.str_join "/" (c :: cs).
Proof.
  intros H. inversion H as [|? ? Hc Hcs]; subst.
  pose proof (valid_name_inv _ Hc) as (Hc1 & Hc2 & _).
  unfold Path.join.
  rewrite join_names_from;
    [|exact Hc1|apply endswith_slash_no_char, Hc2|exact Hcs].
  destruct cs; reflexivity.
Qed.

(** The path of a file relative to a directory above it is made of the names
    on the way down, with slashes between them. *)
Lemma relpath_below (cwd local_dir : string) (names : list string) :
  Path.isabs cwd = true ->
  names <> [] ->
  Forall (fun n => valid_name n = true) names ->
  Path.relpath cwd (Path.join local_dir names) local_dir
  = Ok (Py.str_join "/" names).
Proof.
  intros Hcwd Hne Hn. unfold Path.relpath.
  pose proof (join_nonempty local_dir names Hne Hn) as Hp.
  unfold Path.nonempty in Hp. apply negb_true_iff in Hp. rewrite Hp. cbv zeta.
  rewrite (abs_comps_join _ _ _ Hcwd Hn), commonprefix_app.
  rewrite Nat.sub_diag, drop_app_length. simpl.
  destruct names as [|c cs]; [contradiction|].
  rewrite (join_names _ _ Hn). reflexivity.
Qed.

(** ** The file system operations *)

Lemma lookup_put_entry (c : string) (f : option node -> node)
    (es : list (string * node)) :
  Fs.lookup_entry c (Fs.put_entry c f es) = Some (f (Fs.lookup_entry c es)).
Proof.
  induction es as [|[k v] es IH]; simpl.
  - rewrite String.eqb_refl. reflexivity.
  - destruct (String.eqb k c) eqn:E; simpl; rewrite E; [reflexivity|exact IH].
Qed.

(** Writing a directory where a node already is leaves a node there. *)
Lemma resolve_put (cs : list string) (new n m : node) :
  Fs.resolve cs n = Some m -> Fs.resolve cs (Fs.put cs new n) = Some new.
Proof.
  revert n m. induction cs as [|c cs IH]; intros n m H; [reflexivity|].
  destruct n as [content|es]; [discriminate H|].
  simpl in H. simpl. rewrite lookup_put_entry.
  destruct (Fs.lookup_entry c es) as [v|]; [|discriminate H].
  simpl. apply (IH v m H).
Qed.

Lemma mkdir_deeper (c c' : string) (cs : list string) (es : list (string * node)) :
  Fs.mkdir (c :: c' :: cs) (Dir es)
  = match Fs.lookup_entry c es with
    | Some v =>
        match Fs.mkdir (c' :: cs) v with
        | Some v' => Some (Dir (Fs.put_entry c (fun _ => v') es))
        | None => None
        end
    | None => None
    end.
Proof. reflexivity. Qed.

(** After [os.mkdir] the path is an empty directory. *)
Lemma resolve_mkdir (cs : list string) (n n' : node) :
  Fs.mkdir cs n = Some n' -> Fs.resolve cs n' = Some (Dir []).
Proof.
  revert n n'. induction cs as [|c cs IH]; intros n n' H;
    [simpl in H; discriminate H|].
  destruct n as [content|es]; [destruct cs; cbn in H; discriminate H|].
  destruct cs as [|c' cs].
  - simpl in H. destruct (Fs.lookup_entry c es) eqn:E; [discriminate H|].
    injection H as <-. simpl. rewrite lookup_put_entry. reflexivity.
  - rewrite mkdir_deeper in H.
    destruct (Fs.lookup_entry c es) as [v|] eqn:E; [|discriminate H].
    destruct (Fs.mkdir (c' :: cs) v) as [v'|] eqn:Ev; [|discriminate H].
    injection H as <-. cbn [Fs.resolve]. rewrite lookup_put_entry.
    apply (IH v v' Ev).
Qed.


(** ** The local file system after a run *)

Lemma remove_deeper (c c' : string) (cs : list string) (es : list (string * node)) :
  Fs.remove (c :: c' :: cs) (Dir es)
  = match Fs.lookup_entry c es with
    | Some v => Dir (Fs.put_entry c (fun _ => Fs.remove (c' :: cs) v) es)
    | None => Dir es
    end.
Proof. reflexivity. Qed.

Lemma put_entry_ext (c : string) (f g : option node -> node)
    (es : list (string * node)) :
  f (Fs.lookup_entry c es) = g (Fs.lookup_entry c es) ->
  Fs.put_entry c f es = Fs.put_entry c g es.
Proof.
  induction es as [|[k v] es IH]; simpl; intros H; [rewrite H; reflexivity|].
  destruct (String.eqb k c); [rewrite H; reflexivity|].
  rewrite (IH H). reflexivity.
Qed.

Lemma put_entry_put_entry (c : string) (f g : option node -> node)
    (es : list (string * node)) :
  Fs.put_entry c g (Fs.put_entry c f es)
  = Fs.put_entry c (fun old => g (Some (f old))) es.
Proof.
  induction es as [|[k v] es IH]; simpl.
  - rewrite String.eqb_refl. reflexivity.
  - destruct (String.eqb k c) eqn:E; simpl; rewrite E; [reflexivity|].
    rewrite IH. reflexivity.
Qed.

Lemma put_entry_same (c : string) (f : option node -> node) (v : node)
    (es : list (string * node)) :
  Fs.lookup_entry c es = Some v -> f (Some v) = v -> Fs.put_entry c f es = es.
Proof.
  induction es as [|[k v'] es IH]; simpl; intros H Hf; [discriminate H|].
  destruct (String.eqb k c); [injection H as ->; rewrite Hf; reflexivity|].
  rewrite (IH H Hf). reflexivity.
Qed.

Lemma remove_entry_put_entry (c : string) (f : option node -> node)
    (es : list (string * node)) :
  Fs.remove_entry c (Fs.put_entry c f es) = Fs.remove_entry c es.
Proof.
  induction es as [|[k v] es IH]; simpl.
  - rewrite String.eqb_refl. reflexivity.
  - destruct (String.eqb k c) eqn:E; simpl; rewrite E; [reflexivity|].
    rewrite IH. reflexivity.
Qed.

Lemma remove_entry_absent (c : string) (es : list (string * node)) :
  Fs.lookup_entry c es = None -> Fs.remove_entry c es = es.
Proof.
  induction es as [|[k v] es IH]; simpl; intros H; [reflexivity|].
  destruct (String.eqb k c); [discriminate H|]. rewrite (IH H). reflexivity.
Qed.

(** Removing the directory [os.mkdir] has made gives the tree back. *)
Lemma remove_mkdir (cs : list string) (n n' : node) :
  Fs.mkdir cs n = Some n' -> Fs.remove cs n' = n.
Proof.
  revert n n'. induction cs as [|c cs IH]; intros n n' H;
    [simpl in H; discriminate H|].
  destruct n as [content|es]; [destruct cs; cbn in H; discriminate H|].
  destruct cs as [|c' cs].
  - simpl in H. destruct (Fs.lookup_entry c es) eqn:E; [discriminate H|].
    injection H as <-. simpl. rewrite remove_entry_put_entry.
    rewrite (remove_entry_absent _ _ E). reflexivity.
  - rewrite mkdir_deeper in H.
    destruct (Fs.lookup_entry c es) as [v|] eqn:E; [|discriminate H].
    destruct (Fs.mkdir (c' :: cs) v) as [v'|] eqn:Ev; [|discriminate H].
    injection H as <-. rewrite remove_deeper, lookup_put_entry.
    rewrite put_entry_put_entry. rewrite (IH v v' Ev).
    rewrite (put_entry_same c _ v es E eq_refl). reflexivity.
Qed.

(** What is written at a path, or below it, goes when the path is removed. *)
Lemma remove_put (cs : list string) (new n m : node) :
  cs <> [] -> Fs.resolve cs n = Some m ->
  Fs.remove cs (Fs.put cs new n) = Fs.remove cs n.
Proof.
  revert n m. induction cs as [|c cs IH]; intros n m Hne H; [congruence|].
  destruct n as [content|es]; [discriminate H|].
  cbn [Fs.resolve] in H.
  destruct (Fs.lookup_entry c es) as [v|] eqn:E; [|discriminate H].
  destruct cs as [|c' cs].
  - simpl. rewrite remove_entry_put_entry. reflexivity.
  - cbn [Fs.put]. rewrite !remove_deeper, lookup_put_entry, E.
    cbv beta iota. rewrite put_entry_put_entry. cbn [default].
    f_equal. apply put_entry_ext.
    assert (Hcs : c' :: cs <> []) by discriminate.
    exact (IH v m Hcs H).
Qed.

Lemma mkdir_not_root (n n' : node) (cs : list string) :
  Fs.mkdir cs n = Some n' -> cs <> [].
Proof. destruct cs; [discriminate|discriminate]. Qed.

(** ** Where a path leads *)

Lemma last_removelast {A} (l : list A) (x : A) :
  last l = Some x -> l = removelast l ++ [x].
Proof.
  intros H. apply last_Some in H as [l' ->].
  rewrite removelast_last. reflexivity.
Qed.

Lemma locate_app (root : node) (a b : list string) :
  forall cur,
    Fs.locate root cur (a ++ b)
    = match Fs.locate root cur a with
      | Some p => Fs.locate root p b
      | None => None
      end.
Proof.
  induction a as [|c a IH]; intros cur; [reflexivity|].
  cbn [app Fs.locate]. destruct (Fs.resolve cur root) as [[x|es]|]; try reflexivity.
  destruct (String.eqb c "" || String.eqb c "."); [apply IH|].
  destruct (String.eqb c ".."); [apply IH|].
  destruct (Fs.lookup_entry c es); [apply IH|reflexivity].
Qed.

(** A name that is neither empty, nor [.], nor [..] *)
Lemma norm_step_name (stack : list string) (c : string) :
  String.eqb c "" || String.eqb c "." = false ->
  String.eqb c ".." = false ->
  Path.norm_step 1 stack c = stack ++ [c].
Proof.
  intros H1 H2. unfold Path.norm_step. rewrite H1, H2. reflexivity.
Qed.

Lemma last_not_dotdot (stack : list string) :
  Forall (fun x => x <> "..") stack ->
  match last stack with
  | Some c => String.eqb c ".."
  | None => false
  end = false.
Proof.
  intros H. destruct (last stack) as [c|] eqn:E; [|reflexivity].
  apply last_Some in E as [l' ->]. apply Forall_app in H as [_ H].
  apply Forall_cons in H as [H _]. apply String.eqb_neq, H.
Qed.

Lemma norm_step_dotdot (stack : list string) :
  Forall (fun x => x <> "..") stack ->
  Path.norm_step 1 stack ".." = removelast stack.
Proof.
  intros H. unfold Path.norm_step. cbn [String.eqb Ascii.eqb Bool.eqb orb negb Nat.eqb
                                          andb].
  rewrite (last_not_dotdot _ H). reflexivity.
Qed.

(** Where the lookup of the kernel arrives is where [normpath] says. *)
Lemma locate_norm (root : node) (comps : list string) :
  forall cur pos,
    Forall (fun x => x <> "..") cur ->
    Fs.locate root cur comps = Some pos ->
    pos = fold_left (Path.norm_step 1) comps cur.
Proof.
  induction comps as [|c comps IH]; intros cur pos Hcur H.
  - injection H as <-. reflexivity.
  - cbn [Fs.locate fold_left] in *.
    destruct (Fs.resolve cur root) as [[x|es]|]; try discriminate H.
    destruct (String.eqb c "" || String.eqb c ".") eqn:E1.
    + replace (Path.norm_step 1 cur c) with cur
        by (unfold Path.norm_step; rewrite E1; reflexivity).
      apply (IH _ _ Hcur H).
    + destruct (String.eqb c "..") eqn:E2.
      * apply String.eqb_eq in E2 as ->. rewrite (norm_step_dotdot _ Hcur).
        apply (IH _ _ (Forall_removelast _ _ Hcur) H).
      * rewrite (norm_step_name _ _ E1 E2).
        destruct (Fs.lookup_entry c es); [|discriminate H].
        apply (IH (cur ++ [c]) pos); [|exact H].
        apply Forall_app. split; [exact Hcur|].
        constructor; [apply String.eqb_neq, E2|constructor].
Qed.

Lemma resolve_app (a b : list string) (n : node) :
  Fs.resolve (a ++ b) n = Fs.resolve a n ≫= Fs.resolve b.
Proof.
  revert n. induction a as [|c a IH]; intros n; [reflexivity|].
  cbn [app Fs.resolve]. destruct n as [x|es]; [reflexivity|].
  destruct (Fs.lookup_entry c es); [apply IH|reflexivity].
Qed.

Lemma locate_resolves (root : node) (comps : list string) :
  forall cur pos,
    Fs.locate root cur comps = Some pos ->
    is_Some (Fs.resolve cur root) -> is_Some (Fs.resolve pos root).
Proof.
  induction comps as [|c comps IH]; intros cur pos H Hcur.
  - injection H as <-. exact Hcur.
  - cbn [Fs.locate] in H.
    destruct (Fs.resolve cur root) as [[x|es]|] eqn:Er; try discriminate H.
    destruct (String.eqb c "" || String.eqb c ".");
      [apply (IH _ _ H); rewrite Er; eexists; reflexivity|].
    destruct (String.eqb c "..").
    + apply (IH _ _ H). clear -Er. revert root Er.
      induction cur as [|a cur IHc]; intros root Er; [eexists; reflexivity|].
      destruct cur as [|b cur]; [eexists; reflexivity|].
      change (removelast (a :: b :: cur)) with (a :: removelast (b :: cur)).
      destruct root as [x|es0]; [discriminate Er|].
      cbn [Fs.resolve] in Er |- *.
      destruct (Fs.lookup_entry a es0) as [v|]; [|discriminate Er].
      apply (IHc v Er).
    + destruct (Fs.lookup_entry c es) as [v|] eqn:El; [|discriminate H].
      apply (IH _ _ H). rewrite resolve_app, Er. cbn [mbind option_bind Fs.resolve].
      rewrite El. eexists. reflexivity.
Qed.

Lemma os_path_abs (cwd path q : string) :
  Fs.os_path cwd path = Some q ->
  Path.isabs q = true /\ Path.abspath cwd path = Path.normpath q.
Proof.
  unfold Fs.os_path, Path.abspath.
  destruct (String.eqb path ""); [discriminate|].
  destruct (Path.isabs path) eqn:Hp.
  - intros [= <-]. split; [exact Hp|reflexivity].
  - destruct (Path.isabs cwd) eqn:Hc; [|discriminate]. intros [= <-].
    split; [|reflexivity].
    rewrite join2_isabs; [exact Hc|apply isabs_nonempty, Hc|exact Hp].
Qed.

Lemma os_path_comps (cwd path q : string) :
  Fs.os_path cwd path = Some q ->
  Path.abs_comps cwd path = fold_left (Path.norm_step 1) (Py.split "/" q) [].
Proof.
  intros H. destruct (os_path_abs _ _ _ H) as [Hq Ha].
  unfold Path.abs_comps. rewrite Ha. apply abs_comps_of_abs, Hq.
Qed.

(** Where a path leads, when it leads somewhere, is where the normalized
    absolute path is: without symbolic links the lookup of the kernel and
    [abspath] agree on the paths that exist. *)
Lemma lookup_path_abs_comps (root : node) (cwd path : string) (pos : list string) :
  Fs.lookup_path root cwd path = Some pos -> pos = Path.abs_comps cwd path.
Proof.
  unfold Fs.lookup_path. destruct (Fs.os_path cwd path) as [q|] eqn:Hq;
    [|discriminate].
  intros H. rewrite (os_path_comps _ _ _ Hq).
  apply (locate_norm root _ [] pos (Forall_nil_2 _) H).
Qed.

Lemma stat_resolve (root : node) (cwd path : string) (n : node) :
  Fs.stat root cwd path = Some n ->
  Fs.lookup_path root cwd path = Some (Path.abs_comps cwd path)
  /\ Fs.resolve (Path.abs_comps cwd path) root = Some n.
Proof.
  unfold Fs.stat. destruct (Fs.lookup_path root cwd path) as [pos|] eqn:E;
    [|discriminate].
  rewrite (lookup_path_abs_comps _ _ _ _ E) in *. intros H. split; [reflexivity|exact H].
Qed.

Lemma stat_of_lookup (root : node) (cwd path : string) (pos : list string) :
  Fs.lookup_path root cwd path = Some pos ->
  Fs.stat root cwd path = Fs.resolve pos root.
Proof. unfold Fs.stat. intros ->. reflexivity. Qed.

Lemma lookup_path_resolves (root : node) (cwd path : string) (pos : list string) :
  Fs.lookup_path root cwd path = Some pos -> is_Some (Fs.resolve pos root).
Proof.
  unfold Fs.lookup_path. destruct (Fs.os_path cwd path); [|discriminate].
  intros H. apply (locate_resolves _ _ _ _ H). eexists. reflexivity.
Qed.

(** ** Trees that grow *)

Lemma lookup_put_entry_ne (k c : string) (f : option node -> node)
    (es : list (string * node)) :
  k <> c -> Fs.lookup_entry k (Fs.put_entry c f es) = Fs.lookup_entry k es.
Proof.
  intros Hne. induction es as [|[a v] es IH]; cbn [Fs.put_entry Fs.lookup_entry].
  - destruct (String.eqb_spec c k); [congruence|reflexivity].
  - destruct (String.eqb_spec a c) as [->|Hac]; cbn [Fs.lookup_entry].
    + destruct (String.eqb_spec c k); [congruence|reflexivity].
    + destruct (String.eqb a k); [reflexivity|exact IH].
Qed.

Lemma lookup_remove_entry_ne (k c : string) (es : list (string * node)) :
  k <> c -> Fs.lookup_entry k (Fs.remove_entry c es) = Fs.lookup_entry k es.
Proof.
  intros Hne. induction es as [|[a v] es IH]; cbn [Fs.remove_entry Fs.lookup_entry];
    [reflexivity|].
  destruct (String.eqb_spec a c) as [->|Hac]; cbn [Fs.lookup_entry].
  - destruct (String.eqb_spec c k); [congruence|reflexivity].
  - destruct (String.eqb a k); [reflexivity|exact IH].
Qed.

Lemma extends_refl (n : node) : extends n n.
Proof. intros cur es H. exists es. split; [exact H|auto]. Qed.

Lemma extends_entry (c : string) (v v' : node) (es es' : list (string * node)) :
  Fs.lookup_entry c es' = Some v' ->
  (forall v0, Fs.lookup_entry c es = Some v0 -> v0 = v /\ extends v v') ->
  (forall k, k <> c -> Fs.lookup_entry k es = Fs.lookup_entry k es') ->
  extends (Dir es) (Dir es').
Proof.
  intros Hc Hv Hk [|a cur] es0 H.
  - injection H as <-. exists es'. split; [reflexivity|]. intros k Hs.
    destruct (String.eqb_spec k c) as [->|Hne]; [rewrite Hc; eexists; reflexivity|].
    rewrite <- (Hk k Hne). exact Hs.
  - cbn [Fs.resolve] in *. destruct (String.eqb_spec a c) as [->|Hne].
    + destruct (Fs.lookup_entry c es) as [v0|] eqn:E; [|discriminate H].
      destruct (Hv v0 eq_refl) as [-> Hext]. rewrite Hc. apply Hext, H.
    + rewrite <- (Hk a Hne). destruct (Fs.lookup_entry a es) as [v0|];
        [|discriminate H].
      exists es0. split; [exact H|auto].
Qed.

(** A tree has all the directories of what is left of it when a node that is
    not there afterwards is removed. *)
Lemma extends_remove (cs : list string) :
  forall n, Fs.resolve cs (Fs.remove cs n) = None -> extends (Fs.remove cs n) n.
Proof.
  induction cs as [|c cs IH]; intros n H; [discriminate H|].
  destruct n as [x|es]; [destruct cs; apply extends_refl|].
  destruct cs as [|c2 cs].
  - cbn [Fs.remove Fs.resolve] in *.
    assert (Hc : Fs.lookup_entry c (Fs.remove_entry c es) = None)
      by (destruct (Fs.lookup_entry c (Fs.remove_entry c es)); [discriminate H|reflexivity]).
    intros [|a cur] es0 H0.
    + injection H0 as <-. exists es. split; [reflexivity|]. intros k Hs.
      destruct (String.eqb_spec k c) as [->|Hne].
      * rewrite Hc in Hs. destruct Hs as [? Hs]. discriminate Hs.
      * rewrite <- (lookup_remove_entry_ne k c es Hne). exact Hs.
    + cbn [Fs.resolve] in *. destruct (String.eqb_spec a c) as [->|Hne].
      * rewrite Hc in H0. discriminate H0.
      * rewrite (lookup_remove_entry_ne a c es Hne) in H0.
        destruct (Fs.lookup_entry a es) as [v0|]; [|discriminate H0].
        exists es0. split; [exact H0|auto].
  - rewrite remove_deeper in *.
    destruct (Fs.lookup_entry c es) as [v|] eqn:E; [|apply extends_refl].
    cbn [Fs.resolve] in H. rewrite lookup_put_entry in H.
    apply (extends_entry c (Fs.remove (c2 :: cs) v) v); [exact E| |].
    + intros v0 Hv0. rewrite lookup_put_entry in Hv0. injection Hv0 as <-.
      split; [reflexivity|]. apply IH, H.
    + intros k Hne. apply lookup_put_entry_ne, Hne.
Qed.

Lemma locate_extends (n0 n : node) (comps : list string) :
  extends n0 n ->
  forall cur pos, Fs.locate n0 cur comps = Some pos -> Fs.locate n cur comps = Some pos.
Proof.
  intros Hext. induction comps as [|c comps IH]; intros cur pos H; [exact H|].
  cbn [Fs.locate] in *.
  destruct (Fs.resolve cur n0) as [[x|es]|] eqn:Er; try discriminate H.
  destruct (Hext cur es Er) as (es' & -> & Hl).
  destruct (String.eqb c "" || String.eqb c "."); [apply IH, H|].
  destruct (String.eqb c ".."); [apply IH, H|].
  destruct (Fs.lookup_entry c es) as [v|] eqn:El; [|discriminate H].
  destruct (Hl c) as [v' ->]; [rewrite El; eexists; reflexivity|]. apply IH, H.
Qed.

Lemma mkdir_absent (cs : list string) :
  forall n n', Fs.mkdir cs n = Some n' -> Fs.resolve cs n = None.
Proof.
  induction cs as [|c cs IH]; intros n n' H; [discriminate H|].
  destruct n as [x|es]; [reflexivity|].
  destruct cs as [|c2 cs].
  - cbn [Fs.mkdir Fs.resolve] in *.
    destruct (Fs.lookup_entry c es); [discriminate H|reflexivity].
  - rewrite mkdir_deeper in H. cbn [Fs.resolve].
    destruct (Fs.lookup_entry c es) as [v|]; [|reflexivity].
    destruct (Fs.mkdir (c2 :: cs) v) as [v'|] eqn:E; [|discriminate H].
    apply (IH v v' E).
Qed.

(** ** [os.mkdir] at a path *)

Lemma make_dir_name (root : node) (cwd d : string) (f1 : node) :
  Fs.make_dir root cwd d = Some f1 ->
  exists q name,
    Fs.os_path cwd d = Some q /\ last (Py.split "/" q) = Some name
    /\ String.eqb name "" || String.eqb name "." = false
    /\ String.eqb name ".." = false.
Proof.
  unfold Fs.make_dir. destruct (Fs.os_path cwd d) as [q|] eqn:Hq; [|discriminate].
  cbv zeta. destruct (last (Py.split "/" q)) as [name|] eqn:Hl; [|discriminate].
  destruct (String.eqb name "" || String.eqb name ".") eqn:E1; [discriminate|].
  destruct (String.eqb name "..") eqn:E2.
  { rewrite orb_true_r. discriminate. }
  intros _. exists q, name. auto.
Qed.

Lemma make_dir_inv (root : node) (cwd d : string) (f1 : node) :
  Fs.make_dir root cwd d = Some f1 ->
  exists q ppos name,
    Fs.os_path cwd d = Some q
    /\ Py.split "/" q = removelast (Py.split "/" q) ++ [name]
    /\ Fs.locate root [] (removelast (Py.split "/" q)) = Some ppos
    /\ Path.abs_comps cwd d = ppos ++ [name]
    /\ Fs.mkdir (ppos ++ [name]) root = Some f1.
Proof.
  unfold Fs.make_dir. destruct (Fs.os_path cwd d) as [q|] eqn:Hq; [|discriminate].
  cbv zeta. destruct (last (Py.split "/" q)) as [name|] eqn:Hl; [|discriminate].
  destruct (String.eqb name "" || String.eqb name ".") eqn:E1; [discriminate|].
  destruct (String.eqb name "..") eqn:E2.
  { rewrite orb_true_r. discriminate. }
  rewrite orb_false_r.
  destruct (Fs.locate root [] (removelast (Py.split "/" q))) as [ppos|] eqn:Hp;
    [|discriminate].
  intros H. exists q, ppos, name.
  pose proof (last_removelast _ _ Hl) as Hs.
  repeat split; try assumption; try reflexivity.
  rewrite (os_path_comps _ _ _ Hq), Hs, fold_left_app. cbn [fold_left].
  rewrite <- (locate_norm root _ [] ppos (Forall_nil_2 _) Hp).
  apply norm_step_name; assumption.
Qed.

Lemma make_dir_mkdir (root : node) (cwd d : string) (f1 : node) :
  Fs.make_dir root cwd d = Some f1 ->
  Fs.mkdir (Path.abs_comps cwd d) root = Some f1.
Proof.
  intros H. destruct (make_dir_inv _ _ _ _ H) as (q & ppos & name & _ & _ & _ & -> & Hm).
  exact Hm.
Qed.

(** A directory that [os.mkdir] can make is found, once it is there, by the
    path it was made at. *)
Lemma make_dir_lookup (f0 n : node) (cwd d : string) :
  is_Some (Fs.make_dir f0 cwd d) ->
  Fs.remove (Path.abs_comps cwd d) n = f0 ->
  is_Some (Fs.resolve (Path.abs_comps cwd d) n) ->
  Fs.lookup_path n cwd d = Some (Path.abs_comps cwd d).
Proof.
  intros [f1 H] Hr [m Hm].
  destruct (make_dir_inv _ _ _ _ H) as (q & ppos & name & Hq & Hs & Hp & Ha & Hk).
  assert (Hext : extends f0 n).
  { rewrite <- Hr. apply extends_remove. rewrite Hr, Ha. apply (mkdir_absent _ _ _ Hk). }
  unfold Fs.lookup_path. rewrite Hq, Hs, locate_app.
  rewrite (locate_extends _ _ _ Hext _ _ Hp). cbn [Fs.locate].
  destruct (make_dir_name _ _ _ _ H) as (q' & name' & Hq' & Hl & E1 & E2).
  rewrite Hq in Hq'. injection Hq' as <-.
  rewrite Hs, last_snoc in Hl. injection Hl as <-.
  rewrite Ha in Hm. rewrite resolve_app in Hm.
  destruct (Fs.resolve ppos n) as [[x|es]|] eqn:Er; try discriminate Hm.
  cbn [mbind option_bind Fs.resolve] in Hm.
  rewrite E1, E2. destruct (Fs.lookup_entry name es); [|discriminate Hm].
  rewrite Ha. reflexivity.
Qed.

(** ** The path of an entry of a directory *)

Lemma valid_name_eqb (name : string) :
  valid_name name = true ->
  String.eqb name "" || String.eqb name "." = false /\ String.eqb name ".." = false.
Proof.
  unfold valid_name, Path.nonempty. intros H.
  apply andb_true_iff in H as [H H3]. apply andb_true_iff in H as [H H2].
  apply andb_true_iff in H as [H0 _].
  apply negb_true_iff in H0, H2, H3. rewrite H0, H2, H3. auto.
Qed.

Lemma locate_entry (root : node) (sp l : list string) (name : string)
    (cur pos : list string) (es : list (string * node)) :
  sp = l \/ sp = l ++ [""] ->
  Fs.locate root cur sp = Some pos ->
  Fs.resolve pos root = Some (Dir es) ->
  valid_name name = true ->
  is_Some (Fs.lookup_entry name es) ->
  Fs.locate root cur (l ++ [name]) = Some (pos ++ [name]).
Proof.
  intros Hsp Hl Hr Hv [v Hn]. destruct (valid_name_eqb _ Hv) as [E1 E2].
  assert (Hl' : Fs.locate root cur l = Some pos).
  { destruct Hsp as [-> | ->]; [exact Hl|]. rewrite locate_app in Hl.
    destruct (Fs.locate root cur l) as [p|]; [|discriminate Hl].
    cbn [Fs.locate] in Hl. destruct (Fs.resolve p root) as [[x|es0]|];
      try discriminate Hl.
    cbn in Hl. exact Hl. }
  rewrite locate_app, Hl'. cbn [Fs.locate]. rewrite Hr, E1, E2, Hn. reflexivity.
Qed.

Lemma lookup_path_join2 (root : node) (cwd p name : string) (pos : list string)
    (es : list (string * node)) :
  Fs.lookup_path root cwd p = Some pos ->
  Fs.resolve pos root = Some (Dir es) ->
  valid_name name = true ->
  is_Some (Fs.lookup_entry name es) ->
  Fs.lookup_path root cwd (Path.join2 p name) = Some (pos ++ [name]).
Proof.
  unfold Fs.lookup_path, Fs.os_path. intros Hl Hr Hv Hn.
  destruct (String.eqb_spec p "") as [->|Hp]; [discriminate Hl|].
  destruct (String.eqb_spec (Path.join2 p name) "") as [E|_].
  { pose proof (join2_nonempty p name (proj1 (valid_name_inv _ Hv))) as Hne.
    rewrite E in Hne. discriminate Hne. }
  rewrite (join2_valid_isabs _ _ Hv).
  destruct (join2_split p name Hv) as (l & Hs & Hsp).
  destruct (Path.isabs p) eqn:Hpabs.
  - rewrite Hs. apply (locate_entry root _ l name [] pos es Hsp Hl Hr Hv Hn).
  - destruct (Path.isabs cwd) eqn:Hcwd; [|discriminate Hl].
    destruct (join2_cwd cwd Hcwd) as [c0 Hc0].
    assert (Hx : Py.startswith "/" (Path.join2 p name) = false).
    { pose proof (join2_valid_isabs p name Hv) as E. rewrite Hpabs in E. exact E. }
    rewrite (Hc0 _ Hx), split_append_sep, Hs, app_assoc.
    rewrite (Hc0 _ Hpabs), split_append_sep in Hl.
    apply (locate_entry root (Py.split "/" c0 ++ Py.split "/" p)
             (Py.split "/" c0 ++ l) name [] pos es); try assumption.
    destruct Hsp as [-> | ->]; [left; reflexivity|right; apply app_assoc].
Qed.

(** The path [os.path.join(p, *names)] leads to what is at [names] below the
    directory [p] leads to. *)
Lemma stat_join (root : node) (cwd : string) (names : list string) :
  Forall (fun n => valid_name n = true) names ->
  forall (p : string) (n m : node),
    Fs.stat root cwd p = Some n ->
    Fs.resolve names n = Some m ->
    Fs.stat root cwd (Path.join p names) = Some m.
Proof.
  unfold Path.join. induction 1 as [|name names Hv _ IH]; intros p n m Hp Hm.
  - injection Hm as <-. exact Hp.
  - cbn [fold_left]. destruct n as [x|es]; [discriminate Hm|].
    cbn [Fs.resolve] in Hm.
    destruct (Fs.lookup_entry name es) as [v|] eqn:En; [|discriminate Hm].
    apply (IH _ v m); [|exact Hm].
    destruct (stat_resolve _ _ _ _ Hp) as [Hl Hr].
    rewrite (stat_of_lookup _ _ _ _
               (lookup_path_join2 _ _ _ name _ es Hl Hr Hv (ex_intro _ v En))).
    rewrite resolve_app, Hr. cbn [mbind option_bind Fs.resolve]. rewrite En.
    reflexivity.
Qed.

(** ** C8: [mask_credential] *)

(** C8. For an input of at least 8 characters, [mask_credential] returns its
    first 4 characters, then [***], then its last 4 characters; for an input
    of fewer than 8 characters, for the empty string and for [None] it returns
    exactly [***].  The two examples of the specification hold. *)
Theorem mask_credential_spec :
  (forall v : string, 8 <= Py.len v ->
     exists first4 middle last4 : string,
       v = first4 +:+ middle +:+ last4
       /\ Py.len first4 = 4 /\ Py.len last4 = 4
       /\ mask_credential (Some v) = first4 +:+ "***" +:+ last4)
  /\ (forall v : string, Py.len v < 8 -> mask_credential (Some v) = "***")
  /\ mask_credential (Some "") = "***"
  /\ mask_credential None = "***"
  /\ mask_credential (Some "AKIATEST1234567890AB") = "AKIA***90AB"
  /\ mask_credential (Some "short") = "***".
Proof.
  split; [|split; [|repeat split]].
  - intros v Hlen.
    exists (Py.slice_to 4 v),
           (Py.slice_to (Py.len v - 8) (Py.slice_from 4 v)),
           (Py.slice_last 4 v).
    assert (Hmid : Py.slice_from (Py.len v - 4) v
                   = Py.slice_from (Py.len v - 8) (Py.slice_from 4 v)).
    { replace (Py.len v - 4) with (4 + (Py.len v - 8)) by lia.
      apply slice_from_add. }
    repeat split.
    + unfold Py.slice_last. rewrite Hmid.
      rewrite <- slice_to_from. apply slice_to_from.
    + apply len_slice_to. lia.
    + unfold Py.slice_last. rewrite len_slice_from. lia.
    + unfold mask_credential, Py.falsy.
      destruct (String.eqb_spec v "") as [->|_]; [simpl in Hlen; lia|].
      destruct (Nat.ltb_spec (Py.len v) 8) as [Hlt|_]; [lia|]. reflexivity.
  - intros v Hlen. unfold mask_credential.
    destruct (Nat.ltb_spec (Py.len v) 8) as [_|Hge]; [|lia].
    rewrite orb_true_r. reflexivity.
Qed.

Lemma mask_credential_spec_witness :
  8 <= Py.len "secretkey1234567890"
  /\ Py.len "abc" < 8
  /\ (exists first4 middle last4 : string,
        "secretkey1234567890" = first4 +:+ middle +:+ last4
        /\ Py.len first4 = 4 /\ Py.len last4 = 4
        /\ mask_credential (Some "secretkey1234567890") = first4 +:+ "***" +:+ last4)
  /\ mask_credential (Some "abc") = "***".
Proof.
  split; [vm_compute; lia|]. split; [vm_compute; lia|]. split.
  - apply (proj1 mask_credential_spec). vm_compute. lia.
  - apply (proj1 (proj2 mask_credential_spec)). vm_compute. lia.
Defined.

(** ** [validate_inputs] *)

Lemma validate_inputs_accepts (m b p : string) (st : state) :
  inputs_ok m b p = true ->
  validate_inputs m b p st
  = log INFO "Input validation passed successfully" st.
Proof.
  unfold inputs_ok, validate_inputs. intros H.
  apply andb_prop in H as [H Hs]. apply andb_prop in H as [H Hd].
  apply andb_prop in H as [Hm Hb].
  rewrite Hm, Hb. simpl.
  destruct (Py.contains ".." p); [discriminate|].
  destruct (Py.startswith "/" p); [discriminate|]. reflexivity.
Qed.

Lemma validate_inputs_rejects (m b p : string) (st : state) :
  inputs_ok m b p = false ->
  exists msg, validate_inputs m b p st = (Raise (ValueError msg), st).
Proof.
  unfold inputs_ok, validate_inputs. intros H.
  destruct (Re.py_match model_pattern m); simpl in *; [|eexists; reflexivity].
  destruct (Re.py_match bucket_pattern b); simpl in *; [|eexists; reflexivity].
  destruct (Py.contains ".." p); simpl in *; [eexists; reflexivity|].
  destruct (Py.startswith "/" p); simpl in *; [eexists; reflexivity|].
  discriminate.
Qed.

Lemma validate_inputs_result (m b p : string) (st : state) :
  fst (validate_inputs m b p st) = Ok tt <-> inputs_ok m b p = true.
Proof.
  destruct (inputs_ok m b p) eqn:H.
  - rewrite (validate_inputs_accepts _ _ _ _ H). split; reflexivity.
  - destruct (validate_inputs_rejects m b p st H) as [msg ->].
    split; discriminate.
Qed.

(** C4 fails for the model name and for the bucket: both patterns allow a dot
    after a dot, so [a..b] passes as either. *)
Lemma validate_inputs_dotdot_in_model_or_bucket_accepted :
  Py.contains ".." "a..b" = true
  /\ fst (validate_inputs "a..b" "test-bucket" "models/" Examples.fresh_state) = Ok tt
  /\ fst (validate_inputs "gpt2" "a..b" "models/" Examples.fresh_state) = Ok tt.
Proof. vm_compute. auto. Qed.

(** C4, amended.  A prefix that contains [..] makes [validate_inputs] raise a
    [ValueError], whatever the model name and the bucket are, and nothing is
    logged.  Over all three arguments, [validate_inputs] raises exactly when
    the model name fails its pattern, or the bucket fails its pattern, or the
    prefix contains [..], or the prefix starts with a slash: a [..] in the
    model name or in the bucket matters only through the patterns. *)
Theorem validate_inputs_prefix_dotdot :
  forall (m b p : string) (st : state),
    (Py.contains ".." p = true ->
     exists msg, validate_inputs m b p st = (Raise (ValueError msg), st))
    /\ ((exists msg, fst (validate_inputs m b p st) = Raise (ValueError msg))
        <-> (Re.py_match model_pattern m = false
             \/ Re.py_match bucket_pattern b = false
             \/ Py.contains ".." p = true
             \/ Py.startswith "/" p = true)).
Proof.
  intros m b p st. split.
  - intros H. apply validate_inputs_rejects. unfold inputs_ok. rewrite H.
    simpl. rewrite andb_false_r. reflexivity.
  - split.
    + intros [msg Hmsg].
      destruct (inputs_ok m b p) eqn:Hok.
      * apply (validate_inputs_result m b p st) in Hok. congruence.
      * unfold inputs_ok in Hok.
        destruct (Re.py_match model_pattern m); [|auto].
        destruct (Re.py_match bucket_pattern b); [|auto].
        destruct (Py.contains ".." p); [auto|].
        destruct (Py.startswith "/" p); [auto|discriminate].
    + intros H.
      destruct (validate_inputs_rejects m b p st) as [msg Hmsg].
      * unfold inputs_ok.
        destruct H as [-> | [-> | [-> | ->]]]; simpl;
          rewrite ?andb_false_r; reflexivity.
      * exists msg. rewrite Hmsg. reflexivity.
Qed.

Lemma validate_inputs_prefix_dotdot_witness :
  Py.contains ".." "models/../other/" = true
  /\ exists msg,
       validate_inputs "gpt2" "test-bucket" "models/../other/" Examples.fresh_state
       = (Raise (ValueError msg), Examples.fresh_state).
Proof.
  split; [vm_compute; reflexivity|].
  apply (proj1 (validate_inputs_prefix_dotdot "gpt2" "test-bucket"
                  "models/../other/" Examples.fresh_state)).
  vm_compute. reflexivity.
Defined.

(** ** C10: the empty prefix and the full prefix of [main] *)

Lemma endswith_slash_full (p m : string) :
  Py.endswith "/" (full_s3_prefix p m) = true.
Proof.
  unfold full_s3_prefix. rewrite <- append_assoc. apply endswith_append.
Qed.

(** C10. [validate_inputs] accepts the empty prefix when the model name and the
    bucket match their patterns; a prefix is refused only for containing [..]
    or for starting with a slash.  The full prefix [main] derives is the
    prefix, followed by a slash when the prefix is not empty and does not end
    with one, followed by the model name and a slash; it ends with a slash,
    and with the empty prefix it is the model name and a slash. *)
Theorem empty_prefix_accepted_and_full_prefix :
  forall (m b : string) (st : state),
    Re.py_match model_pattern m = true ->
    Re.py_match bucket_pattern b = true ->
    fst (validate_inputs m b "" st) = Ok tt
    /\ (forall p : string,
          fst (validate_inputs m b p st) = Ok tt
          <-> (Py.contains ".." p = false /\ Py.startswith "/" p = false))
    /\ (forall p : string,
          fst (validate_inputs m b p st) = Ok tt ->
          full_s3_prefix p m
          = (p +:+ (if Path.nonempty p && negb (Py.endswith "/" p) then "/" else ""))
            +:+ m +:+ "/"
          /\ Py.endswith "/" (full_s3_prefix p m) = true)
    /\ full_s3_prefix "" m = m +:+ "/".
Proof.
  intros m b st Hm Hb.
  assert (Hiff : forall p, fst (validate_inputs m b p st) = Ok tt
                           <-> (Py.contains ".." p = false
                                /\ Py.startswith "/" p = false)).
  { intros p. rewrite validate_inputs_result. unfold inputs_ok.
    rewrite Hm, Hb. simpl.
    destruct (Py.contains ".." p), (Py.startswith "/" p); simpl;
      split; try tauto; try discriminate; intros [? ?]; discriminate. }
  split; [apply Hiff; split; reflexivity|].
  split; [exact Hiff|]. split; [|reflexivity].
  intros p _. split; [|apply endswith_slash_full].
  unfold full_s3_prefix.
  destruct (Path.nonempty p && negb (Py.endswith "/" p));
    [reflexivity|rewrite append_empty_r; reflexivity].
Qed.

Lemma empty_prefix_accepted_and_full_prefix_witness :
  fst (validate_inputs "gpt2" "test-bucket" "" Examples.fresh_state) = Ok tt
  /\ full_s3_prefix "" "gpt2" = "gpt2/"
  /\ full_s3_prefix "my-models/v1" "gpt2" = "my-models/v1/gpt2/".
Proof.
  destruct (empty_prefix_accepted_and_full_prefix "gpt2" "test-bucket"
              Examples.fresh_state) as (H1 & _ & _ & H4);
    [vm_compute; reflexivity|vm_compute; reflexivity|].
  split; [exact H1|]. split; [exact H4|]. vm_compute. reflexivity.
Defined.

(** ** Running the monad *)

Ltac unfold_M :=
  unfold mbind, M_bind, bind, mret, M_ret, ret, raise, sys_exit, try_except,
    try_finally, log, tqdm_write, emit, get, set_fs, set_s3, set_download_dir in *.

Lemma list_requests_app (t1 t2 : list event) :
  list_requests (t1 ++ t2) = list_requests t1 ++ list_requests t2.
Proof. unfold list_requests. apply flat_map_app. Qed.

(** ** C6: [model_exists_in_s3] *)

Lemma take_one_filter_nil {A} (f : A -> bool) (l : list A) :
  take 1 (List.filter f l) = [] <-> forall x, In x l -> f x = false.
Proof.
  induction l as [|a l IH]; simpl.
  - split; [intros _ x []|reflexivity].
  - destruct (f a) eqn:Ha; simpl.
    + split; [discriminate|]. intros H. specialize (H a (or_introl eq_refl)).
      congruence.
    + rewrite IH. split.
      * intros H x [<-|Hx]; [exact Ha|apply H, Hx].
      * intros H x Hx. apply H. right. exact Hx.
Qed.

Lemma take_one_filter_cons {A} (f : A -> bool) (l : list A) (k : A) (ks : list A) :
  take 1 (List.filter f l) = k :: ks -> In k l /\ f k = true.
Proof.
  induction l as [|a l IH]; simpl; [discriminate|].
  destruct (f a) eqn:Ha; simpl.
  - intros [= <- _]. split; [left; reflexivity|exact Ha].
  - intros H. destruct (IH H) as [Hin Hk]. split; [right; exact Hin|exact Hk].
Qed.

(** C6. [model_exists_in_s3] issues one listing request, for the bucket and the
    prefix, capped to one key.  When the listing succeeds it returns [true] if
    and only if some object of the bucket has a key that starts with the
    prefix.  When the listing fails, by a fault of the transport or because
    the bucket is missing, it raises the exception of the listing: it never
    returns [false] for a listing that failed. *)
Theorem model_exists_in_s3_spec :
  forall (w : world) (client : s3_client) (bucket prefix : string) (st : state),
    let r := model_exists_in_s3 w client bucket prefix st in
    list_requests (trace (snd r)) = list_requests (trace st) ++ [(bucket, prefix, 1)]
    /\ (forall objs : gmap string string,
          list_fault w = None -> s3 st !! bucket = Some objs ->
          exists found : bool,
            fst r = Ok found
            /\ (found = true <->
                exists key content, objs !! key = Some content
                                    /\ Py.startswith prefix key = true))
    /\ (forall e, list_fault w = Some e -> fst r = Raise e)
    /\ (list_fault w = None -> s3 st !! bucket = None ->
        fst r = Raise (ClientError "NoSuchBucket"))
    /\ (fst r = Ok false ->
        list_fault w = None /\ exists objs, s3 st !! bucket = Some objs).
Proof.
  intros w client bucket prefix st r. subst r.
  unfold model_exists_in_s3, list_objects_v2. unfold_M. simpl.
  destruct (list_fault w) as [e|] eqn:Hfault.
  - simpl. split.
    + destruct (is_ClientError e); simpl;
        rewrite ?list_requests_app; simpl;
        rewrite ?app_nil_r, <- ?app_assoc; reflexivity.
    + split; [intros objs H; discriminate|].
      split; [|split].
      * intros e' [= <-]. destruct (is_ClientError e); reflexivity.
      * discriminate.
      * destruct (is_ClientError e); discriminate.
  - simpl. destruct (s3 st !! bucket) as [objs|] eqn:Hbucket; simpl.
    + set (keys := take 1 (List.filter (Py.startswith prefix)
                             (map fst (map_to_list objs)))).
      assert (Hkeys : keys = [] <->
                      forall key content, objs !! key = Some content ->
                                          Py.startswith prefix key = false).
      { unfold keys. rewrite take_one_filter_nil. split.
        - intros H key content Hkey. apply H.
          apply in_map_iff. exists (key, content). split; [reflexivity|].
          apply list_elem_of_In, elem_of_map_to_list. exact Hkey.
        - intros H key Hin. apply in_map_iff in Hin as [[k c] [<- Hin]].
          apply list_elem_of_In, elem_of_map_to_list in Hin.
          apply (H k c Hin). }
      destruct keys as [|k keys'] eqn:Hk; simpl.
      * split; [rewrite !list_requests_app; simpl;
                rewrite ?app_nil_r; reflexivity|].
        split.
        { intros objs' _ [= <-]. exists false. split; [reflexivity|].
          split; [discriminate|]. intros (key & content & Hkey & Hpre).
          rewrite (proj1 Hkeys eq_refl key content Hkey) in Hpre. discriminate. }
        split; [discriminate|]. split; [discriminate|].
        intros _. split; [reflexivity|]. exists objs. reflexivity.
      * split; [rewrite !list_requests_app; simpl;
                rewrite ?app_nil_r; reflexivity|].
        split.
        { intros objs' _ [= <-]. exists true. split; [reflexivity|].
          split; [|reflexivity]. intros _.
          destruct (take_one_filter_cons _ _ _ _ Hk) as [Hin Hpre].
          apply in_map_iff in Hin as [[k0 c] [Hfst Hin]]. simpl in Hfst. subst k0.
          apply list_elem_of_In, elem_of_map_to_list in Hin.
          exists k, c. split; [exact Hin|exact Hpre]. }
        split; [discriminate|]. split; [discriminate|]. discriminate.
    + split; [rewrite !list_requests_app; simpl;
              rewrite ?app_nil_r; reflexivity|].
      split; [intros objs _ H; discriminate|].
      split; [discriminate|]. split; [reflexivity|]. discriminate.
Qed.

Lemma model_exists_in_s3_spec_witness :
  list_fault Examples.test_world = None
  /\ s3 Examples.populated_state !! "test-bucket"
     = Some {["models/gpt2/config.json" := "{}"]}
  /\ exists found : bool,
       fst (model_exists_in_s3 Examples.test_world
              {| endpoint_url := "https://objectstore.example.com" |}
              "test-bucket" "models/gpt2/" Examples.populated_state) = Ok found
       /\ (found = true <->
           exists key content,
             ({["models/gpt2/config.json" := "{}"]} : gmap string string) !! key
             = Some content
             /\ Py.startswith "models/gpt2/" key = true).
Proof.
  split; [reflexivity|]. split; [reflexivity|].
  apply (proj1 (proj2 (model_exists_in_s3_spec Examples.test_world
                         {| endpoint_url := "https://objectstore.example.com" |}
                         "test-bucket" "models/gpt2/" Examples.populated_state)));
    reflexivity.
Defined.

Example model_exists_in_s3_ex :
  let client := {| endpoint_url := "https://objectstore.example.com" |} in
  fst (model_exists_in_s3 Examples.test_world client "test-bucket" "models/gpt2/"
         Examples.populated_state) = Ok true
  /\ fst (model_exists_in_s3 Examples.test_world client "test-bucket" "models/gpt2/"
            Examples.fresh_state) = Ok false
  /\ fst (model_exists_in_s3 Examples.test_world client "test-bucket" "models/other/"
            Examples.populated_state) = Ok false
  /\ fst (model_exists_in_s3 Examples.test_world client "nonexistent-bucket"
            "models/gpt2/" Examples.fresh_state) = Raise (ClientError "NoSuchBucket").
Proof. vm_compute. auto. Qed.

(** ** A logic of the monad

    The rules of [hoare] for the operations of [M].  Every computation of [M]
    ends, so the triples are total. *)

Lemma hoare_conseq {A} (P P' : state -> Prop) (m : M A)
    (Q Q' : result A -> state -> Prop) :
  hoare P' m Q' ->
  (forall st, P st -> P' st) ->
  (forall r st, Q' r st -> Q r st) ->
  hoare P m Q.
Proof. intros H HP HQ st Hst. apply HQ, H, HP, Hst. Qed.

Lemma hoare_ret {A} (P : state -> Prop) (a : A) :
  hoare P (mret a) (fun r st => r = Ok a /\ P st).
Proof. intros st H. split; [reflexivity|exact H]. Qed.

Lemma hoare_bind {A B} (P : state -> Prop) (m : M A) (k : A -> M B)
    (Q1 : A -> state -> Prop) (Q : result B -> state -> Prop) :
  hoare P m (fun r st => match r with
                         | Ok a => Q1 a st
                         | Raise e => Q (Raise e) st
                         end) ->
  (forall a, hoare (Q1 a) (k a) Q) ->
  hoare P (m ≫= k) Q.
Proof.
  intros Hm Hk st Hst. specialize (Hm st Hst).
  unfold mbind, M_bind, bind. destruct (m st) as [[a|e] st']; simpl in *.
  - apply Hk, Hm.
  - exact Hm.
Qed.

Lemma hoare_try_except {A} (P : state -> Prop) (m : M A)
    (handler : exn -> option (M A)) (R : exn -> state -> Prop)
    (Q : result A -> state -> Prop) :
  hoare P m (fun r st => match r with
                         | Ok a => Q (Ok a) st
                         | Raise e =>
                             match handler e with
                             | Some _ => R e st
                             | None => Q (Raise e) st
                             end
                         end) ->
  (forall e h, handler e = Some h -> hoare (R e) h Q) ->
  hoare P (try_except m handler) Q.
Proof.
  intros Hm Hh st Hst. specialize (Hm st Hst).
  unfold try_except. destruct (m st) as [[a|e] st']; simpl in *.
  - exact Hm.
  - destruct (handler e) as [h|] eqn:He; [|exact Hm].
    apply (Hh e h He), Hm.
Qed.

Lemma hoare_try_finally {A} (P : state -> Prop) (m : M A) (f : M unit)
    (F : result A -> state -> Prop) (Q : result A -> state -> Prop) :
  hoare P m F ->
  (forall r, hoare (F r) f (fun r' st => match r' with
                                         | Ok _ => Q r st
                                         | Raise e => Q (Raise e) st
                                         end)) ->
  hoare P (try_finally m f) Q.
Proof.
  intros Hm Hf st Hst. specialize (Hm st Hst).
  unfold try_finally. destruct (m st) as [r st']; simpl in *.
  specialize (Hf r st' Hm). destruct (f st') as [[u|e] st'']; exact Hf.
Qed.

Lemma hoare_bind_inv {A B} (I : state -> Prop) (m : M A) (k : A -> M B)
    (Q : result B -> state -> Prop) :
  inv I m ->
  (forall a, hoare I (k a) Q) ->
  (forall e st, I st -> Q (Raise e) st) ->
  hoare I (m ≫= k) Q.
Proof.
  intros Hm Hk Hraise. apply (hoare_bind I m k (fun _ st => I st)); [|exact Hk].
  intros st H. specialize (Hm st H).
  destruct (fst (m st)); [exact Hm|apply Hraise, Hm].
Qed.

Lemma hoare_of_inv {A} (I : state -> Prop) (m : M A)
    (Q : result A -> state -> Prop) :
  inv I m -> (forall r st, I st -> Q r st) -> hoare I m Q.
Proof. intros Hm HQ st H. apply HQ, Hm, H. Qed.

(** ** Invariants of the parts that leave the file system alone

    An invariant [I] of the state that does not look at the object store, nor
    at the events that are neither a creation, nor a download, nor a removal,
    is kept by every function of the program other than [mkdtemp],
    [snapshot_download] and [rmtree] and their callers. *)

Section Frame.

Variable I : state -> Prop.
Hypothesis I_emit : forall st e, benign e = true -> I st -> I (snd (emit e st)).
Hypothesis I_set_s3 : forall st m, I st -> I (snd (set_s3 m st)).

Lemma inv_ret {A} (a : A) : inv I (mret a).
Proof. intros st H. exact H. Qed.

Lemma inv_raise {A} (e : exn) : inv I (@raise A e).
Proof. intros st H. exact H. Qed.

Lemma inv_sys_exit {A} (c : Z) : inv I (@sys_exit A c).
Proof. intros st H. exact H. Qed.

Lemma inv_get : inv I get.
Proof. intros st H. exact H. Qed.

Lemma inv_emit (e : event) : benign e = true -> inv I (emit e).
Proof. intros He st H. apply I_emit; assumption. Qed.

Lemma inv_log (lv : level) (msg : string) : inv I (log lv msg).
Proof. apply inv_emit. reflexivity. Qed.

Lemma inv_tqdm_write (msg : string) : inv I (tqdm_write msg).
Proof. apply inv_emit. reflexivity. Qed.

Lemma inv_set_s3 m : inv I (set_s3 m).
Proof. intros st H. apply I_set_s3, H. Qed.

Lemma inv_bind {A B} (m : M A) (k : A -> M B) :
  inv I m -> (forall a, inv I (k a)) -> inv I (m ≫= k).
Proof.
  intros Hm Hk. apply (hoare_bind I m k (fun _ st => I st)).
  - intros st H. specialize (Hm st H). destruct (fst (m st)); exact Hm.
  - exact Hk.
Qed.

Lemma inv_try_except {A} (m : M A) (handler : exn -> option (M A)) :
  inv I m -> (forall e h, handler e = Some h -> inv I h) ->
  inv I (try_except m handler).
Proof.
  intros Hm Hh. apply (hoare_try_except I m handler (fun _ st => I st)).
  - intros st H. specialize (Hm st H).
    destruct (fst (m st)) as [a|e]; [exact Hm|]. destruct (handler e); exact Hm.
  - exact Hh.
Qed.

Lemma inv_try_finally {A} (m : M A) (f : M unit) :
  inv I m -> inv I f -> inv I (try_finally m f).
Proof.
  intros Hm Hf. apply (hoare_try_finally I m f (fun _ st => I st)).
  - exact Hm.
  - intros _ st H. specialize (Hf st H). destruct (fst (f st)); exact Hf.
Qed.

End Frame.

Ltac inv_handler :=
  match goal with
  | H : (if ?b then Some _ else None) = Some _ |- _ =>
      destruct b; [injection H as <-|discriminate H]
  | H : Some _ = Some _ |- _ => injection H as <-
  end.

Ltac inv_auto :=
  repeat match goal with
    | |- inv _ (mbind _ _) => apply inv_bind; [|intros ?]
    | |- inv _ (mret _) => apply inv_ret
    | |- inv _ (raise _) => apply inv_raise
    | |- inv _ (sys_exit _) => apply inv_sys_exit
    | |- inv _ get => apply inv_get
    | |- inv _ (log _ _) => apply inv_log; assumption
    | |- inv _ (tqdm_write _) => apply inv_tqdm_write; assumption
    | |- inv _ (set_s3 _) => apply inv_set_s3; assumption
    | |- inv _ (emit _) => apply inv_emit; [assumption|reflexivity]
    | |- inv _ (try_except _ _) =>
        apply inv_try_except; [|intros ? ? ?; inv_handler]
    | |- inv _ (if ?b then _ else _) => destruct b
    | |- inv _ (match ?x with _ => _ end) => destruct x
    | |- inv _ (let _ := _ in _) => cbv zeta
    | |- _ => assumption
    end.

Section FrameProgram.

Variable I : state -> Prop.
Hypothesis I_emit : forall st e, benign e = true -> I st -> I (snd (emit e st)).
Hypothesis I_set_s3 : forall st m, I st -> I (snd (set_s3 m st)).
Variable w : world.

Lemma inv_banner lv msg : inv I (banner lv msg).
Proof. unfold banner. inv_auto. Qed.

Lemma inv_validate_inputs m b p : inv I (validate_inputs m b p).
Proof. unfold validate_inputs. inv_auto. Qed.

Lemma inv_required_env name : inv I (required_env w name).
Proof. unfold required_env. inv_auto. Qed.

Lemma inv_validate_environment : inv I (validate_environment w).
Proof.
  unfold validate_environment.
  repeat (apply inv_bind; [apply inv_required_env|intros ?]).
  cbv zeta. apply inv_bind; [|intros ?].
  - apply inv_try_except; [apply inv_validate_inputs|].
    intros e h H. inv_handler. inv_auto.
  - inv_auto.
Qed.

Lemma inv_create_s3_client a b c : inv I (create_s3_client w a b c).
Proof. unfold create_s3_client. inv_auto. Qed.

Lemma inv_list_objects_v2 b p k : inv I (list_objects_v2 w b p k).
Proof. unfold list_objects_v2. inv_auto. Qed.

Lemma inv_model_exists_in_s3 client b p : inv I (model_exists_in_s3 w client b p).
Proof.
  unfold model_exists_in_s3. apply inv_bind; [inv_auto|intros ?].
  apply inv_try_except.
  - apply inv_bind; [apply inv_list_objects_v2|intros ?]. inv_auto.
  - intros e h H. inv_handler. inv_auto.
Qed.

End FrameProgram.

Section FrameUpload.

Variable I : state -> Prop.
Hypothesis I_emit : forall st e, benign e = true -> I st -> I (snd (emit e st)).
Hypothesis I_set_s3 : forall st m, I st -> I (snd (set_s3 m st)).
Variable w : world.

Lemma inv_path_exists p : inv I (path_exists w p).
Proof. unfold path_exists. inv_auto. Qed.

Lemma inv_rglob_file_count p : inv I (rglob_file_count w p).
Proof. unfold rglob_file_count. inv_auto. Qed.

Lemma inv_os_walk top : inv I (os_walk w top).
Proof. unfold os_walk. inv_auto. Qed.

Lemma inv_getsize p : inv I (getsize w p).
Proof. unfold getsize. inv_auto. Qed.

Lemma inv_upload_file p b k : inv I (upload_file w p b k).
Proof. unfold upload_file. inv_auto. Qed.

Lemma inv_upload_file_to_s3 client p b k : inv I (upload_file_to_s3 w client p b k).
Proof.
  unfold upload_file_to_s3.
  apply inv_bind; [apply inv_upload_file|intros _; apply inv_getsize].
Qed.

Lemma inv_collect_files local_dir pre root files :
  inv I (collect_files w local_dir pre root files).
Proof.
  induction files as [|f files IH]; simpl; [apply inv_ret|].
  destruct (Path.relpath _ _ _); [|apply inv_raise].
  apply inv_bind; [exact IH|intros ?; apply inv_ret].
Qed.

Lemma inv_collect_walk local_dir pre triples :
  inv I (collect_walk w local_dir pre triples).
Proof.
  induction triples as [|[[root ds] files] triples IH]; simpl; [apply inv_ret|].
  apply inv_bind; [apply inv_collect_files|intros ?].
  apply inv_bind; [exact IH|intros ?; apply inv_ret].
Qed.

Lemma inv_files_to_upload local_dir pre : inv I (files_to_upload w local_dir pre).
Proof.
  unfold files_to_upload.
  apply inv_bind; [apply inv_os_walk|intros ?; apply inv_collect_walk].
Qed.

Lemma inv_drain client b pending : inv I (drain w client b pending).
Proof.
  induction pending as [|[[p k] rel] pending IH]; simpl; [apply inv_ret|].
  apply inv_bind; [|intros _; exact IH].
  apply inv_try_except.
  - apply inv_bind; [apply inv_upload_file_to_s3|intros ?; apply inv_ret].
  - intros e h [= <-]. apply inv_ret.
Qed.

Lemma inv_as_completed_loop client b completed total count :
  inv I (as_completed_loop w client b completed total count).
Proof.
  revert total count.
  induction completed as [|[[p k] rel] completed IH]; intros total count; simpl;
    [apply inv_ret|].
  apply inv_bind; [|intros ?; apply IH].
  apply inv_try_except.
  - apply inv_bind; [apply inv_upload_file_to_s3|intros ?]. inv_auto.
  - intros e h [= <-].
    apply inv_bind; [inv_auto|intros _].
    apply inv_bind; [apply inv_drain|intros _; apply inv_raise].
Qed.

Lemma inv_upload_directory_to_s3 client local_dir b pre n :
  inv I (upload_directory_to_s3 w client local_dir b pre n).
Proof.
  unfold upload_directory_to_s3. cbv zeta.
  apply inv_bind; [inv_auto|intros _].
  apply inv_bind; [apply inv_files_to_upload|intros files].
  destruct files as [|t files]; [inv_auto|].
  apply inv_bind; [inv_auto|intros _].
  apply inv_bind; [unfold thread_pool_executor; inv_auto|intros _].
  apply inv_bind; [apply inv_as_completed_loop|intros ?]. inv_auto.
Qed.

Lemma inv_main_handlers e h : main_handlers e = Some h -> inv I h.
Proof.
  unfold main_handlers. intros H.
  destruct (is_ClientError e);
    [injection H as <-;
     repeat (apply inv_bind; [first [apply inv_banner; assumption|inv_auto]|intros ?]);
     inv_auto|].
  destruct (is_HfHubHTTPError e);
    [injection H as <-;
     repeat (apply inv_bind; [first [apply inv_banner; assumption|inv_auto]|intros ?]);
     inv_auto|].
  destruct (is_OSError e);
    [injection H as <-;
     repeat (apply inv_bind; [first [apply inv_banner; assumption|inv_auto]|intros ?]);
     inv_auto|].
  destruct (is_Exception e); [|discriminate].
  injection H as <-.
  repeat (apply inv_bind; [first [apply inv_banner; assumption|inv_auto]|intros ?]).
  inv_auto.
Qed.

End FrameUpload.

(** ** The run of [main] *)

Lemma main_unfold (w : world) (st : state) :
  main w st
  = try_finally (try_except (main_body w) main_handlers) (main_finally w)
      (snd (main_start st)).
Proof. reflexivity. Qed.

Lemma bind_run {A B} (m : M A) (k : A -> M B) (st : state) :
  (m ≫= k) st
  = match m st with
    | (Ok a, st') => k a st'
    | (Raise e, st') => (Raise e, st')
    end.
Proof. reflexivity. Qed.

(** With a worker the pool is made, and the run goes on. *)
Lemma thread_pool_executor_run {B} (n : nat) (k : unit -> M B) (st : state) :
  0 < n -> (thread_pool_executor n ≫= k) st = k tt st.
Proof. intros H. destruct n as [|n]; [lia|reflexivity]. Qed.

Lemma fs_events_app (t1 t2 : list event) :
  fs_events (t1 ++ t2) = fs_events t1 ++ fs_events t2.
Proof. unfold fs_events. apply List.filter_app. Qed.

Lemma untouched_emit f0 v0 t0 st e :
  benign e = true -> untouched f0 v0 t0 st -> untouched f0 v0 t0 (snd (emit e st)).
Proof.
  intros He (Hf & Hv & Ht). repeat split; simpl; try assumption.
  rewrite fs_events_app. simpl. rewrite He. simpl. rewrite app_nil_r. exact Ht.
Qed.

Lemma untouched_set_s3 f0 v0 t0 st m :
  untouched f0 v0 t0 st -> untouched f0 v0 t0 (snd (set_s3 m st)).
Proof. intros H. exact H. Qed.

(** ** C1: the model is already in the store *)

(** C1. Take a run of [main] that reaches the existence check: the environment
    is valid, the client is made, and [model_exists_in_s3] returns [True] for
    the bucket and the full prefix.  Then [main] ends by [SystemExit(0)], so
    the exit status is 0; no directory is created and the hub is not called
    (the trace gains no [mkdtemp], no [snapshot_download], no [rmtree]); the
    local file system is what it was before the run. *)
Theorem main_skips_download_when_model_exists :
  forall (w : world) (st : state) (cfg : config) (client : s3_client)
         (st1 st2 st3 : state),
    validate_environment w (snd (main_start st)) = (Ok cfg, st1) ->
    create_s3_client w cfg.(s3_endpoint_url) cfg.(aws_access_key_id)
      cfg.(aws_secret_access_key) st1 = (Ok client, st2) ->
    model_exists_in_s3 w client cfg.(s3_bucket)
      (full_s3_prefix cfg.(s3_prefix) cfg.(model_name)) st2 = (Ok true, st3) ->
    let r := main w st in
    fst r = Raise (SystemExit 0)
    /\ exit_status (fst r) = 0%Z
    /\ fs_events (trace (snd r)) = fs_events (trace st)
    /\ fs (snd r) = fs st
    /\ var_download_dir (snd r) = None.
Proof.
  intros w st cfg client st1 st2 st3 H1 H2 H3 r. subst r.
  set (I := untouched (fs st) None (fs_events (trace st))).
  assert (Hemit : forall s e, benign e = true -> I s -> I (snd (emit e s)))
    by (intros; apply untouched_emit; assumption).
  assert (Hs3 : forall s m, I s -> I (snd (set_s3 m s)))
    by (intros; apply untouched_set_s3; assumption).
  assert (I0 : I (snd (main_start st))).
  { unfold main_start. unfold_M. simpl. repeat split; simpl.
    rewrite !fs_events_app. simpl. rewrite !app_nil_r. reflexivity. }
  assert (I1 : I st1).
  { pose proof (inv_validate_environment I Hemit w (snd (main_start st)) I0) as H.
    rewrite H1 in H. exact H. }
  assert (I2 : I st2).
  { pose proof (inv_create_s3_client I Hemit w cfg.(s3_endpoint_url)
                  cfg.(aws_access_key_id) cfg.(aws_secret_access_key) st1 I1) as H.
    rewrite H2 in H. exact H. }
  assert (I3 : I st3).
  { pose proof (inv_model_exists_in_s3 I Hemit w client cfg.(s3_bucket)
                  (full_s3_prefix cfg.(s3_prefix) cfg.(model_name)) st2 I2) as H.
    rewrite H3 in H. exact H. }
  rewrite main_unfold. unfold try_finally, try_except, main_body.
  rewrite bind_run, H1. rewrite bind_run, H2. cbv zeta. rewrite bind_run, H3.
  destruct I3 as (Hf & Hv & Ht).
  unfold banner, main_finally. unfold_M. simpl. rewrite Hv. simpl.
  repeat split; try assumption.
  rewrite !fs_events_app. simpl. rewrite !app_nil_r. exact Ht.
Qed.

Lemma main_skips_download_when_model_exists_witness :
  exit_status (fst (main Examples.test_world Examples.populated_state)) = 0%Z
  /\ fs_events (trace (snd (main Examples.test_world Examples.populated_state))) = []
  /\ fs (snd (main Examples.test_world Examples.populated_state))
     = fs Examples.populated_state.
Proof.
  pose (st := Examples.populated_state).
  pose (w := Examples.test_world).
  pose (r1 := validate_environment w (snd (main_start st))).
  pose (cfg := match fst r1 with
               | Ok c => c
               | Raise _ => Build_config "" "" "" "" "" "" None ""
               end).
  pose (r2 := create_s3_client w cfg.(s3_endpoint_url) cfg.(aws_access_key_id)
                cfg.(aws_secret_access_key) (snd r1)).
  pose (client := {| endpoint_url := cfg.(s3_endpoint_url) |}).
  pose (r3 := model_exists_in_s3 w client cfg.(s3_bucket)
                (full_s3_prefix cfg.(s3_prefix) cfg.(model_name)) (snd r2)).
  destruct (main_skips_download_when_model_exists w st cfg client
              (snd r1) (snd r2) (snd r3)) as (_ & Hexit & Hev & Hfs & _).
  - vm_compute. reflexivity.
  - vm_compute. reflexivity.
  - vm_compute. reflexivity.
  - split; [exact Hexit|]. split; [exact Hev|exact Hfs].
Defined.

(** ** [validate_environment] *)

Lemma only_logged_refl (st : state) : only_logged st st.
Proof.
  repeat split. exists []. rewrite app_nil_r. split; reflexivity.
Qed.

Lemma only_logged_log (st0 st : state) (lv : level) (msg : string) :
  only_logged st0 st -> only_logged st0 (snd (log lv msg st)).
Proof.
  intros (Hf & Hs & Hv & logs & Ht & Hl). repeat split; try assumption.
  exists (logs ++ [Log lv msg]). simpl. rewrite Ht, <- app_assoc.
  split; [reflexivity|]. rewrite forallb_app, Hl. reflexivity.
Qed.

Lemma inv_only_logged_log (st0 : state) (lv : level) (msg : string) :
  inv (only_logged st0) (log lv msg).
Proof. intros st H. apply only_logged_log, H. Qed.

Lemma inv_only_logged_validate_inputs (st0 : state) (m b p : string) :
  inv (only_logged st0) (validate_inputs m b p).
Proof.
  unfold validate_inputs.
  repeat match goal with
         | |- inv _ (if ?c then _ else _) => destruct c
         | |- inv _ (raise _) => apply inv_raise
         | |- inv _ (log _ _) => apply inv_only_logged_log
         end.
Qed.

Lemma inv_only_logged_required_env (w : world) (st0 : state) (name : string) :
  inv (only_logged st0) (required_env w name).
Proof.
  unfold required_env.
  destruct (environ w !! name) as [v|]; [destruct (Py.falsy (Some v))|];
    repeat first [apply inv_ret
                 |apply inv_bind; [apply inv_only_logged_log|intros _]
                 |apply inv_sys_exit].
Qed.

Lemma inv_only_logged_validate_environment (w : world) (st0 : state) :
  inv (only_logged st0) (validate_environment w).
Proof.
  unfold validate_environment.
  repeat (apply inv_bind; [apply inv_only_logged_required_env|intros ?]).
  cbv zeta. apply inv_bind; [|intros ?].
  - apply inv_try_except; [apply inv_only_logged_validate_inputs|].
    intros e h H. destruct (is_ValueError e); [injection H as <-|discriminate H].
    apply inv_bind; [apply inv_only_logged_log|intros _; apply inv_sys_exit].
  - repeat (apply inv_bind; [apply inv_only_logged_log|intros _]).
    apply inv_ret.
Qed.

Lemma required_env_run (w : world) (name : string) (st : state) :
  required_env w name st
  = if env_set w name
    then (Ok (default "" (environ w !! name)), st)
    else (Raise (SystemExit 1),
          snd (log ERROR (name +:+ " environment variable is required") st)).
Proof.
  unfold required_env, env_set.
  destruct (environ w !! name) as [v|]; [|reflexivity].
  destruct (Py.falsy (Some v)); reflexivity.
Qed.

Lemma validate_environment_fst (w : world) (st : state) :
  fst (validate_environment w st)
  = if env_valid w then Ok (config_of_env w) else Raise (SystemExit 1).
Proof.
  unfold env_valid, required_vars. cbn [forallb].
  unfold validate_environment.
  repeat (rewrite bind_run, required_env_run;
          match goal with
          | |- context [env_set w ?n] =>
              destruct (env_set w n); cbn [andb]; [|reflexivity]
          end).
  cbv zeta. fold (config_of_env w). cbn [andb].
  rewrite bind_run. unfold try_except.
  destruct (inputs_ok (model_name (config_of_env w)) (s3_bucket (config_of_env w))
              (s3_prefix (config_of_env w))) eqn:Hok.
  - rewrite (validate_inputs_accepts _ _ _ _ Hok). reflexivity.
  - destruct (validate_inputs_rejects _ _ _ st Hok) as [msg ->]. reflexivity.
Qed.

(** X1. [validate_environment] returns the configuration the environment
    describes (with [models/] and [/tmp] for a prefix and a directory that
    are not set) when the five required variables are set and not empty and
    the model name, the bucket and the prefix pass [validate_inputs]; in every
    other case it ends by [SystemExit(1)]. *)
Theorem validate_environment_result :
  forall (w : world) (st : state),
    fst (validate_environment w st)
    = if env_valid w then Ok (config_of_env w) else Raise (SystemExit 1).
Proof. exact validate_environment_fst. Qed.

(** X2. Whatever it returns or raises, [validate_environment] only writes log
    lines: it makes no call on the store, the hub or the local disk, and it
    leaves the file system, the store and [download_dir] as they were. *)
Theorem validate_environment_only_logs :
  forall (w : world) (st : state),
    only_logged st (snd (validate_environment w st)).
Proof.
  intros w st.
  apply (inv_only_logged_validate_environment w st st), only_logged_refl.
Qed.

(** ** The two phases of a run: before and after [mkdtemp] *)

Section Phases.

Variable w : world.
Variable I0 : state -> Prop.
Variable J0 J : string -> state -> Prop.
Hypothesis I0_emit : forall st e, benign e = true -> I0 st -> I0 (snd (emit e st)).
Hypothesis J_emit : forall d st e, benign e = true -> J d st -> J d (snd (emit e st)).
Hypothesis J_mkdtemp :
  forall dir, hoare I0 (mkdtemp w "hf_model_" dir)
                (fun r st => match r with Ok d => J0 d st | Raise _ => I0 st end).
Hypothesis J_set_download_dir :
  forall d, hoare (J0 d) (set_download_dir (Some d)) (fun _ st => J d st).
Hypothesis J_snapshot_download :
  forall d repo_id token, inv (J d) (snapshot_download w repo_id d token).
Hypothesis J_upload :
  forall d client,
    inv (J d) (upload_directory_to_s3 w client d (config_of_env w).(s3_bucket)
                 (main_prefix w) 10).

Lemma hoare_given {A B} (x : A) (I : state -> Prop) (k : A -> M B)
    (Q : result B -> state -> Prop) :
  hoare I (k x) Q -> forall a, hoare (fun st => a = x /\ I st) (k a) Q.
Proof. intros H a st [-> Hst]. apply H, Hst. Qed.

Lemma phases_download_model_from_hf (d model : string) (token : option string) :
  inv (J d) (download_model_from_hf w model d token).
Proof.
  pose proof (J_emit d) as Hemit.
  unfold download_model_from_hf.
  repeat (apply inv_bind; [apply inv_log; exact Hemit|intros _]).
  apply inv_bind; [apply J_snapshot_download|intros p].
  apply inv_bind; [apply inv_log; exact Hemit|intros _].
  apply inv_bind; [apply inv_path_exists|intros present].
  apply inv_bind; [inv_auto|intros _].
  apply inv_bind; [apply inv_rglob_file_count|intros n].
  inv_auto.
Qed.

Lemma phases_main_body :
  hoare I0 (main_body w) (fun _ st => I0 st \/ exists d, J d st).
Proof.
  assert (Hleft : forall (e : exn) st, I0 st -> I0 st \/ exists d, J d st)
    by (intros; left; assumption).
  unfold main_body.
  apply (hoare_bind _ _ _ (fun cfg st => cfg = config_of_env w /\ I0 st)).
  { intros st H.
    pose proof (inv_validate_environment I0 I0_emit w st H) as HI.
    pose proof (validate_environment_fst w st) as Hr.
    destruct (fst (validate_environment w st)) as [cfg|e]; [|left; exact HI].
    destruct (env_valid w); [|discriminate Hr].
    injection Hr as ->. split; [reflexivity|exact HI]. }
  apply hoare_given.
  apply hoare_bind_inv; [apply inv_create_s3_client; exact I0_emit| |exact Hleft].
  intros client. cbv zeta.
  apply hoare_bind_inv; [apply inv_model_exists_in_s3; exact I0_emit| |exact Hleft].
  intros [|].
  - apply hoare_of_inv; [|intros r st H; left; exact H].
    apply inv_bind; [apply inv_log; exact I0_emit|intros _].
    apply inv_bind; [apply inv_banner; exact I0_emit|intros _].
    apply inv_sys_exit.
  - apply hoare_bind_inv; [apply inv_log; exact I0_emit| |exact Hleft]. intros _.
    apply (hoare_bind _ _ _ (fun d st => J0 d st)).
    { eapply hoare_conseq; [apply J_mkdtemp| |].
      - intros st H. exact H.
      - intros [d|e] st H; [exact H|left; exact H]. }
    intros d.
    apply (hoare_bind _ _ _ (fun _ st => J d st)).
    { eapply hoare_conseq; [apply J_set_download_dir| |].
      - intros st H. exact H.
      - intros [u|e] st H; [exact H|right; exists d; exact H]. }
    intros _.
    pose proof (J_emit d) as Hemit.
    apply hoare_of_inv; [|intros r st H; right; exists d; exact H].
    apply inv_bind; [apply inv_log; exact Hemit|intros _].
    apply inv_bind; [apply phases_download_model_from_hf|intros _].
    apply inv_bind; [apply J_upload|intros _].
    apply inv_bind; [apply inv_banner; exact Hemit|intros _].
    apply inv_sys_exit.
Qed.

Lemma phases_main_try :
  hoare I0 (try_except (main_body w) main_handlers)
    (fun _ st => I0 st \/ exists d, J d st).
Proof.
  apply (hoare_try_except _ _ _ (fun _ st => I0 st \/ exists d, J d st)).
  - intros st H. pose proof (phases_main_body st H) as Hb.
    destruct (fst (main_body w st)) as [u|e]; [exact Hb|].
    destruct (main_handlers e); exact Hb.
  - intros e h He.
    apply (inv_main_handlers (fun st => I0 st \/ exists d, J d st)) with (e := e);
      [|exact He].
    intros st ev Hev [H|[d H]]; [left; apply I0_emit; assumption|].
    right. exists d. apply J_emit; assumption.
Qed.

End Phases.

(** ** The directory [mkdtemp] makes *)

Lemma mkdtemps_app (t1 t2 : list event) :
  mkdtemps (t1 ++ t2) = mkdtemps t1 ++ mkdtemps t2.
Proof. unfold mkdtemps. apply flat_map_app. Qed.

Lemma mkdtemps_nil_not_in (t : list event) (d : string) :
  mkdtemps t = [] -> ~ In (EvMkdtemp d) t.
Proof.
  induction t as [|e t IH]; intros H Hin; [exact Hin|].
  destruct Hin as [->|Hin]; [discriminate H|].
  simpl in H. apply app_eq_nil in H as [_ H]. exact (IH H Hin).
Qed.

Lemma mkdtemps_benign (e : event) : benign e = true -> mkdtemps [e] = [].
Proof. destruct e; simpl; intros H; try reflexivity; discriminate H. Qed.

Lemma before_mkdtemp_emit t0 st e :
  benign e = true -> before_mkdtemp t0 st -> before_mkdtemp t0 (snd (emit e st)).
Proof.
  intros He (Hv & new & Ht & Hm). split; [exact Hv|].
  exists (new ++ [e]). simpl. rewrite Ht, <- app_assoc. split; [reflexivity|].
  rewrite mkdtemps_app, Hm, (mkdtemps_benign e He). reflexivity.
Qed.

Lemma not_yet_made_emit f0 t0 st e :
  benign e = true -> not_yet_made f0 t0 st -> not_yet_made f0 t0 (snd (emit e st)).
Proof.
  intros He [Hf H]. split; [exact Hf|]. apply before_mkdtemp_emit; assumption.
Qed.

Lemma created_emit_no_mkdtemp w f0 t0 d v st e :
  mkdtemps [e] = [] ->
  created w f0 t0 d v st -> created w f0 t0 d v (snd (emit e st)).
Proof.
  intros He (Hv & Hn & Hd & t1 & t2 & Ht & H1 & H2).
  split; [exact Hv|]. split; [exact Hn|]. split; [exact Hd|].
  exists t1, (t2 ++ [e]). simpl. rewrite Ht. split; [|split; [exact H1|]].
  - rewrite <- !app_assoc. reflexivity.
  - rewrite mkdtemps_app, H2, He. reflexivity.
Qed.

Lemma created_emit w f0 t0 d v st e :
  benign e = true ->
  created w f0 t0 d v st -> created w f0 t0 d v (snd (emit e st)).
Proof. intros He. apply created_emit_no_mkdtemp, mkdtemps_benign, He. Qed.

Lemma main_start_before (st : state) :
  before_mkdtemp (trace st) (snd (main_start st)).
Proof.
  unfold main_start, banner. unfold_M. simpl. split; [reflexivity|].
  eexists. split; [rewrite <- !app_assoc; reflexivity|reflexivity].
Qed.

Lemma main_start_not_yet_made (st : state) :
  not_yet_made (fs st) (trace st) (snd (main_start st)).
Proof. split; [reflexivity|apply main_start_before]. Qed.

(** What [os.mkdir] has made is a directory at the normalized path. *)
Lemma make_dir_made_in (w : world) (f0 f1 : node) (d : string) (st : state) :
  Fs.make_dir f0 (cwd w) d = Some f1 -> fs st = f1 -> made_in w f0 d st.
Proof.
  intros H Hfs. pose proof (make_dir_mkdir _ _ _ _ H) as Hm.
  unfold made_in. rewrite Hfs. split; [eexists; exact H|]. split; [apply (remove_mkdir _ _ _ Hm)|].
  exists []. apply (resolve_mkdir _ _ _ Hm).
Qed.

Lemma made_in_not_root (w : world) (f0 : node) (d : string) (st : state) :
  made_in w f0 d st -> Path.abs_comps (cwd w) d <> [].
Proof.
  intros ([f1 H] & _). apply (mkdir_not_root _ _ _ (make_dir_mkdir _ _ _ _ H)).
Qed.

(** What is written into the directory leaves it where it is. *)
Lemma made_in_put (w : world) (f0 : node) (d : string) (st st' : state)
    (es : list (string * node)) :
  made_in w f0 d st ->
  fs st' = Fs.put (Path.abs_comps (cwd w) d) (Dir es) (fs st) ->
  made_in w f0 d st'.
Proof.
  intros Hm Hfs. pose proof (made_in_not_root _ _ _ _ Hm) as Hne.
  destruct Hm as (Hmk & Hr & es0 & Hd).
  split; [exact Hmk|]. rewrite Hfs. split.
  - rewrite (remove_put _ _ _ _ Hne Hd). exact Hr.
  - exists es. apply (resolve_put _ _ _ _ Hd).
Qed.

(** The directory is found by its path, *)
Lemma made_in_lookup (w : world) (f0 : node) (d : string) (st : state) :
  made_in w f0 d st ->
  Fs.lookup_path (fs st) (cwd w) d = Some (Path.abs_comps (cwd w) d).
Proof.
  intros (Hmk & Hr & es & Hd). apply (make_dir_lookup f0); try assumption.
  eexists. exact Hd.
Qed.

Lemma made_in_stat (w : world) (f0 : node) (d : string) (st : state) :
  made_in w f0 d st -> exists es, Fs.stat (fs st) (cwd w) d = Some (Dir es).
Proof.
  intros Hm. pose proof (made_in_lookup _ _ _ _ Hm) as Hl.
  destruct Hm as (_ & _ & es & Hd). exists es.
  rewrite (stat_of_lookup _ _ _ _ Hl). exact Hd.
Qed.

(** and was not there before. *)
Lemma make_dir_absent (f0 : node) (cwd d : string) :
  is_Some (Fs.make_dir f0 cwd d) -> Fs.stat f0 cwd d = None.
Proof.
  intros [f1 H]. destruct (Fs.stat f0 cwd d) as [n|] eqn:E; [|reflexivity].
  destruct (stat_resolve _ _ _ _ E) as [_ Hr].
  rewrite (mkdir_absent _ _ _ (make_dir_mkdir _ _ _ _ H)) in Hr. discriminate Hr.
Qed.

(** What is written into it is found by the path it was made at. *)
Lemma make_dir_put_stat (f0 f1 : node) (cwd d : string)
    (es : list (string * node)) :
  Fs.make_dir f0 cwd d = Some f1 ->
  Fs.stat (Fs.put (Path.abs_comps cwd d) (Dir es) f1) cwd d = Some (Dir es).
Proof.
  intros H. pose proof (make_dir_mkdir _ _ _ _ H) as Hm.
  pose proof (resolve_mkdir _ _ _ Hm) as Hd.
  pose proof (resolve_put _ (Dir es) _ _ Hd) as Hp.
  rewrite (stat_of_lookup _ _ _ (Path.abs_comps cwd d)); [exact Hp|].
  apply (make_dir_lookup f0); [eexists; exact H| |eexists; exact Hp].
  rewrite (remove_put _ _ _ _ (mkdir_not_root _ _ _ Hm) Hd).
  apply (remove_mkdir _ _ _ Hm).
Qed.

Lemma main_try_after (w : world) (f0 : node) (t0 : list event) :
  hoare (not_yet_made f0 t0) (try_except (main_body w) main_handlers)
    (fun _ st => after_try w f0 t0 st).
Proof.
  apply (phases_main_try w (not_yet_made f0 t0) (fun d => created w f0 t0 d None)
           (fun d => created w f0 t0 d (Some d))).
  - intros st e He H. apply not_yet_made_emit; assumption.
  - intros d st e He H. apply created_emit; assumption.
  - intros dir st (Hf & Hv & new & Ht & Hm). unfold mkdtemp. cbv zeta. unfold_M.
    destruct (Fs.make_dir (fs st) (cwd w) _) as [fs'|] eqn:Hmk; simpl.
    + split; [exact Hv|]. split; [apply join2_nonempty; reflexivity|]. split.
      * rewrite <- Hf. apply (make_dir_made_in _ _ fs'); [exact Hmk|reflexivity].
      * exists new, []. simpl. rewrite Ht, <- app_assoc. repeat split. exact Hm.
    + split; [exact Hf|]. split; [exact Hv|]. exists new. split; assumption.
  - intros d st (Hv & H). split; [reflexivity|exact H].
  - intros d repo_id token st (Hv & Hn & Hm & t1 & t2 & Ht & H1 & H2).
    unfold snapshot_download. cbv zeta. unfold_M.
    assert (Hc : created w f0 t0 d (Some d)
                   {| fs := Fs.put (Path.abs_comps (cwd w) d)
                              (Dir (hub_files (hub w repo_id d token))) (fs st);
                      s3 := s3 st;
                      var_download_dir := var_download_dir st;
                      trace := trace st ++ [EvSnapshotDownload repo_id d token] |}).
    { split; [exact Hv|]. split; [exact Hn|]. split.
      - apply (made_in_put w f0 d st _ (hub_files (hub w repo_id d token)) Hm).
        reflexivity.
      - exists t1, (t2 ++ [EvSnapshotDownload repo_id d token]). simpl.
        rewrite Ht, <- !app_assoc. repeat split; [exact H1|].
        rewrite mkdtemps_app, H2. reflexivity. }
    simpl. destruct (hub_result (hub w repo_id d token)); exact Hc.
  - intros d client. apply inv_upload_directory_to_s3.
    + intros st e He H. apply created_emit; assumption.
    + intros st m H. exact H.
Qed.

(** ** [cleanup_local_files] at the end of a run *)

(** [cleanup_local_files] never raises. *)
Lemma cleanup_local_files_returns (w : world) (d : string) (st : state) :
  fst (cleanup_local_files w d st) = Ok tt.
Proof.
  unfold cleanup_local_files, path_exists, rmtree. unfold_M. cbn [fst snd fs trace].
  destruct (bool_decide _); [|reflexivity].
  destruct (rmtree_fault w) as [msg|]; [reflexivity|]. cbn [fst snd fs trace].
  destruct (Fs.lookup_path (fs st) (cwd w) d) as [pos|]; [|reflexivity].
  destruct (Fs.resolve pos (fs st)) as [[x|es]|]; try reflexivity.
  destruct pos; reflexivity.
Qed.

Lemma main_finally_returns (w : world) (st : state) :
  fst (main_finally w st) = Ok tt.
Proof.
  unfold main_finally. rewrite bind_run. unfold get.
  destruct (var_download_dir st) as [d|]; [|reflexivity].
  destruct (Path.nonempty d); [|reflexivity].
  rewrite bind_run. unfold path_exists at 1. rewrite bind_run. unfold get.
  cbv beta iota. unfold mret, M_ret, ret.
  destruct (bool_decide _); [|reflexivity].
  apply cleanup_local_files_returns.
Qed.

Lemma try_finally_fst {A} (m : M A) (f : M unit) (st : state) :
  (forall st', fst (f st') = Ok tt) ->
  fst (try_finally m f st) = fst (m st).
Proof.
  intros Hf. unfold try_finally. destruct (m st) as [r st'].
  specialize (Hf st'). destruct (f st') as [[u|e] st'']; simpl in *;
    [reflexivity|discriminate Hf].
Qed.

(** On the directory [mkdtemp] made, [cleanup_local_files] logs, calls
    [shutil.rmtree], which removes the directory unless it fails, and logs how
    it went. *)
Lemma cleanup_local_files_made (w : world) (f0 : node) (d : string) (st : state) :
  made_in w f0 d st ->
  trace (snd (cleanup_local_files w d st))
  = trace st ++ [Log INFO ("Cleaning up local files: " +:+ d); EvRmtree d;
                 cleanup_end w]
  /\ (rmtree_fault w = None -> fs (snd (cleanup_local_files w d st)) = f0).
Proof.
  intros Hm. pose proof (made_in_lookup _ _ _ _ Hm) as Hl.
  pose proof (made_in_not_root _ _ _ _ Hm) as Hne.
  destruct (made_in_stat _ _ _ _ Hm) as [es Hs].
  destruct Hm as (_ & Hr & es' & Hd).
  unfold cleanup_local_files, path_exists, rmtree, cleanup_end. unfold_M.
  cbn [fst snd fs trace]. rewrite Hs.
  rewrite bool_decide_eq_true_2 by (eexists; reflexivity).
  destruct (rmtree_fault w) as [msg|]; cbn [fst snd fs trace is_OSError exn_str].
  - split; [rewrite <- !app_assoc; reflexivity|discriminate].
  - rewrite Hl, Hd. destruct (Path.abs_comps (cwd w) d) as [|c cs] eqn:E;
      [contradiction|].
    cbn [fst snd fs trace]. split; [rewrite <- !app_assoc; reflexivity|].
    intros _. exact Hr.
Qed.

Lemma main_finally_after (w : world) (f0 : node) (t0 : list event) :
  hoare (after_try w f0 t0) (main_finally w) (fun _ st => after_main w f0 t0 st).
Proof.
  intros st [(Hf & Hv & H)|[d (Hv & Hn & Hm & t1 & t2 & Ht & H1 & H2)]].
  - left. unfold main_finally. rewrite bind_run. unfold get. rewrite Hv.
    split; [exact Hf|]. split; [exact Hv|exact H].
  - right. exists d, t1, t2. destruct (made_in_stat _ _ _ _ Hm) as [es Hs].
    assert (E : main_finally w st = cleanup_local_files w d st).
    { unfold main_finally. rewrite bind_run. unfold get. rewrite Hv, Hn.
      rewrite bind_run. unfold path_exists at 1. rewrite bind_run. unfold get.
      cbv beta iota. unfold mret, M_ret, ret. cbn [fst snd]. rewrite Hs.
      rewrite bool_decide_eq_true_2 by (eexists; reflexivity). reflexivity. }
    rewrite E.
    destruct (cleanup_local_files_made w f0 d st Hm) as [Hc Hfs].
    split; [exact (proj1 Hm)|]. split; [|split; [exact H1|split; [exact H2|exact Hfs]]].
    rewrite Hc, Ht, <- !app_assoc. reflexivity.
Qed.

(** A run of [main] from its start to its end. *)
Lemma main_after (w : world) (st : state) :
  after_main w (fs st) (trace st) (snd (main w st)).
Proof.
  rewrite main_unfold.
  apply (hoare_try_finally (not_yet_made (fs st) (trace st))
           (try_except (main_body w) main_handlers) (main_finally w)
           (fun _ s => after_try w (fs st) (trace st) s)
           (fun _ s => after_main w (fs st) (trace st) s)).
  - apply main_try_after.
  - intros r s Hs. pose proof (main_finally_after w (fs st) (trace st) s Hs) as H.
    destruct (fst (main_finally w s)); exact H.
  - apply main_start_not_yet_made.
Qed.

(** X5. When [shutil.rmtree] does not fail, a run of [main] leaves the local
    file system exactly as it found it, however the run ends (model already
    stored, bad environment, failure of the store, of the hub or of an upload,
    or success): the directory [mkdtemp] made and everything the download
    wrote below it are gone, and nothing else has changed. *)
Theorem main_restores_file_system :
  forall (w : world) (st : state),
    rmtree_fault w = None ->
    fs (snd (main w st)) = fs st.
Proof.
  intros w st Hrm.
  destruct (main_after w st) as [[Hf _]|(d & t1 & t2 & _ & _ & _ & _ & Hf)];
    [exact Hf|exact (Hf Hrm)].
Qed.

Lemma main_restores_file_system_witness :
  rmtree_fault Examples.failing_upload_world = None
  /\ fs (snd (main Examples.failing_upload_world Examples.fresh_state))
     = fs Examples.fresh_state.
Proof.
  split; [reflexivity|].
  apply (main_restores_file_system Examples.failing_upload_world
           Examples.fresh_state).
  reflexivity.
Defined.

(** ** C2: the local directory is always cleaned up *)

(** C2. In every run of [main], whatever fails and wherever: a directory
    that [mkdtemp] created is the only one the run created, and the run ends
    with [cleanup_local_files] on that directory: the line
    [Cleaning up local files], the call of [shutil.rmtree] on the directory,
    and the line [Cleanup complete], or the warning [Cleanup failed] when
    [shutil.rmtree] raised; when it did not, the directory no longer exists.
    [cleanup_local_files] never raises.  How [shutil.rmtree] behaves, whether
    it removes the directory or fails, does not change what [main] returns or
    raises, hence not the exit status. *)
Theorem cleanup_runs_on_every_path :
  forall (w : world) (st : state),
    (exists new,
       trace (snd (main w st)) = trace st ++ new
       /\ forall d, In (EvMkdtemp d) new ->
            (exists t1 t2,
               new = t1 ++ EvMkdtemp d
                        :: t2 ++ [Log INFO ("Cleaning up local files: " +:+ d);
                                  EvRmtree d; cleanup_end w]
               /\ mkdtemps t1 = [] /\ mkdtemps t2 = [])
            /\ (rmtree_fault w = None -> ~ dir_exists w d (snd (main w st))))
    /\ (forall d st', fst (cleanup_local_files w d st') = Ok tt)
    /\ (forall fault,
          fst (main (with_rmtree_fault w fault) st) = fst (main w st)
          /\ exit_status (fst (main (with_rmtree_fault w fault) st))
             = exit_status (fst (main w st))).
Proof.
  intros w st. split; [|split].
  - destruct (main_after w st)
      as [(_ & _ & new & Ht & Hm)|(d & t1 & t2 & Hmk & Ht & H1 & H2 & Hf)].
    + exists new. split; [exact Ht|]. intros d Hin.
      exfalso. exact (mkdtemps_nil_not_in _ _ Hm Hin).
    + eexists. split; [exact Ht|]. intros d' Hin.
      assert (d' = d) as ->.
      { apply in_app_or in Hin as [Hin|[Hin|Hin]].
        - exfalso. exact (mkdtemps_nil_not_in _ _ H1 Hin).
        - injection Hin as <-. reflexivity.
        - apply in_app_or in Hin as [Hin|Hin].
          + exfalso. exact (mkdtemps_nil_not_in _ _ H2 Hin).
          + exfalso. unfold cleanup_end in Hin.
            destruct (rmtree_fault w);
              repeat (destruct Hin as [Hin|Hin]; [discriminate Hin|]);
              exact Hin. }
      split; [exists t1, t2; auto|].
      intros Hrm [n Hn]. rewrite (Hf Hrm), (make_dir_absent _ _ _ Hmk) in Hn.
      discriminate Hn.
  - intros d st'. apply cleanup_local_files_returns.
  - intros fault.
    assert (H : fst (main (with_rmtree_fault w fault) st) = fst (main w st)).
    { rewrite !main_unfold.
      rewrite !try_finally_fst by (intros; apply main_finally_returns).
      reflexivity. }
    split; [exact H|rewrite H; reflexivity].
Qed.

Lemma cleanup_runs_on_every_path_witness :
  exists t1 t2,
    trace (snd (main Examples.failing_upload_world Examples.fresh_state))
    = trace Examples.fresh_state
      ++ t1 ++ EvMkdtemp "/tmp/hf_model_k3x9_q1z"
         :: t2 ++ [Log INFO "Cleaning up local files: /tmp/hf_model_k3x9_q1z";
                   EvRmtree "/tmp/hf_model_k3x9_q1z"; Log INFO "Cleanup complete"]
    /\ ~ dir_exists Examples.failing_upload_world "/tmp/hf_model_k3x9_q1z"
           (snd (main Examples.failing_upload_world Examples.fresh_state)).
Proof.
  destruct (cleanup_runs_on_every_path Examples.failing_upload_world
              Examples.fresh_state) as ((new & Hnew & H) & _).
  assert (Hin : In (EvMkdtemp "/tmp/hf_model_k3x9_q1z") new).
  { change new with (trace Examples.fresh_state ++ new).
    rewrite <- Hnew. vm_compute. tauto. }
  destruct (H _ Hin) as [(t1 & t2 & E & _) Hgone].
  exists t1, t2. split; [rewrite Hnew, E; reflexivity|].
  apply Hgone. reflexivity.
Defined.

(** Scenario C of the specification, and a failing removal. *)
Example main_upload_failure_ex :
  let r := main Examples.failing_upload_world Examples.fresh_state in
  exit_status (fst r) = 1%Z
  /\ fs (snd r) = fs Examples.fresh_state
  /\ fs_events (trace (snd r))
     = [EvMkdtemp "/tmp/hf_model_k3x9_q1z";
        EvSnapshotDownload "gpt2" "/tmp/hf_model_k3x9_q1z" None;
        EvRmtree "/tmp/hf_model_k3x9_q1z"].
Proof. vm_compute. auto. Qed.

Example main_rmtree_failure_ex :
  let r := main (with_rmtree_fault Examples.test_world (Some "Permission denied"))
             Examples.fresh_state in
  exit_status (fst r) = 0%Z
  /\ last (trace (snd r))
     = Some (Log WARNING "Cleanup failed (non-fatal): Permission denied").
Proof. vm_compute. auto. Qed.

(** ** C5: what [download_model_from_hf] returns *)

(** C5 fails: the hub reports [/app] for a download into
    [/tmp/hf_model_k3x9_q1z]; [download_model_from_hf] returns [/app], and the
    run of [main] goes on and exits with status 0. *)
Lemma download_model_from_hf_returns_other_path :
  fst (download_model_from_hf Examples.elsewhere_world "gpt2"
         "/tmp/hf_model_k3x9_q1z" None Examples.fresh_state) = Ok "/app"
  /\ "/app" <> "/tmp/hf_model_k3x9_q1z"
  /\ exit_status (fst (main Examples.elsewhere_world Examples.fresh_state)) = 0%Z.
Proof.
  split; [vm_compute; reflexivity|]. split; [discriminate|].
  vm_compute. reflexivity.
Qed.

(** C5, amended.  After [download_model_from_hf] the requested directory holds
    what the hub wrote.  When the hub raises, the function raises the same
    exception.  When the hub returns a path, the function returns that very
    path if it exists on disk (it leads to a file or a directory, as
    [os.path.exists] has it: the empty path and a path through a directory
    that is not there do not exist), whether or not it is the requested
    directory, and raises a [RuntimeError] if it does not exist. *)
Theorem download_model_from_hf_result :
  forall (w : world) (model d : string) (token : option string) (st : state),
    let o := hub w model d token in
    let r := download_model_from_hf w model d token st in
    fs (snd r) = Fs.put (Path.abs_comps (cwd w) d) (Dir (hub_files o)) (fs st)
    /\ match hub_result o with
       | Raise e => fst r = Raise e
       | Ok p =>
           if bool_decide (is_Some (Fs.stat (fs (snd r)) (cwd w) p))
           then fst r = Ok p
           else fst r = Raise (RuntimeError
                  ("Download validation failed: path " +:+ p +:+ " does not exist"))
       end.
Proof.
  intros w model d token st o r. subst o r.
  unfold download_model_from_hf, snapshot_download, path_exists, rglob_file_count.
  cbv zeta. unfold_M. cbn [fst snd fs s3 trace var_download_dir].
  destruct (hub_result (hub w model d token)) as [p|e];
    cbn [fst snd fs s3 trace var_download_dir]; [|split; reflexivity].
  destruct (bool_decide _) eqn:Hex; cbn [negb fst snd fs s3 trace var_download_dir].
  - destruct (_ =? 0)%nat; cbn [fst snd fs s3 trace var_download_dir];
      rewrite Hex; split; reflexivity.
  - rewrite Hex. split; reflexivity.
Qed.

(** The hub reports the empty path, or [/nonexistent/../tmp] on a machine
    without [/nonexistent]: [os.path.exists] is false, and the function
    raises. *)
Example download_model_from_hf_missing_path_ex :
  fst (download_model_from_hf (Examples.nowhere_world "") "gpt2"
         "/tmp/hf_model_k3x9_q1z" None Examples.fresh_state)
  = Raise (RuntimeError "Download validation failed: path  does not exist")
  /\ fst (download_model_from_hf (Examples.nowhere_world "/nonexistent/../tmp")
            "gpt2" "/tmp/hf_model_k3x9_q1z" None Examples.fresh_state)
     = Raise (RuntimeError
                "Download validation failed: path /nonexistent/../tmp does not exist")
  /\ exit_status (fst (main (Examples.nowhere_world "") Examples.fresh_state))
     = 1%Z.
Proof. vm_compute. repeat split. Qed.

(** ** Trees *)

Lemma node_induction (P : node -> Prop) :
  (forall content, P (File content)) ->
  (forall es, Forall (fun e => P (snd e)) es -> P (Dir es)) ->
  forall n, P n.
Proof.
  intros HF HD. fix IH 1. intros [content|es]; [apply HF|]. apply HD.
  induction es as [|[k v] es IHes]; constructor; [apply IH|exact IHes].
Qed.

Lemma walk_Dir (top : string) (es : list (string * node)) :
  Fs.walk top (Dir es)
  = (top, Fs.dirs_of es, Fs.files_of es) :: Fs.walk_entries top es.
Proof.
  simpl. f_equal. unfold Fs.walk_entries.
  induction es as [|[k v] es IH]; simpl; [reflexivity|]. rewrite IH. reflexivity.
Qed.

Lemma count_files_Dir (es : list (string * node)) :
  count_files (Dir es) = count_entries es.
Proof.
  simpl. induction es as [|[k v] es IH]; simpl; [reflexivity|].
  rewrite IH. reflexivity.
Qed.

(** Below a node without regular files, [os.walk] reports no file names. *)
Lemma walk_no_files (n : node) :
  count_files n = 0 ->
  forall top, Forall (fun t => snd t = []) (Fs.walk top n).
Proof.
  induction n as [content|es IH] using node_induction; intros Hc top.
  - constructor.
  - rewrite walk_Dir. rewrite count_files_Dir in Hc. constructor.
    + simpl. clear IH. induction es as [|[k [c|es']] es IHes]; simpl in *;
        [reflexivity|discriminate Hc|].
      apply IHes. lia.
    + unfold Fs.walk_entries.
      induction es as [|[k v] es IHes]; simpl; [constructor|].
      simpl in Hc. inversion IH as [|? ? Hv Hes]; subst.
      apply Forall_app. split.
      * apply Hv. simpl. lia.
      * apply IHes; [exact Hes|lia].
Qed.

Lemma collect_walk_no_files (w : world) (local_dir pre : string)
    (triples : list (string * list string * list string)) (st : state) :
  Forall (fun t => snd t = []) triples ->
  collect_walk w local_dir pre triples st = (Ok [], st).
Proof.
  induction 1 as [|[[root ds] files] triples Hfiles _ IH]; [reflexivity|].
  simpl in Hfiles. subst files. cbn [collect_walk collect_files].
  rewrite bind_run. unfold mret at 1, M_ret at 1, ret at 1. cbv beta iota.
  rewrite bind_run, IH. reflexivity.
Qed.

(** ** C9: a directory without regular files *)

(** C9. When the directory to upload holds no regular file (it may hold
    directories), [upload_directory_to_s3] returns normally: it performs no
    upload (the trace gains two log lines and nothing else, the second one
    the warning [No files to upload]), and it leaves the store and the file
    system as they were. *)
Theorem upload_directory_to_s3_empty :
  forall (w : world) (client : s3_client) (local_dir bucket pre : string)
         (max_workers : nat) (st : state) (es : list (string * node)),
    Fs.resolve (Path.abs_comps (cwd w) local_dir) (fs st) = Some (Dir es) ->
    count_files (Dir es) = 0 ->
    let r := upload_directory_to_s3 w client local_dir bucket pre max_workers st in
    fst r = Ok tt
    /\ s3 (snd r) = s3 st
    /\ fs (snd r) = fs st
    /\ trace (snd r)
       = trace st
         ++ [Log INFO ("Uploading " +:+ local_dir +:+ " to s3://" +:+ bucket +:+ "/"
                       +:+ normalize_prefix pre);
             Log WARNING "No files to upload"].
Proof.
  intros w client local_dir bucket pre max_workers st es Hdir Hcount r. subst r.
  unfold upload_directory_to_s3, files_to_upload, os_walk.
  unfold_M. cbv beta iota zeta. cbn [fs].
  assert (Hw : Forall (fun t => snd t = [])
                 match Fs.stat (fs st) (cwd w) local_dir with
                 | Some n => Fs.walk local_dir n
                 | None => []
                 end).
  { destruct (Fs.stat (fs st) (cwd w) local_dir) as [n|] eqn:E; [|constructor].
    destruct (stat_resolve _ _ _ _ E) as [_ Hr]. rewrite Hdir in Hr.
    injection Hr as <-. apply walk_no_files, Hcount. }
  rewrite (collect_walk_no_files _ _ _ _ _ Hw).
  cbn [fst snd fs s3 trace]. rewrite <- ?app_assoc. repeat split.
Qed.

(** An empty repository: two warnings, and the run succeeds. *)
Example main_empty_repository_ex :
  let r := main Examples.empty_repo_world Examples.fresh_state in
  exit_status (fst r) = 0%Z
  /\ List.filter (fun e => match e with Log WARNING _ => true | _ => false end)
       (trace (snd r))
     = [Log WARNING ("Download directory is empty - model repo may be empty or "
                     +:+ "download may have failed silently");
        Log WARNING "No files to upload"]
  /\ upload_events (trace (snd r)) = [].
Proof. vm_compute. auto. Qed.

Lemma upload_directory_to_s3_empty_witness :
  let st := {| fs := Dir [("tmp", Dir [("d", Dir [("sub", Dir [])])])];
               s3 := {["test-bucket" := ∅]};
               var_download_dir := None;
               trace := [] |} in
  let r := upload_directory_to_s3 Examples.test_world {| endpoint_url := "e" |}
             "/tmp/d" "test-bucket" "models/gpt2/" 10 st in
  fst r = Ok tt /\ s3 (snd r) = s3 st /\ fs (snd r) = fs st.
Proof.
  intros st r.
  destruct (upload_directory_to_s3_empty Examples.test_world {| endpoint_url := "e" |}
              "/tmp/d" "test-bucket" "models/gpt2/" 10 st [("sub", Dir [])])
    as (H1 & H2 & H3 & _).
  - vm_compute. reflexivity.
  - vm_compute. reflexivity.
  - split; [exact H1|]. split; [exact H2|exact H3].
Defined.

(** The empty path and a path that leads nowhere: [os.walk] yields nothing,
    whatever the working directory holds, and nothing is uploaded. *)
Example upload_directory_to_s3_nowhere_ex :
  let st := {| fs := Dir [("tmp", Dir []); ("app", Dir Examples.two_files)];
               s3 := {["test-bucket" := ∅]};
               var_download_dir := None;
               trace := [] |} in
  let up d := upload_directory_to_s3 Examples.test_world {| endpoint_url := "e" |}
                d "test-bucket" "models/gpt2/" 10 st in
  (fst (up ""), last (trace (snd (up ""))), s3 (snd (up "")) !! "test-bucket")
  = (Ok tt, Some (Log WARNING "No files to upload"), Some ∅)
  /\ (fst (up "/nonexistent/../app"), last (trace (snd (up "/nonexistent/../app"))))
     = (Ok tt, Some (Log WARNING "No files to upload"))
  /\ upload_events (trace (snd (up "."))) <> [].
Proof. vm_compute. repeat split. discriminate. Qed.

(** ** C3: a failed upload fails the whole upload *)

Lemma same_view_refl bucket st : same_view bucket st st.
Proof. split; reflexivity. Qed.

Lemma same_view_trans bucket st1 st2 st3 :
  same_view bucket st1 st2 -> same_view bucket st2 st3 -> same_view bucket st1 st3.
Proof.
  intros [Hf1 Hb1] [Hf2 Hb2]. split; [congruence|].
  rewrite Hb1. exact Hb2.
Qed.

Lemma same_view_emit bucket st e : same_view bucket st (snd (emit e st)).
Proof. split; reflexivity. Qed.

Lemma upload_file_run w p bucket k st :
  upload_file w p bucket k st
  = let st1 := snd (emit (EvUploadFile p bucket k) st) in
    match upload_fault w k with
    | Some e => (Raise e, st1)
    | None =>
        match Fs.stat (fs st) (cwd w) p with
        | Some (File content) =>
            match s3 st !! bucket with
            | Some objs =>
                (Ok tt, snd (set_s3 (<[bucket := <[k := content]> objs]> (s3 st)) st1))
            | None =>
                (Raise (OtherException "S3UploadFailedError" "NoSuchBucket"), st1)
            end
        | _ => (Raise (OSError ("cannot read " +:+ p)), st1)
        end
    end.
Proof.
  unfold upload_file. unfold_M.
  destruct (upload_fault w k); simpl; [reflexivity|].
  destruct (Fs.stat (fs st) (cwd w) p) as [[content|es]|];
    simpl; try reflexivity.
  destruct (s3 st !! bucket); reflexivity.
Qed.

Lemma getsize_run w p st :
  getsize w p st
  = (match Fs.stat (fs st) (cwd w) p with
     | Some (File content) => Ok (Py.len content)
     | Some (Dir _) => Ok 0
     | None => Raise (OSError ("cannot stat " +:+ p))
     end, st).
Proof.
  unfold getsize. unfold_M.
  destruct (Fs.stat (fs st) (cwd w) p) as [[content|es]|];
    reflexivity.
Qed.

Lemma run_task_result w client bucket t st st' :
  same_view bucket st st' ->
  fst (run_task w client bucket t st) = fst (run_task w client bucket t st').
Proof.
  intros [Hf Hb]. destruct t as [[p k] rel].
  unfold run_task, upload_file_to_s3. cbn [fst snd].
  rewrite !bind_run, !upload_file_run. cbv zeta. rewrite <- Hf.
  destruct (upload_fault w k); [reflexivity|].
  destruct (Fs.stat (fs st) (cwd w) p)
    as [[content|es]|] eqn:Hres; try reflexivity.
  destruct (s3 st !! bucket) as [objs|] eqn:H1,
           (s3 st' !! bucket) as [objs'|] eqn:H2.
  - rewrite !getsize_run. simpl. rewrite <- Hf. reflexivity.
  - destruct Hb as [_ Hb]. specialize (Hb eq_refl). discriminate Hb.
  - destruct Hb as [Hb _]. specialize (Hb eq_refl). discriminate Hb.
  - reflexivity.
Qed.

Lemma run_task_view w client bucket t st :
  same_view bucket st (snd (run_task w client bucket t st)).
Proof.
  destruct t as [[p k] rel].
  unfold run_task, upload_file_to_s3. cbn [fst snd].
  rewrite bind_run, upload_file_run. cbv zeta.
  destruct (upload_fault w k); [split; reflexivity|].
  destruct (Fs.stat (fs st) (cwd w) p)
    as [[content|es]|] eqn:Hres; try (split; reflexivity).
  destruct (s3 st !! bucket) as [objs|] eqn:H1; [|split; reflexivity].
  rewrite getsize_run. split; [reflexivity|]. simpl.
  rewrite H1, lookup_insert_eq. split; discriminate.
Qed.

Lemma drain_returns w client bucket pending st :
  fst (drain w client bucket pending st) = Ok tt.
Proof.
  revert st. induction pending as [|[[p k] rel] pending IH]; intros st;
    [reflexivity|].
  cbn [drain]. rewrite bind_run. unfold try_except. rewrite bind_run.
  destruct (upload_file_to_s3 w client p bucket k st) as [[n|e] st'];
    cbv beta iota; unfold mret, M_ret, ret; apply IH.
Qed.

(** One turn of the loop over the completed futures. *)
Lemma as_completed_loop_step w client bucket (t : task) completed total count st :
  as_completed_loop w client bucket (t :: completed) total count st
  = match run_task w client bucket t st with
    | (Ok file_size, st') =>
        as_completed_loop w client bucket completed
          (total + file_size) (count + 1)
          (snd (tqdm_write ("  Uploaded: " +:+ snd t +:+ " -> " +:+ snd (fst t)) st'))
    | (Raise e, st') =>
        (Raise e,
         snd (drain w client bucket completed
                (if is_Exception e
                 then snd (log ERROR ("Failed to upload " +:+ snd t +:+ ": "
                                      +:+ exn_str e) st')
                 else st')))
    end.
Proof.
  destruct t as [[p k] rel]. cbn [as_completed_loop fst snd].
  unfold run_task. cbn [fst snd]. unfold_M.
  destruct (upload_file_to_s3 w client p bucket k st) as [[n|e] st']; simpl;
    [reflexivity|].
  pose proof (drain_returns w client bucket completed) as Hd.
  destruct (is_Exception e); simpl;
    match goal with
    | |- context [drain w client bucket completed ?s] =>
        specialize (Hd s);
        destruct (drain w client bucket completed s) as [[u|e'] s']
    end; simpl in *; first [reflexivity|discriminate Hd].
Qed.

(** What is in the trace stays there. *)
Lemma drain_keeps_event w client bucket pending (ev : event) (st : state) :
  In ev (trace st) -> In ev (trace (snd (drain w client bucket pending st))).
Proof.
  apply (inv_drain (fun s => In ev (trace s))).
  - intros s e _ H. cbn. apply in_or_app. left. exact H.
  - intros s m H. exact H.
Qed.

(** If some completed task raises, the loop raises what a task raised, after
    the line [Failed to upload] for it when it is an [Exception]. *)
Lemma as_completed_loop_raises w client bucket st1 completed :
  forall total count st,
    same_view bucket st1 st ->
    (exists t e, In t completed /\ fst (run_task w client bucket t st1) = Raise e) ->
    exists t e,
      In t completed
      /\ fst (run_task w client bucket t st1) = Raise e
      /\ fst (as_completed_loop w client bucket completed total count st) = Raise e
      /\ (is_Exception e = true ->
          In (Log ERROR ("Failed to upload " +:+ snd t +:+ ": " +:+ exn_str e))
             (trace (snd (as_completed_loop w client bucket completed total count
                            st)))).
Proof.
  induction completed as [|t0 completed IH]; intros total count st Hview
    (t & e & Hin & Hfail); [destruct Hin|].
  rewrite as_completed_loop_step.
  pose proof (run_task_result w client bucket t0 st1 st Hview) as Hsame.
  pose proof (run_task_view w client bucket t0 st) as Hnext.
  destruct (run_task w client bucket t0 st) as [[n|e0] st'] eqn:Hrun;
    cbn [fst snd] in *.
  - destruct Hin as [->|Hin]; [congruence|].
    destruct (IH (total + n) (count + 1)
                (snd (tqdm_write ("  Uploaded: " +:+ snd t0 +:+ " -> "
                                      +:+ snd (fst t0)) st')))
      as (t' & e' & Hin' & Hfail' & Hloop & Hlog).
    + eapply same_view_trans; [exact Hview|].
      eapply same_view_trans; [exact Hnext|apply same_view_emit].
    + exists t, e. split; assumption.
    + exists t', e'. split; [right; exact Hin'|]. repeat split; assumption.
  - exists t0, e0. split; [left; reflexivity|]. split; [exact Hsame|].
    split; [reflexivity|]. intros He. rewrite He.
    apply drain_keeps_event. cbn. apply in_or_app. right. left. reflexivity.
Qed.

Lemma collect_files_run w local_dir pre root files :
  exists r, forall st, collect_files w local_dir pre root files st = (r, st).
Proof.
  induction files as [|f files [r IH]]; [exists (Ok []); reflexivity|].
  cbn [collect_files]. destruct (Path.relpath _ _ _) as [rel|e].
  - destruct r as [rest|e].
    + eexists. intros st. rewrite bind_run, IH. reflexivity.
    + exists (Raise e). intros st. rewrite bind_run, IH. reflexivity.
  - exists (Raise e). reflexivity.
Qed.

Lemma collect_walk_run w local_dir pre triples :
  exists r, forall st, collect_walk w local_dir pre triples st = (r, st).
Proof.
  induction triples as [|[[root ds] files] triples [r IH]];
    [exists (Ok []); reflexivity|].
  cbn [collect_walk].
  destruct (collect_files_run w local_dir pre root files) as [[here|e] Hh].
  - destruct r as [rest|e].
    + eexists. intros st. rewrite bind_run, Hh, bind_run, IH. reflexivity.
    + exists (Raise e). intros st. rewrite bind_run, Hh, bind_run, IH. reflexivity.
  - exists (Raise e). intros st. rewrite bind_run, Hh. reflexivity.
Qed.

(** [files_to_upload] only reads the file system. *)
Lemma files_to_upload_run w local_dir pre st :
  exists r, forall st', fs st' = fs st ->
                        files_to_upload w local_dir pre st' = (r, st').
Proof.
  unfold files_to_upload, os_walk.
  destruct (collect_walk_run w local_dir (normalize_prefix pre)
              match Fs.stat (fs st) (cwd w) local_dir with
              | Some n => Fs.walk local_dir n
              | None => []
              end) as [r Hr].
  exists r. intros st' Hfs. unfold_M. cbv beta iota. rewrite Hfs. apply Hr.
Qed.

(** C3. Take an invocation of [upload_directory_to_s3] and the list of tasks
    it builds.  If the upload of one of these tasks raises, then the
    invocation raises, it does not return.  With at least one worker, for
    every completion order of the worker pool, what the invocation raises is
    the exception of a task of the list whose upload raised, and when that is
    an [Exception] the line [Failed to upload] for this task and this
    exception is in the log.  Without a worker the pool cannot be made: the
    invocation raises the [ValueError] of [ThreadPoolExecutor]. *)
Theorem upload_directory_to_s3_propagates_failure :
  forall (w : world) (client : s3_client) (local_dir bucket pre : string)
         (max_workers : nat) (st : state) (files : list task) (t : task) (e : exn),
    fst (files_to_upload w local_dir pre st) = Ok files ->
    In t files ->
    fst (run_task w client bucket t st) = Raise e ->
    let r := upload_directory_to_s3 w client local_dir bucket pre max_workers st in
    (max_workers = 0 ->
     fst r = Raise (ValueError "max_workers must be greater than 0"))
    /\ (0 < max_workers ->
        exists t' e',
          In t' files
          /\ fst (run_task w client bucket t' st) = Raise e'
          /\ fst r = Raise e'
          /\ (is_Exception e' = true ->
              In (Log ERROR ("Failed to upload " +:+ snd t' +:+ ": " +:+ exn_str e'))
                 (trace (snd r)))).
Proof.
  intros w client local_dir bucket pre max_workers st files t e Hfiles Hin Hfail r.
  assert (Er : r = upload_directory_to_s3 w client local_dir bucket pre
                     max_workers st) by reflexivity.
  clearbody r.
  destruct (files_to_upload_run w local_dir pre st) as [r0 Hr].
  rewrite (Hr st eq_refl) in Hfiles. cbn [fst] in Hfiles. subst r0.
  unfold upload_directory_to_s3 in Er. cbv zeta in Er.
  rewrite bind_run in Er. unfold log at 1, emit at 1 in Er. cbv beta iota in Er.
  rewrite bind_run, Hr in Er by reflexivity.
  destruct files as [|t1 files]; [destruct Hin|].
  set (fl := t1 :: files) in *.
  rewrite bind_run in Er. unfold log at 1, emit at 1 in Er. cbv beta iota in Er.
  rewrite bind_run in Er. unfold thread_pool_executor in Er.
  destruct max_workers as [|k]; cbn [Nat.eqb] in Er.
  { unfold raise in Er. subst r. split; [intros _; reflexivity|intros Hk; lia]. }
  split; [discriminate|intros _].
  unfold mret at 1, M_ret at 1, ret at 1 in Er. cbv beta iota in Er.
  rewrite bind_run in Er.
  match type of Er with
  | context [as_completed_loop w client bucket _ 0 0 ?s] =>
      destruct (as_completed_loop_raises w client bucket st
                  (completion (pool w) fl) 0 0 s)
        as (t' & e' & Hin' & Hfail' & Hloop & Hlog)
  end.
  - split; reflexivity.
  - exists t, e. split; [|exact Hfail].
    apply (Permutation_in t (Permutation_sym (completion_perm (pool w) fl))), Hin.
  - exists t', e'. split.
    + apply (Permutation_in t' (completion_perm (pool w) fl)), Hin'.
    + split; [exact Hfail'|].
      match type of Er with
      | context [as_completed_loop w client bucket ?c 0 0 ?s] =>
          destruct (as_completed_loop w client bucket c 0 0 s) as [[acc|e''] s']
      end; cbn [fst snd] in *; [discriminate Hloop|].
      injection Hloop as ->. subst r. split; [reflexivity|exact Hlog].
Qed.

Lemma upload_directory_to_s3_propagates_failure_witness :
  let w := Examples.failing_upload_world in
  let client := {| endpoint_url := "https://objectstore.example.com" |} in
  let st := {| fs := Dir [("tmp", Dir [("d", Dir Examples.two_files)])];
               s3 := {["test-bucket" := ∅]};
               var_download_dir := None;
               trace := [] |} in
  fst (upload_directory_to_s3 w client "/tmp/d" "test-bucket" "models/gpt2" 0 st)
  = Raise (ValueError "max_workers must be greater than 0")
  /\ exists t' e',
       fst (run_task w client "test-bucket" t' st) = Raise e'
       /\ fst (upload_directory_to_s3 w client "/tmp/d" "test-bucket" "models/gpt2"
                 10 st)
          = Raise e'.
Proof.
  intros w client st.
  assert (H : forall max_workers,
    (max_workers = 0 ->
     fst (upload_directory_to_s3 w client "/tmp/d" "test-bucket" "models/gpt2"
            max_workers st)
     = Raise (ValueError "max_workers must be greater than 0"))
    /\ (0 < max_workers ->
        exists t' e',
          In t' [("/tmp/d/c.txt", "models/gpt2/c.txt", "c.txt");
                 ("/tmp/d/a/b.txt", "models/gpt2/a/b.txt", "a/b.txt")]
          /\ fst (run_task w client "test-bucket" t' st) = Raise e'
          /\ fst (upload_directory_to_s3 w client "/tmp/d" "test-bucket"
                    "models/gpt2" max_workers st) = Raise e'
          /\ (is_Exception e' = true ->
              In (Log ERROR ("Failed to upload " +:+ snd t' +:+ ": " +:+ exn_str e'))
                 (trace (snd (upload_directory_to_s3 w client "/tmp/d" "test-bucket"
                                "models/gpt2" max_workers st)))))).
  { intros max_workers.
    apply (upload_directory_to_s3_propagates_failure w client "/tmp/d"
             "test-bucket" "models/gpt2" max_workers st
             [("/tmp/d/c.txt", "models/gpt2/c.txt", "c.txt");
              ("/tmp/d/a/b.txt", "models/gpt2/a/b.txt", "a/b.txt")]
             ("/tmp/d/c.txt", "models/gpt2/c.txt", "c.txt")
             (OtherException "S3UploadFailedError" "connection reset")).
    - vm_compute. reflexivity.
    - left. reflexivity.
    - vm_compute. reflexivity. }
  split; [apply (H 0); reflexivity|].
  destruct (proj2 (H 10)) as (t' & e' & _ & H1 & H2 & _); [lia|].
  exists t', e'. split; assumption.
Defined.

(** The failed upload of [c.txt], completed last: [a/b.txt] is in the store,
    and the invocation raises. *)
Example upload_directory_to_s3_failure_ex :
  let st := {| fs := Dir [("tmp", Dir [("d", Dir Examples.two_files)])];
               s3 := {["test-bucket" := ∅]};
               var_download_dir := None;
               trace := [] |} in
  let r := upload_directory_to_s3 Examples.failing_upload_world
             {| endpoint_url := "https://objectstore.example.com" |}
             "/tmp/d" "test-bucket" "models/gpt2" 10 st in
  fst r = Raise (OtherException "S3UploadFailedError" "connection reset")
  /\ s3 (snd r) !! "test-bucket" = Some {["models/gpt2/a/b.txt" := "bbb"]}.
Proof. vm_compute. auto. Qed.

(** Without a worker nothing is uploaded: the pool cannot be made.  With no
    file to upload the pool is not made, and the invocation returns. *)
Example upload_directory_to_s3_no_worker_ex :
  let st es := {| fs := Dir [("tmp", Dir [("d", Dir es)])];
                  s3 := {["test-bucket" := ∅]};
                  var_download_dir := None;
                  trace := [] |} in
  let up es := upload_directory_to_s3 Examples.test_world {| endpoint_url := "e" |}
                 "/tmp/d" "test-bucket" "models/gpt2" 0 (st es) in
  fst (up Examples.two_files) = Raise (ValueError "max_workers must be greater than 0")
  /\ upload_events (trace (snd (up Examples.two_files))) = []
  /\ s3 (snd (up Examples.two_files)) !! "test-bucket" = Some ∅
  /\ fst (up []) = Ok tt.
Proof. vm_compute. repeat split. Qed.

(** *** The tasks of a tree *)

Lemma files_below_Dir (es : list (string * node)) :
  files_below (Dir es)
  = map (fun f => [f]) (Fs.files_of es)
    ++ flat_map (fun e => map (cons (fst e)) (files_below (snd e))) es.
Proof.
  simpl. f_equal. induction es as [|[k v] es IH]; [reflexivity|].
  simpl. rewrite IH. reflexivity.
Qed.

Lemma wf_node_Dir (es : list (string * node)) :
  wf_node (Dir es) = true ->
  Forall (fun e => valid_name (fst e) = true /\ wf_node (snd e) = true) es.
Proof.
  simpl. induction es as [|[k v] es IH]; intros H; [constructor|].
  apply andb_prop in H as [H H3]. apply andb_prop in H as [H1 H2].
  constructor; [split; assumption|apply IH, H3].
Qed.

Section Tasks.

Variable w : world.
Variable local_dir pre : string.
Hypothesis cwd_abs : Path.isabs (cwd w) = true.

Lemma join_snoc (p : string) (ds : list string) (name : string) :
  Path.join2 (Path.join p ds) name = Path.join p (ds ++ [name]).
Proof. unfold Path.join. rewrite fold_left_app. reflexivity. Qed.

Lemma collect_files_below (ds files : list string) (st : state) :
  Forall (fun n => valid_name n = true) ds ->
  Forall (fun n => valid_name n = true) files ->
  collect_files w local_dir pre (Path.join local_dir ds) files st
  = (Ok (map (fun f => task_of local_dir pre (ds ++ [f])) files), st).
Proof.
  intros Hds Hfiles. induction Hfiles as [|f files Hf _ IH]; [reflexivity|].
  cbn [collect_files]. rewrite join_snoc.
  rewrite relpath_below;
    [|exact cwd_abs|destruct ds; discriminate
     |apply Forall_app; split; [exact Hds|repeat constructor; exact Hf]].
  rewrite bind_run, IH. reflexivity.
Qed.

Lemma collect_walk_app (l1 l2 : list (string * list string * list string))
    (a b : list task) (st : state) :
  collect_walk w local_dir pre l1 st = (Ok a, st) ->
  collect_walk w local_dir pre l2 st = (Ok b, st) ->
  collect_walk w local_dir pre (l1 ++ l2) st = (Ok (a ++ b), st).
Proof.
  revert a. induction l1 as [|[[root ds] files] l1 IH]; intros a H1 H2.
  - injection H1 as <-. exact H2.
  - cbn [app collect_walk] in *.
    destruct (collect_files_run w local_dir pre root files) as [r Hr].
    rewrite bind_run, Hr in *.
    destruct r as [here|e]; [|discriminate H1].
    destruct (collect_walk_run w local_dir pre l1) as [r' Hr'].
    rewrite bind_run, Hr' in H1.
    destruct r' as [rest|e]; [|discriminate H1].
    injection H1 as <-.
    rewrite bind_run, (IH rest (Hr' st) H2), <- app_assoc. reflexivity.
Qed.

(** What [collect_walk] makes of the walk of a tree that hangs at the names
    [ds] below [local_dir]. *)
Lemma collect_walk_below (n : node) (st : state) :
  wf_node n = true ->
  forall ds,
    Forall (fun x => valid_name x = true) ds ->
    collect_walk w local_dir pre (Fs.walk (Path.join local_dir ds) n) st
    = (Ok (map (fun cs => task_of local_dir pre (ds ++ cs)) (files_below n)), st).
Proof.
  induction n as [content|es IH] using node_induction; intros Hwf ds Hds;
    [reflexivity|].
  pose proof (wf_node_Dir es Hwf) as Hes.
  rewrite walk_Dir, files_below_Dir. cbn [collect_walk].
  assert (Hfiles : Forall (fun x => valid_name x = true) (Fs.files_of es)).
  { clear IH Hwf. unfold Fs.files_of.
    induction Hes as [|[k v] es [Hk _] _ IHes]; [constructor|].
    simpl. destruct v; simpl; [constructor; assumption|assumption]. }
  rewrite bind_run, (collect_files_below ds _ st Hds Hfiles).
  assert (Hrest :
    collect_walk w local_dir pre (Fs.walk_entries (Path.join local_dir ds) es) st
    = (Ok (map (fun cs => task_of local_dir pre (ds ++ cs))
             (flat_map (fun e => map (cons (fst e)) (files_below (snd e))) es)),
       st)).
  { clear Hfiles Hwf. unfold Fs.walk_entries. revert IH Hes.
    induction es as [|[k v] es IHes]; intros IH Hes; [reflexivity|].
    inversion IH as [|? ? Hv IH']; subst.
    inversion Hes as [|? ? [Hk Hwfv] Hes']; subst. simpl in *.
    rewrite map_app. apply collect_walk_app; [|apply IHes; assumption].
    rewrite join_snoc, (Hv Hwfv (ds ++ [k])).
    - rewrite map_map. do 2 f_equal. apply map_ext. intros cs.
      rewrite <- app_assoc. reflexivity.
    - apply Forall_app. split; [exact Hds|repeat constructor; exact Hk]. }
  rewrite bind_run, Hrest. unfold mret, M_ret, ret.
  rewrite map_app, map_map. reflexivity.
Qed.

End Tasks.

(** *** Every task is uploaded, to its key *)

Lemma upload_events_app (t1 t2 : list event) :
  upload_events (t1 ++ t2) = upload_events t1 ++ upload_events t2.
Proof. unfold upload_events. apply List.filter_app. Qed.

Lemma run_task_events w client bucket t st :
  upload_events (trace (snd (run_task w client bucket t st)))
  = upload_events (trace st) ++ [upload_event_of bucket t].
Proof.
  destruct t as [[p k] rel].
  unfold run_task, upload_file_to_s3, upload_event_of. cbn [fst snd].
  rewrite bind_run, upload_file_run. cbv zeta.
  destruct (upload_fault w k); [simpl; apply upload_events_app|].
  destruct (Fs.stat (fs st) (cwd w) p) as [[content|es]|];
    try (simpl; apply upload_events_app).
  destruct (s3 st !! bucket); [|simpl; apply upload_events_app].
  rewrite getsize_run. simpl. apply upload_events_app.
Qed.

Lemma drain_events w client bucket pending st :
  upload_events (trace (snd (drain w client bucket pending st)))
  = upload_events (trace st) ++ map (upload_event_of bucket) pending.
Proof.
  revert st. induction pending as [|t pending IH]; intros st;
    [simpl; rewrite app_nil_r; reflexivity|].
  pose proof (run_task_events w client bucket t st) as Ht.
  destruct t as [[p k] rel]. cbn [drain]. rewrite bind_run.
  unfold try_except. rewrite bind_run.
  unfold run_task in Ht. cbn [fst snd] in Ht.
  destruct (upload_file_to_s3 w client p bucket k st) as [[n|e] st'];
    cbv beta iota; unfold mret, M_ret, ret; cbn [snd] in Ht;
    rewrite IH, Ht, <- app_assoc; reflexivity.
Qed.

Lemma as_completed_loop_events w client bucket completed total count st :
  upload_events (trace (snd (as_completed_loop w client bucket completed
                               total count st)))
  = upload_events (trace st) ++ map (upload_event_of bucket) completed.
Proof.
  revert total count st.
  induction completed as [|t completed IH]; intros total count st;
    [simpl; rewrite app_nil_r; reflexivity|].
  rewrite as_completed_loop_step.
  pose proof (run_task_events w client bucket t st) as Ht.
  destruct (run_task w client bucket t st) as [[n|e] st']; cbn [snd] in *.
  - rewrite IH. simpl. rewrite upload_events_app, Ht. simpl.
    rewrite app_nil_r, <- app_assoc. reflexivity.
  - rewrite drain_events.
    destruct (is_Exception e); simpl;
      rewrite ?upload_events_app, Ht; simpl;
      rewrite ?app_nil_r, <- app_assoc; reflexivity.
Qed.

Lemma upload_directory_to_s3_events w client local_dir bucket pre n st files :
  0 < n ->
  fst (files_to_upload w local_dir pre st) = Ok files ->
  upload_events (trace (snd (upload_directory_to_s3 w client local_dir bucket pre n st)))
  = upload_events (trace st)
    ++ map (upload_event_of bucket) (completion (pool w) files).
Proof.
  intros Hn Hfiles.
  destruct (files_to_upload_run w local_dir pre st) as [r Hr].
  rewrite (Hr st eq_refl) in Hfiles. cbn [fst] in Hfiles. subst r.
  unfold upload_directory_to_s3. cbv zeta.
  rewrite bind_run. unfold log at 1, emit at 1. cbv beta iota.
  rewrite bind_run, Hr by reflexivity.
  destruct files as [|t1 files].
  - simpl. rewrite !upload_events_app. simpl. rewrite !app_nil_r.
    pose proof (Permutation_nil (Permutation_sym (completion_perm (pool w) []))) as ->.
    simpl. rewrite app_nil_r. reflexivity.
  - set (fl := t1 :: files).
    rewrite bind_run. unfold log at 1, emit at 1. cbv beta iota.
    rewrite bind_run. unfold thread_pool_executor.
    destruct n as [|k]; [lia|]. cbn [Nat.eqb].
    unfold mret at 1, M_ret at 1, ret at 1. cbv beta iota.
    rewrite bind_run.
    match goal with
    | |- context [as_completed_loop w client bucket ?c 0 0 ?s] =>
        pose proof (as_completed_loop_events w client bucket c 0 0 s) as He;
        destruct (as_completed_loop w client bucket c 0 0 s) as [[acc|e] s']
    end; cbn [snd] in *.
    + simpl. rewrite upload_events_app, He. simpl.
      rewrite !upload_events_app. simpl. rewrite !app_nil_r. reflexivity.
    + rewrite He. simpl.
      rewrite !upload_events_app. simpl. rewrite !app_nil_r. reflexivity.
Qed.

(** ** C7: the keys of the uploaded files *)

Lemma normalize_prefix_endswith (pre : string) :
  Py.endswith "/" (normalize_prefix pre) = true.
Proof.
  unfold normalize_prefix. destruct (Py.endswith "/" pre) eqn:He; simpl;
    [exact He|apply endswith_append].
Qed.

Lemma normalize_prefix_slash (pre : string) :
  Py.endswith "/" pre = false ->
  normalize_prefix (pre +:+ "/") = normalize_prefix pre.
Proof.
  intros He. unfold normalize_prefix. rewrite He, endswith_append. reflexivity.
Qed.

(** C7. Let [local_dir] lead to a directory whose tree holds names a directory
    can hold, in a process with an absolute working directory, and let
    there be at least one worker.  The tasks
    [upload_directory_to_s3] builds are, for each regular file at the names
    [cs] below [local_dir] and in the order of [os.walk]: the local path
    [local_dir/cs], the key made of the normalized prefix followed by the names
    [cs] with slashes between them, and that relative path.  The normalized
    prefix ends with a slash.  Every task is uploaded once, to its key, in the
    bucket.  A prefix without final slash and the same prefix with one give
    the same run.  The tree with [a/b.txt] and [c.txt] under [p/] leaves
    exactly the keys [p/a/b.txt] and [p/c.txt] in the store, with the content
    of the files; [models/test] and [models/test/] leave the same store. *)
Theorem upload_keys_are_prefix_and_relative_path :
  (forall (w : world) (client : s3_client) (local_dir bucket pre : string)
          (max_workers : nat) (st : state) (es : list (string * node)),
     Path.isabs (cwd w) = true ->
     Fs.stat (fs st) (cwd w) local_dir = Some (Dir es) ->
     wf_node (Dir es) = true ->
     0 < max_workers ->
     let tasks := map (task_of local_dir (normalize_prefix pre)) (files_below (Dir es)) in
     files_to_upload w local_dir pre st = (Ok tasks, st)
     /\ Py.endswith "/" (normalize_prefix pre) = true
     /\ upload_events
          (trace (snd (upload_directory_to_s3 w client local_dir bucket pre
                         max_workers st)))
        = upload_events (trace st)
          ++ map (upload_event_of bucket) (completion (pool w) tasks))
  /\ (forall (w : world) (client : s3_client) (local_dir bucket pre : string)
             (max_workers : nat) (st : state),
        Py.endswith "/" pre = false ->
        upload_directory_to_s3 w client local_dir bucket (pre +:+ "/") max_workers st
        = upload_directory_to_s3 w client local_dir bucket pre max_workers st)
  /\ (let st := {| fs := Dir [("tmp", Dir [("d", Dir Examples.two_files)])];
                   s3 := {["b" := ∅]};
                   var_download_dir := None;
                   trace := [] |} in
      let client := {| endpoint_url := "https://objectstore.example.com" |} in
      let up pre := upload_directory_to_s3 Examples.test_world client "/tmp/d" "b"
                      pre 10 st in
      fst (up "p/") = Ok tt
      /\ s3 (snd (up "p/")) !! "b"
         = Some (list_to_map [("p/a/b.txt", "bbb"); ("p/c.txt", "cc")])
      /\ s3 (snd (up "models/test")) = s3 (snd (up "models/test/"))
      /\ s3 (snd (up "models/test")) !! "b"
         = Some (list_to_map [("models/test/a/b.txt", "bbb");
                              ("models/test/c.txt", "cc")])).
Proof.
  split; [|split].
  - intros w client local_dir bucket pre max_workers st es Hcwd Hdir Hwf Hmw tasks.
    assert (Hfiles : files_to_upload w local_dir pre st = (Ok tasks, st)).
    { unfold files_to_upload, os_walk. unfold_M. cbv beta iota. rewrite Hdir.
      change (Fs.walk local_dir (Dir es))
        with (Fs.walk (Path.join local_dir []) (Dir es)).
      rewrite (collect_walk_below w local_dir (normalize_prefix pre) Hcwd
                 (Dir es) st Hwf [] (List.Forall_nil _)).
      reflexivity. }
    split; [exact Hfiles|]. split; [apply normalize_prefix_endswith|].
    apply upload_directory_to_s3_events; [exact Hmw|]. rewrite Hfiles. reflexivity.
  - intros w client local_dir bucket pre max_workers st He.
    unfold upload_directory_to_s3, files_to_upload.
    rewrite (normalize_prefix_slash pre He). reflexivity.
  - vm_compute. repeat split.
Qed.

Lemma upload_keys_are_prefix_and_relative_path_witness :
  let st := {| fs := Dir [("tmp", Dir [("d", Dir Examples.two_files)])];
               s3 := {["b" := ∅]};
               var_download_dir := None;
               trace := [] |} in
  files_to_upload Examples.test_world "/tmp/d" "p" st
  = (Ok [("/tmp/d/c.txt", "p/c.txt", "c.txt");
         ("/tmp/d/a/b.txt", "p/a/b.txt", "a/b.txt")], st)
  /\ upload_directory_to_s3 Examples.test_world {| endpoint_url := "e" |}
       "/tmp/d" "b" ("p" +:+ "/") 10 st
     = upload_directory_to_s3 Examples.test_world {| endpoint_url := "e" |}
         "/tmp/d" "b" "p" 10 st.
Proof.
  intros st. split.
  - destruct (proj1 upload_keys_are_prefix_and_relative_path Examples.test_world
                {| endpoint_url := "e" |} "/tmp/d" "b" "p" 10 st Examples.two_files)
      as (H & _).
    + vm_compute. reflexivity.
    + vm_compute. reflexivity.
    + vm_compute. reflexivity.
    + lia.
    + exact H.
  - apply (proj1 (proj2 upload_keys_are_prefix_and_relative_path)).
    vm_compute. reflexivity.
Defined.

(** * Further properties *)

(** ** A run with a bad environment *)

(** X3. When a required variable is missing or empty, or an input is
    refused, [main] ends by [SystemExit(1)] having only written log lines: no
    client is made, no request is sent to the store or to the hub, no
    directory is created, and the store and the file system are as they
    were. *)
Theorem main_bad_environment :
  forall (w : world) (st : state),
    env_valid w = false ->
    fst (main w st) = Raise (SystemExit 1)
    /\ exit_status (fst (main w st)) = 1%Z
    /\ fs (snd (main w st)) = fs st
    /\ s3 (snd (main w st)) = s3 st
    /\ exists logs, trace (snd (main w st)) = trace st ++ logs
                    /\ forallb is_log logs = true.
Proof.
  intros w st Hbad.
  pose proof (validate_environment_fst w (snd (main_start st))) as Hres.
  pose proof (inv_only_logged_validate_environment w _ _
                (only_logged_refl (snd (main_start st))))
    as (Hf & Hs & Hv & logs & Ht & Hl).
  rewrite Hbad in Hres.
  assert (Hmain : main w st
                  = (Raise (SystemExit 1),
                     snd (validate_environment w (snd (main_start st))))).
  { rewrite main_unfold. unfold try_finally, try_except, main_body.
    rewrite bind_run.
    destruct (validate_environment w (snd (main_start st))) as [[cfg|e] st1];
      cbn [fst snd] in *; [discriminate Hres|]. injection Hres as ->.
    cbn [main_handlers is_ClientError is_HfHubHTTPError is_OSError is_Exception].
    unfold main_finally. rewrite bind_run. unfold get. cbv beta iota.
    rewrite Hv. reflexivity. }
  rewrite Hmain. cbn [fst snd].
  split; [reflexivity|]. split; [reflexivity|].
  split; [rewrite Hf; reflexivity|]. split; [rewrite Hs; reflexivity|].
  eexists. rewrite Ht. unfold main_start, banner. unfold_M. simpl.
  rewrite <- !app_assoc. simpl. split; [reflexivity|]. simpl. exact Hl.
Qed.

Lemma main_bad_environment_witness :
  exit_status (fst (main empty_env_world Examples.fresh_state)) = 1%Z
  /\ s3 (snd (main empty_env_world Examples.fresh_state)) = s3 Examples.fresh_state.
Proof.
  destruct (main_bad_environment empty_env_world Examples.fresh_state)
    as (_ & H1 & _ & H2 & _); [vm_compute; reflexivity|].
  split; assumption.
Defined.

(** ** What the program can raise *)

Lemma raises_ret {A} (P : exn -> Prop) (a : A) : raises P (mret a).
Proof. intros st. exact I. Qed.

Lemma raises_raise {A} (P : exn -> Prop) (e : exn) : P e -> raises P (@raise A e).
Proof. intros H st. exact H. Qed.

Lemma raises_emit (P : exn -> Prop) (e : event) : raises P (emit e).
Proof. intros st. exact I. Qed.

Lemma raises_log (P : exn -> Prop) lv msg : raises P (log lv msg).
Proof. intros st. exact I. Qed.

Lemma raises_get (P : exn -> Prop) : raises P get.
Proof. intros st. exact I. Qed.

Lemma raises_set_fs (P : exn -> Prop) n : raises P (set_fs n).
Proof. intros st. exact I. Qed.

Lemma raises_set_s3 (P : exn -> Prop) m : raises P (set_s3 m).
Proof. intros st. exact I. Qed.

Lemma raises_bind {A B} (P : exn -> Prop) (m : M A) (k : A -> M B) :
  raises P m -> (forall a, raises P (k a)) -> raises P (m ≫= k).
Proof.
  intros Hm Hk st. specialize (Hm st). rewrite bind_run.
  destruct (m st) as [[a|e] st']; cbn [fst] in *; [apply Hk|exact Hm].
Qed.

Lemma raises_try_except {A} (P : exn -> Prop) (m : M A)
    (handler : exn -> option (M A)) :
  raises P m ->
  (forall e h, P e -> handler e = Some h -> raises P h) ->
  raises P (try_except m handler).
Proof.
  intros Hm Hh st. specialize (Hm st). unfold try_except.
  destruct (m st) as [[a|e] st']; cbn [fst] in *; [exact I|].
  destruct (handler e) as [h|] eqn:He; [apply (Hh e h Hm He)|exact Hm].
Qed.

Lemma failure_exception (e : exn) : is_Exception e = true -> failure e.
Proof. intros H. right. exact H. Qed.

Lemma raises_weaken {A} (P Q : exn -> Prop) (m : M A) :
  (forall e, P e -> Q e) -> raises P m -> raises Q m.
Proof.
  intros HPQ Hm st. specialize (Hm st). destruct (fst (m st)); [exact I|].
  apply HPQ, Hm.
Qed.

Ltac raises_step :=
  match goal with
  | |- raises _ (mbind _ _) => apply raises_bind; [|intros ?]
  | |- raises _ (mret _) => apply raises_ret
  | |- raises _ (log _ _) => apply raises_log
  | |- raises _ (tqdm_write _) => apply raises_emit
  | |- raises _ (emit _) => apply raises_emit
  | |- raises _ get => apply raises_get
  | |- raises _ (set_fs _) => apply raises_set_fs
  | |- raises _ (set_s3 _) => apply raises_set_s3
  | |- raises _ (sys_exit 1) => apply raises_raise; left; reflexivity
  | |- raises _ (raise _) =>
      apply raises_raise; apply failure_exception; first [reflexivity|eauto]
  | |- raises _ (if ?b then _ else _) => destruct b eqn:?
  | |- raises _ (match ?x with _ => _ end) => destruct x eqn:?
  | |- raises _ (let _ := _ in _) => cbv zeta
  end.

Section Raises.

Variable w : world.
Hypothesis faults : faults_are_errors w.

Lemma raises_banner lv msg : raises failure (banner lv msg).
Proof. unfold banner. repeat raises_step. Qed.

Lemma raises_validate_inputs m b p : raises failure (validate_inputs m b p).
Proof. unfold validate_inputs. repeat raises_step. Qed.

Lemma raises_required_env name : raises failure (required_env w name).
Proof. unfold required_env. repeat raises_step. Qed.

Lemma raises_validate_environment : raises failure (validate_environment w).
Proof.
  unfold validate_environment.
  repeat (apply raises_bind; [apply raises_required_env|intros ?]).
  cbv zeta. apply raises_bind; [|intros ?; repeat raises_step].
  apply raises_try_except; [apply raises_validate_inputs|].
  intros e h _ H. destruct (is_ValueError e); [injection H as <-|discriminate H].
  repeat raises_step.
Qed.

Lemma raises_create_s3_client a b c : raises failure (create_s3_client w a b c).
Proof.
  destruct faults as (Hc & _). unfold create_s3_client. repeat raises_step.
Qed.

Lemma raises_list_objects_v2 b p k : raises failure (list_objects_v2 w b p k).
Proof.
  destruct faults as (_ & Hl & _). unfold list_objects_v2. repeat raises_step.
Qed.

Lemma raises_model_exists_in_s3 client b p :
  raises failure (model_exists_in_s3 w client b p).
Proof.
  unfold model_exists_in_s3. apply raises_bind; [apply raises_log|intros _].
  apply raises_try_except.
  - apply raises_bind; [apply raises_list_objects_v2|intros ?].
    repeat raises_step.
  - intros e h He H. destruct (is_ClientError e); [injection H as <-|discriminate H].
    apply raises_bind; [apply raises_log|intros _]. apply raises_raise, He.
Qed.

Lemma raises_path_exists p : raises failure (path_exists w p).
Proof. unfold path_exists. repeat raises_step. Qed.

Lemma raises_mkdtemp a b : raises failure (mkdtemp w a b).
Proof. unfold mkdtemp. repeat raises_step. Qed.

Lemma raises_snapshot_download r d t : raises failure (snapshot_download w r d t).
Proof.
  destruct faults as (_ & _ & _ & Hh). unfold snapshot_download.
  repeat raises_step.
Qed.

Lemma raises_rglob_file_count p : raises failure (rglob_file_count w p).
Proof. unfold rglob_file_count. repeat raises_step. Qed.

Lemma raises_download_model_from_hf m d t :
  raises failure (download_model_from_hf w m d t).
Proof.
  unfold download_model_from_hf.
  repeat (apply raises_bind; [apply raises_log|intros _]).
  apply raises_bind; [apply raises_snapshot_download|intros ?].
  apply raises_bind; [apply raises_log|intros _].
  apply raises_bind; [apply raises_path_exists|intros ?].
  apply raises_bind; [repeat raises_step|intros _].
  apply raises_bind; [apply raises_rglob_file_count|intros ?].
  repeat raises_step.
Qed.

Lemma raises_upload_file p b k : raises failure (upload_file w p b k).
Proof.
  destruct faults as (_ & _ & Hu & _). unfold upload_file. repeat raises_step.
Qed.

Lemma raises_getsize p : raises failure (getsize w p).
Proof. unfold getsize. repeat raises_step. Qed.

Lemma raises_upload_file_to_s3 client p b k :
  raises failure (upload_file_to_s3 w client p b k).
Proof.
  unfold upload_file_to_s3.
  apply raises_bind; [apply raises_upload_file|intros _; apply raises_getsize].
Qed.

Lemma relpath_raises cwd p start e :
  Path.relpath cwd p start = Raise e -> is_Exception e = true.
Proof.
  unfold Path.relpath. destruct (String.eqb p ""); [intros [= <-]; reflexivity|].
  cbv zeta. destruct (_ ++ _); discriminate.
Qed.

Lemma raises_collect_files local_dir pre root files :
  raises failure (collect_files w local_dir pre root files).
Proof.
  induction files as [|f files IH]; cbn [collect_files]; [apply raises_ret|].
  destruct (Path.relpath _ _ _) as [rel|e] eqn:Hrel.
  - apply raises_bind; [exact IH|intros ?; apply raises_ret].
  - apply raises_raise, failure_exception, (relpath_raises _ _ _ _ Hrel).
Qed.

Lemma raises_collect_walk local_dir pre triples :
  raises failure (collect_walk w local_dir pre triples).
Proof.
  induction triples as [|[[root ds] files] triples IH]; cbn [collect_walk];
    [apply raises_ret|].
  apply raises_bind; [apply raises_collect_files|intros ?].
  apply raises_bind; [exact IH|intros ?; apply raises_ret].
Qed.

Lemma raises_files_to_upload local_dir pre :
  raises failure (files_to_upload w local_dir pre).
Proof.
  unfold files_to_upload, os_walk.
  apply raises_bind; [repeat raises_step|intros ?; apply raises_collect_walk].
Qed.

Lemma raises_as_completed_loop client b completed total count :
  raises failure (as_completed_loop w client b completed total count).
Proof.
  revert total count.
  induction completed as [|[[p k] rel] completed IH]; intros total count;
    cbn [as_completed_loop]; [apply raises_ret|].
  apply raises_bind; [|intros ?; apply IH].
  apply raises_try_except.
  - apply raises_bind; [apply raises_upload_file_to_s3|intros ?].
    repeat raises_step.
  - intros e h He [= <-].
    apply raises_bind; [destruct (is_Exception e); repeat raises_step|intros _].
    apply raises_bind; [|intros _; apply raises_raise, He].
    intros st. rewrite drain_returns. exact I.
Qed.

Lemma raises_upload_directory_to_s3 client local_dir b pre n :
  raises failure (upload_directory_to_s3 w client local_dir b pre n).
Proof.
  unfold upload_directory_to_s3. cbv zeta.
  apply raises_bind; [apply raises_log|intros _].
  apply raises_bind; [apply raises_files_to_upload|intros files].
  destruct files as [|t files]; [apply raises_log|].
  apply raises_bind; [apply raises_log|intros _].
  apply raises_bind; [|intros _].
  { unfold thread_pool_executor. destruct (n =? 0)%nat; [|apply raises_ret].
    apply raises_raise, failure_exception. reflexivity. }
  apply raises_bind; [apply raises_as_completed_loop|intros ?; apply raises_log].
Qed.

End Raises.

(** ** The exit status of [main] *)

Lemma never_returns_bind_l {A B} (m : M A) (k : A -> M B) :
  (forall st, exists e, fst (m st) = Raise e) ->
  forall st, exists e, fst ((m ≫= k) st) = Raise e.
Proof.
  intros Hm st. rewrite bind_run. destruct (Hm st) as [e He].
  destruct (m st) as [[a|e'] st']; cbn [fst] in *; [discriminate He|eauto].
Qed.

Lemma never_returns_bind_r {A B} (m : M A) (k : A -> M B) :
  (forall a st, exists e, fst (k a st) = Raise e) ->
  forall st, exists e, fst ((m ≫= k) st) = Raise e.
Proof.
  intros Hk st. rewrite bind_run.
  destruct (m st) as [[a|e'] st']; cbn [fst] in *; [apply Hk|eauto].
Qed.

Lemma never_returns_sys_exit {A} (code : Z) (st : state) :
  exists e, fst (@sys_exit A code st) = Raise e.
Proof. eexists. reflexivity. Qed.

Lemma main_body_never_returns (w : world) (st : state) :
  exists e, fst (main_body w st) = Raise e.
Proof.
  revert st. unfold main_body.
  apply never_returns_bind_r; intros cfg.
  apply never_returns_bind_r; intros client. cbv zeta.
  apply never_returns_bind_r; intros [|];
    repeat (apply never_returns_bind_r; intros ?);
    apply never_returns_sys_exit.
Qed.

Lemma failure_exit_or_error (e : exn) : failure e -> exit_or_error e.
Proof. intros H. right. exact H. Qed.

Lemma raises_main_body (w : world) :
  faults_are_errors w -> raises exit_or_error (main_body w).
Proof.
  intros faults.
  assert (W : forall A (m : M A), raises failure m -> raises exit_or_error m)
    by (intros A m; apply raises_weaken, failure_exit_or_error).
  unfold main_body.
  apply raises_bind; [apply W, raises_validate_environment|intros cfg].
  apply raises_bind; [apply W, raises_create_s3_client, faults|intros client].
  cbv zeta.
  apply raises_bind; [apply W, raises_model_exists_in_s3, faults|intros [|]].
  - apply raises_bind; [apply raises_log|intros _].
    apply raises_bind; [apply W, raises_banner|intros _].
    apply raises_raise. left. reflexivity.
  - apply raises_bind; [apply raises_log|intros _].
    apply raises_bind; [apply W, raises_mkdtemp|intros dir].
    apply raises_bind; [intros st; exact I|intros _].
    apply raises_bind; [apply raises_log|intros _].
    apply raises_bind; [apply W, raises_download_model_from_hf, faults|intros _].
    apply raises_bind; [apply W, raises_upload_directory_to_s3, faults|intros _].
    apply raises_bind; [apply W, raises_banner|intros _].
    apply raises_raise. left. reflexivity.
Qed.

Lemma main_handlers_exit (e : exn) (st : state) :
  exit_or_error e ->
  exists code,
    fst (match main_handlers e with
         | Some h => h st
         | None => (Raise e, st)
         end) = Raise (SystemExit code)
    /\ (code = 0%Z \/ code = 1%Z)
    /\ (code = 0%Z -> e = SystemExit 0).
Proof.
  intros [-> | [-> | He]].
  - exists 0%Z. repeat split; auto.
  - exists 1%Z. repeat split; auto. discriminate.
  - exists 1%Z. split; [|split; [auto|discriminate]].
    destruct e; try discriminate He; reflexivity.
Qed.

Lemma main_try_exit (w : world) (st : state) :
  faults_are_errors w ->
  exists code,
    fst (try_except (main_body w) main_handlers st) = Raise (SystemExit code)
    /\ (code = 0%Z \/ code = 1%Z)
    /\ (code = 0%Z -> fst (main_body w st) = Raise (SystemExit 0)).
Proof.
  intros faults. pose proof (raises_main_body w faults st) as HP.
  destruct (main_body_never_returns w st) as [e He].
  unfold try_except. destruct (main_body w st) as [[u|e'] st'];
    cbn [fst] in *; [discriminate He|].
  destruct (main_handlers_exit e' st' HP) as (code & H1 & H2 & H3).
  exists code. split; [exact H1|]. split; [exact H2|].
  intros Hc. rewrite (H3 Hc). reflexivity.
Qed.

(** X4. [main] never returns normally and never lets an error escape: when
    what the collaborators (client factory, store, hub) raise are errors
    (subclasses of [Exception]), a run ends by [SystemExit(0)] or by
    [SystemExit(1)], whatever the environment, the file system, the store and
    the order of the uploads; so the exit status is 0 or 1. *)
Theorem main_exit_status :
  forall (w : world) (st : state),
    faults_are_errors w ->
    (fst (main w st) = Raise (SystemExit 0) /\ exit_status (fst (main w st)) = 0%Z)
    \/ (fst (main w st) = Raise (SystemExit 1) /\ exit_status (fst (main w st)) = 1%Z).
Proof.
  intros w st faults. rewrite main_unfold.
  rewrite try_finally_fst by apply main_finally_returns.
  destruct (main_try_exit w (snd (main_start st)) faults)
    as (code & -> & [-> | ->] & _); [left|right]; split; reflexivity.
Qed.

Lemma main_exit_status_witness :
  faults_are_errors Examples.failing_upload_world
  /\ exit_status (fst (main Examples.failing_upload_world Examples.fresh_state)) = 1%Z.
Proof.
  assert (H : faults_are_errors Examples.failing_upload_world).
  { repeat split; intros; try discriminate.
    unfold Examples.failing_upload_world in *. cbn in *.
    repeat match goal with
           | H : (if ?c then _ else _) = Some _ |- _ => destruct c
           | H : Some _ = Some _ |- _ => injection H as <-
           | H : None = Some _ |- _ => discriminate H
           end; reflexivity. }
  split; [exact H|].
  destruct (main_exit_status Examples.failing_upload_world Examples.fresh_state H)
    as [[H0 _] | [_ H1]]; [vm_compute in H0; discriminate H0|exact H1].
Defined.

(** ** What an upload can change *)

Lemma startswith_append (p s : string) : Py.startswith p (p +:+ s) = true.
Proof.
  unfold Py.startswith. induction p as [|c p IH]; [destruct s; reflexivity|].
  rewrite append_cons, prefix_cons. destruct (ascii_dec c c); [exact IH|congruence].
Qed.

Lemma written_under_refl bucket pre st : written_under bucket pre st st.
Proof. repeat split; auto. Qed.

Lemma object_insert st bucket objs key content b k :
  s3 st !! bucket = Some objs ->
  object (snd (set_s3 (<[bucket := <[key := content]> objs]> (s3 st)) st)) b k
  = if decide (b = bucket /\ k = key) then Some content else object st b k.
Proof.
  intros Hb. unfold object, set_s3. cbn [snd s3].
  destruct (decide (b = bucket)) as [->|Hne].
  - rewrite lookup_insert_eq, Hb. cbn [mbind option_bind].
    destruct (decide (k = key)) as [->|Hk].
    + rewrite lookup_insert_eq. rewrite decide_True by auto. reflexivity.
    + rewrite lookup_insert_ne by auto. rewrite decide_False by tauto. reflexivity.
  - rewrite lookup_insert_ne by auto. rewrite decide_False by tauto. reflexivity.
Qed.

Lemma written_under_emit bucket pre st0 st e :
  written_under bucket pre st0 st -> written_under bucket pre st0 (snd (emit e st)).
Proof. intros H. exact H. Qed.

Lemma written_under_upload_file w bucket pre st0 st p k :
  Py.startswith pre k = true ->
  written_under bucket pre st0 st ->
  written_under bucket pre st0 (snd (upload_file w p bucket k st)).
Proof.
  intros Hk H. rewrite upload_file_run. cbv zeta.
  destruct (upload_fault w k); [exact H|].
  destruct (Fs.stat (fs st) (cwd w) p) as [[content|es]|]; [|exact H|exact H].
  destruct (s3 st !! bucket) as [objs|] eqn:Hb; [|exact H].
  destruct H as (Hf & Hv & Hdom & Hkeep & Hout). cbn [snd].
  split; [exact Hf|]. split; [exact Hv|]. split; [|split].
  - intros b. rewrite <- Hdom. unfold set_s3, emit. cbn [snd s3].
    destruct (decide (b = bucket)) as [->|Hne].
    + rewrite lookup_insert_eq, Hb. split; discriminate.
    + rewrite lookup_insert_ne by auto. reflexivity.
  - intros b k' Hs. specialize (Hkeep b k' Hs).
    change (is_Some (object (snd (set_s3 (<[bucket := <[k := content]> objs]> (s3 st)) st)) b k')).
    rewrite (object_insert _ _ _ _ _ _ _ Hb).
    destruct (decide _); [eexists; reflexivity|exact Hkeep].
  - intros b k' Hor. rewrite <- (Hout b k' Hor).
    change (object (snd (set_s3 (<[bucket := <[k := content]> objs]> (s3 st)) st)) b k'
            = object st b k').
    rewrite (object_insert _ _ _ _ _ _ _ Hb).
    destruct (decide _) as [[-> ->]|]; [|reflexivity].
    destruct Hor as [Hne|Hne]; [congruence|]. rewrite Hk in Hne. discriminate Hne.
Qed.

Lemma written_under_run_task w client bucket pre st0 st t :
  task_under pre t ->
  written_under bucket pre st0 st ->
  written_under bucket pre st0 (snd (run_task w client bucket t st)).
Proof.
  intros Ht H. unfold run_task, upload_file_to_s3. rewrite bind_run.
  pose proof (written_under_upload_file w bucket pre st0 st (fst (fst t))
                (snd (fst t)) Ht H) as H1.
  destruct (upload_file w (fst (fst t)) bucket (snd (fst t)) st) as [[u|e] st1];
    cbn [snd] in *; [|exact H1].
  rewrite getsize_run. exact H1.
Qed.

Lemma written_under_drain w client bucket pre st0 pending :
  Forall (task_under pre) pending ->
  forall st, written_under bucket pre st0 st ->
             written_under bucket pre st0 (snd (drain w client bucket pending st)).
Proof.
  induction 1 as [|[[p k] rel] pending Ht _ IH]; intros st H; [exact H|].
  cbn [drain]. rewrite bind_run. unfold try_except. rewrite bind_run.
  pose proof (written_under_run_task w client bucket pre st0 st (p, k, rel) Ht H)
    as H1.
  unfold run_task in H1. cbn [fst snd] in H1.
  destruct (upload_file_to_s3 w client p bucket k st) as [[n|e] st1];
    cbn [snd] in H1; apply IH, H1.
Qed.

Lemma written_under_as_completed_loop w client bucket pre st0 completed :
  Forall (task_under pre) completed ->
  forall total count st,
    written_under bucket pre st0 st ->
    written_under bucket pre st0
      (snd (as_completed_loop w client bucket completed total count st)).
Proof.
  induction 1 as [|t completed Ht Hall IH]; intros total count st H; [exact H|].
  rewrite as_completed_loop_step.
  pose proof (written_under_run_task w client bucket pre st0 st t Ht H) as H1.
  destruct (run_task w client bucket t st) as [[n|e] st1]; cbn [snd] in *.
  - apply IH. exact H1.
  - apply written_under_drain; [exact Hall|]. destruct (is_Exception e); exact H1.
Qed.

Lemma collect_files_under w local_dir pre root files st :
  match fst (collect_files w local_dir pre root files st) with
  | Ok ts => Forall (task_under pre) ts
  | Raise _ => True
  end.
Proof.
  induction files as [|f files IH]; cbn [collect_files]; [constructor|].
  destruct (Path.relpath _ _ _) as [rel|e]; [|exact I].
  rewrite bind_run.
  destruct (collect_files w local_dir pre root files st) as [[ts|e] st1];
    cbn [fst] in *; [|exact I].
  constructor; [apply startswith_append|exact IH].
Qed.

Lemma collect_walk_under w local_dir pre triples st :
  match fst (collect_walk w local_dir pre triples st) with
  | Ok ts => Forall (task_under pre) ts
  | Raise _ => True
  end.
Proof.
  revert st. induction triples as [|[[root ds] files] triples IH]; intros st;
    cbn [collect_walk]; [constructor|].
  rewrite bind_run. pose proof (collect_files_under w local_dir pre root files st) as H1.
  destruct (collect_files w local_dir pre root files st) as [[here|e] st1];
    cbn [fst] in *; [|exact I].
  rewrite bind_run. specialize (IH st1).
  destruct (collect_walk w local_dir pre triples st1) as [[rest|e] st2];
    cbn [fst] in *; [|exact I].
  apply Forall_app. split; assumption.
Qed.

Lemma files_to_upload_under w local_dir pre st :
  snd (files_to_upload w local_dir pre st) = st
  /\ match fst (files_to_upload w local_dir pre st) with
     | Ok ts => Forall (task_under (normalize_prefix pre)) ts
     | Raise _ => True
     end.
Proof.
  split.
  - destruct (files_to_upload_run w local_dir pre st) as [r Hr].
    rewrite (Hr st eq_refl). reflexivity.
  - unfold files_to_upload, os_walk. rewrite !bind_run. unfold get. cbv beta iota.
    apply collect_walk_under.
Qed.

Lemma bind_log_run {B} lv msg (k : unit -> M B) (st : state) :
  (log lv msg ≫= k) st = k tt (snd (log lv msg st)).
Proof. reflexivity. Qed.

Lemma written_under_upload_directory_to_s3 (w : world) (client : s3_client)
    (local_dir bucket pre : string) (max_workers : nat) (st0 st : state) :
  written_under bucket (normalize_prefix pre) st0 st ->
  written_under bucket (normalize_prefix pre) st0
    (snd (upload_directory_to_s3 w client local_dir bucket pre max_workers st)).
Proof.
  intros H0.
  unfold upload_directory_to_s3. cbv zeta. rewrite bind_log_run.
  match goal with
  | |- context [snd (log ?lv ?msg st)] =>
      assert (H1 : written_under bucket (normalize_prefix pre) st0
                     (snd (log lv msg st)))
        by (apply written_under_emit, H0);
      generalize dependent (snd (log lv msg st))
  end.
  intros st1 H1. rewrite bind_run.
  destruct (files_to_upload_under w local_dir pre st1) as [Hst Hts].
  destruct (files_to_upload w local_dir pre st1) as [[files|e] st2];
    cbn [fst snd] in *; subst st2; [|exact H1].
  destruct files as [|t files]; [exact H1|].
  rewrite bind_log_run, bind_run. unfold thread_pool_executor.
  destruct (max_workers =? 0)%nat; [exact H1|].
  unfold mret at 1, M_ret at 1, ret at 1. cbv beta iota. rewrite bind_run.
  match goal with
  | |- context [as_completed_loop w client bucket ?c 0 0 ?s] =>
      pose proof (written_under_as_completed_loop w client bucket
                    (normalize_prefix pre) st0 c
                    (Permutation_Forall
                       (Permutation_sym (completion_perm (pool w) (t :: files))) Hts)
                    0 0 s H1) as H2;
      destruct (as_completed_loop w client bucket c 0 0 s) as [[acc|e] st3]
  end; exact H2.
Qed.

(** X6. Whether it returns or raises, [upload_directory_to_s3] changes
    nothing but objects of the given bucket whose key starts with the prefix
    (with its trailing slash): the local files are left alone, no bucket is
    created or removed, no object is deleted, and the objects of other
    buckets and under other keys keep their content.  This holds for every
    order of completion and every fault of the store. *)
Theorem upload_directory_to_s3_writes_under_prefix :
  forall (w : world) (client : s3_client) (local_dir bucket pre : string)
         (max_workers : nat) (st : state),
    written_under bucket (normalize_prefix pre) st
      (snd (upload_directory_to_s3 w client local_dir bucket pre max_workers st)).
Proof.
  intros w client local_dir bucket pre n st.
  apply written_under_upload_directory_to_s3, written_under_refl.
Qed.

(** ** The store after a successful upload *)

Lemma distinct_names_Dir (es : list (string * node)) :
  distinct_names (Dir es) = true ->
  NoDup (map fst es) /\ Forall (fun e => distinct_names (snd e) = true) es.
Proof.
  cbn [distinct_names]. intros H. apply andb_prop in H as [H1 H2].
  split; [exact (bool_decide_eq_true_1 _ H1)|]. clear H1.
  induction es as [|[name child] es IH]; [constructor|].
  apply andb_prop in H2 as [Ha Hb]. constructor; [exact Ha|exact (IH Hb)].
Qed.

Lemma lookup_entry_in (c : string) (v : node) (es : list (string * node)) :
  Fs.lookup_entry c es = Some v -> In (c, v) es.
Proof.
  induction es as [|[k v'] es IH]; cbn [Fs.lookup_entry]; [discriminate|].
  destruct (String.eqb k c) eqn:E.
  - intros [= ->]. apply String.eqb_eq in E as ->. left. reflexivity.
  - intros H. right. exact (IH H).
Qed.

Lemma lookup_entry_nodup (c : string) (v : node) (es : list (string * node)) :
  NoDup (map fst es) -> In (c, v) es -> Fs.lookup_entry c es = Some v.
Proof.
  induction es as [|[k v'] es IH]; cbn [Fs.lookup_entry map fst]; [intros _ []|].
  intros Hnd [Heq|Hin].
  - injection Heq as -> ->. rewrite String.eqb_refl. reflexivity.
  - apply NoDup_cons in Hnd as [Hk Hnd].
    destruct (String.eqb k c) eqn:E; [|exact (IH Hnd Hin)].
    apply String.eqb_eq in E as ->. exfalso. apply Hk.
    apply list_elem_of_In, (in_map fst es (c, v)), Hin.
Qed.

Lemma in_files_of (c : string) (es : list (string * node)) :
  In c (Fs.files_of es) <-> exists content, In (c, File content) es.
Proof.
  unfold Fs.files_of. rewrite in_flat_map. split.
  - intros [[k [content|es']] [Hin Hc]]; cbn [fst snd] in Hc; [|destruct Hc].
    destruct Hc as [<-|[]]. exists content. exact Hin.
  - intros [content Hin]. exists (c, File content). split; [exact Hin|].
    left. reflexivity.
Qed.

(** Every path of [files_below] leads to a regular file. *)
Lemma files_below_resolve (n : node) :
  distinct_names n = true ->
  forall names, In names (files_below n) ->
                exists content, Fs.resolve names n = Some (File content).
Proof.
  induction n as [content|es IH] using node_induction; intros Hd names Hin;
    [destruct Hin|].
  apply distinct_names_Dir in Hd as [Hnd Hall].
  rewrite files_below_Dir in Hin. apply in_app_or in Hin as [Hin|Hin].
  - apply in_map_iff in Hin as (c & <- & Hc).
    apply in_files_of in Hc as [content Hc]. exists content.
    cbn [Fs.resolve]. rewrite (lookup_entry_nodup _ _ _ Hnd Hc). reflexivity.
  - apply in_flat_map in Hin as ([c child] & He & Hin). cbn [fst snd] in Hin.
    apply in_map_iff in Hin as (rest & <- & Hrest).
    cbn [Fs.resolve]. rewrite (lookup_entry_nodup _ _ _ Hnd He).
    rewrite List.Forall_forall in IH, Hall.
    apply (IH (c, child)); [exact He| |exact Hrest].
    apply (Hall (c, child)), He.
Qed.

(** Every regular file of the tree is reached by a path of [files_below]. *)
Lemma resolve_files_below (names : list string) :
  forall (es : list (string * node)) (content : string),
    Fs.resolve names (Dir es) = Some (File content) ->
    In names (files_below (Dir es)).
Proof.
  induction names as [|c names IH]; intros es content H; [discriminate H|].
  cbn [Fs.resolve] in H.
  destruct (Fs.lookup_entry c es) as [v|] eqn:E; [|discriminate H].
  apply lookup_entry_in in E. rewrite files_below_Dir. apply in_or_app.
  destruct names as [|c' names].
  - left. cbn [Fs.resolve] in H. injection H as ->.
    apply (in_map (fun f => [f]) _ c), in_files_of. exists content. exact E.
  - right. destruct v as [x|es']; [discriminate H|].
    apply in_flat_map. exists (c, Dir es'). split; [exact E|].
    cbn [fst snd]. apply (in_map (cons c)). apply (IH es' content H).
Qed.

(** The names on the paths of [files_below] are names a directory can hold. *)
Lemma files_below_valid (n : node) :
  wf_node n = true ->
  forall names, In names (files_below n) ->
                names <> [] /\ Forall (fun x => valid_name x = true) names.
Proof.
  induction n as [content|es IH] using node_induction; intros Hwf names Hin;
    [destruct Hin|].
  pose proof (wf_node_Dir es Hwf) as Hall.
  rewrite files_below_Dir in Hin. apply in_app_or in Hin as [Hin|Hin].
  - apply in_map_iff in Hin as (c & <- & Hc). split; [discriminate|].
    apply in_files_of in Hc as [content Hc].
    rewrite List.Forall_forall in Hall.
    destruct (Hall (c, File content)) as [Hv _]; [exact Hc|].
    constructor; [exact Hv|constructor].
  - apply in_flat_map in Hin as ([c child] & He & Hin). cbn [fst snd] in Hin.
    apply in_map_iff in Hin as (rest & <- & Hrest). split; [discriminate|].
    rewrite List.Forall_forall in IH, Hall.
    destruct (Hall (c, child)) as [Hv Hw]; [exact He|].
    constructor; [exact Hv|].
    apply (IH (c, child)); [exact He|exact Hw|exact Hrest].
Qed.

Lemma run_task_ok w client bucket (t : task) st objs content :
  upload_fault w (snd (fst t)) = None ->
  Fs.stat (fs st) (cwd w) (fst (fst t)) = Some (File content) ->
  s3 st !! bucket = Some objs ->
  fst (run_task w client bucket t st) = Ok (Py.len content)
  /\ fs (snd (run_task w client bucket t st)) = fs st
  /\ s3 (snd (run_task w client bucket t st))
     = <[bucket := <[snd (fst t) := content]> objs]> (s3 st).
Proof.
  intros Hf Hr Hb. unfold run_task, upload_file_to_s3.
  rewrite bind_run, upload_file_run. cbv zeta. rewrite Hf, Hr, Hb.
  rewrite getsize_run. cbn [fst snd set_s3 emit fs s3]. rewrite Hr.
  repeat split.
Qed.

Lemma as_completed_loop_ok w client bucket (f : node) (completed : list task) :
  Forall (fun t => upload_fault w (snd (fst t)) = None) completed ->
  Forall (readable w f) completed ->
  forall total count st objs,
    fs st = f -> s3 st !! bucket = Some objs ->
    fst (as_completed_loop w client bucket completed total count st)
    = Ok (total + size_tasks w f completed, count + length completed)
    /\ fs (snd (as_completed_loop w client bucket completed total count st)) = f
    /\ s3 (snd (as_completed_loop w client bucket completed total count st))
       = <[bucket := store_tasks w f completed objs]> (s3 st).
Proof.
  intros Hfaults Hread. revert Hfaults.
  induction Hread as [|t completed [content Ht] _ IH];
    intros Hfaults total count st objs Hfs Hb.
  - cbn. rewrite !Nat.add_0_r. repeat split; [exact Hfs|].
    symmetry. apply insert_id, Hb.
  - apply Forall_cons in Hfaults as [Hf Hfaults]. subst f.
    rewrite as_completed_loop_step.
    destruct (run_task_ok w client bucket t st objs content Hf Ht Hb)
      as (H1 & H2 & H3).
    destruct (run_task w client bucket t st) as [r st1]. cbn [fst snd] in *.
    subst r.
    match goal with
    | |- context [as_completed_loop w client bucket completed ?a ?b ?s] =>
        destruct (IH Hfaults a b s (<[snd (fst t) := content]> objs))
          as (I1 & I2 & I3)
    end.
    + exact H2.
    + cbn [snd tqdm_write emit s3]. rewrite H3. apply lookup_insert_eq.
    + rewrite I1, I2, I3. cbn [snd tqdm_write emit s3]. rewrite H3.
      rewrite insert_insert_eq.
      unfold size_tasks, store_tasks, content_of. cbn [fold_right fold_left length].
      rewrite Ht. split; [f_equal; f_equal; lia|]. split; reflexivity.
Qed.

Lemma store_tasks_snoc w f (l : list task) (t : task) objs :
  store_tasks w f (l ++ [t]) objs
  = <[snd (fst t) := content_of w f t]> (store_tasks w f l objs).
Proof. unfold store_tasks. rewrite fold_left_app. reflexivity. Qed.

Lemma store_tasks_other w f (l : list task) objs (k : string) :
  (forall t, In t l -> snd (fst t) <> k) ->
  store_tasks w f l objs !! k = objs !! k.
Proof.
  induction l as [|t l IH] using rev_ind; intros H; [reflexivity|].
  rewrite store_tasks_snoc, lookup_insert_ne.
  - apply IH. intros t' Hin. apply H, in_or_app. left. exact Hin.
  - apply H, in_or_app. right. left. reflexivity.
Qed.

Lemma store_tasks_key w f (l : list task) objs (k c : string) :
  (exists t, In t l /\ snd (fst t) = k) ->
  (forall t, In t l -> snd (fst t) = k -> content_of w f t = c) ->
  store_tasks w f l objs !! k = Some c.
Proof.
  induction l as [|t l IH] using rev_ind; intros (t0 & Hin & Hk) Hc;
    [destruct Hin|].
  rewrite store_tasks_snoc.
  destruct (decide (snd (fst t) = k)) as [Heq|Hne].
  - rewrite Heq, lookup_insert_eq. f_equal. apply Hc; [|exact Heq].
    apply in_or_app. right. left. reflexivity.
  - rewrite lookup_insert_ne by exact Hne. apply IH.
    + exists t0. split; [|exact Hk].
      apply in_app_or in Hin as [Hin|[<-|[]]]; [exact Hin|contradiction].
    + intros t' Hin' Hk'. apply Hc; [|exact Hk']. apply in_or_app. left. exact Hin'.
Qed.

Lemma size_tasks_perm w f (l1 l2 : list task) :
  Permutation l1 l2 -> size_tasks w f l1 = size_tasks w f l2.
Proof.
  induction 1 as [|t l1 l2 _ IH|t1 t2 l|l1 l2 l3 _ IH1 _ IH2];
    cbn [size_tasks fold_right] in *;
    [reflexivity|fold (size_tasks w f l1); fold (size_tasks w f l2); lia|lia|congruence].
Qed.

Lemma append_inj_r (p a b : string) : p +:+ a = p +:+ b -> a = b.
Proof.
  induction p as [|c p IH]; [intros H; exact H|].
  rewrite !append_cons. intros [= H]. exact (IH H).
Qed.

Lemma task_key_inj (pre : string) (n1 n2 : list string) :
  n1 <> [] -> n2 <> [] ->
  Forall (fun x => valid_name x = true) n1 ->
  Forall (fun x => valid_name x = true) n2 ->
  pre +:+ Py.str_join "/" n1 = pre +:+ Py.str_join "/" n2 -> n1 = n2.
Proof.
  intros H1 H2 V1 V2 H. apply append_inj_r in H.
  assert (S : forall l, Forall (fun x => valid_name x = true) l ->
                        Forall (fun x => has_char "/" x = false) l).
  { intros l Hl. eapply Forall_impl; [exact Hl|].
    intros x Hx. apply valid_name_inv in Hx. tauto. }
  rewrite <- (split_str_join n1 H1 (S _ V1)), <- (split_str_join n2 H2 (S _ V2)), H.
  reflexivity.
Qed.

Lemma files_to_upload_below w local_dir pre st es :
  Path.isabs (cwd w) = true ->
  Fs.stat (fs st) (cwd w) local_dir = Some (Dir es) ->
  wf_node (Dir es) = true ->
  files_to_upload w local_dir pre st
  = (Ok (map (task_of local_dir (normalize_prefix pre)) (files_below (Dir es))), st).
Proof.
  intros Hcwd Hdir Hwf.
  unfold files_to_upload, os_walk. unfold_M. cbv beta iota. rewrite Hdir.
  change (Fs.walk local_dir (Dir es))
    with (Fs.walk (Path.join local_dir []) (Dir es)).
  rewrite (collect_walk_below w local_dir (normalize_prefix pre) Hcwd
             (Dir es) st Hwf [] (List.Forall_nil _)).
  reflexivity.
Qed.

Section Stored.

Variable w : world.
Variables local_dir bucket pre : string.
Variable f : node.
Variable es : list (string * node).
Hypothesis cwd_abs : Path.isabs (cwd w) = true.
Hypothesis Hdir : Fs.stat f (cwd w) local_dir = Some (Dir es).
Hypothesis Hwf : wf_node (Dir es) = true.
Hypothesis Hdistinct : distinct_names (Dir es) = true.

Lemma task_reads (names : list string) (content : string) :
  Fs.resolve names (Dir es) = Some (File content) ->
  Fs.stat f (cwd w) (fst (fst (task_of local_dir (normalize_prefix pre) names)))
  = Some (File content).
Proof.
  intros H.
  destruct (files_below_valid _ Hwf names (resolve_files_below _ _ _ H)) as [_ Hv].
  cbn [task_of fst]. apply (stat_join _ _ _ Hv _ _ _ Hdir H).
Qed.

Lemma content_of_task (names : list string) (content : string) :
  Fs.resolve names (Dir es) = Some (File content) ->
  content_of w f (task_of local_dir (normalize_prefix pre) names) = content.
Proof.
  intros H. unfold content_of. rewrite (task_reads names content H). reflexivity.
Qed.

Lemma tasks_readable :
  Forall (readable w f)
    (map (task_of local_dir (normalize_prefix pre)) (files_below (Dir es))).
Proof.
  apply List.Forall_forall. intros t Hin.
  apply in_map_iff in Hin as (names & <- & Hin).
  destruct (files_below_resolve _ Hdistinct names Hin) as [content Hc].
  exists content. apply task_reads, Hc.
Qed.

Lemma size_tasks_below (l : list (list string)) :
  (forall names, In names l -> In names (files_below (Dir es))) ->
  size_tasks w f (map (task_of local_dir (normalize_prefix pre)) l)
  = fold_right (fun names acc => file_size (Dir es) names + acc) 0 l.
Proof.
  induction l as [|names l IH]; intros H; [reflexivity|].
  cbn [map size_tasks fold_right]. fold (size_tasks w f).
  unfold size_tasks in IH. rewrite IH by (intros n Hn; apply H; right; exact Hn).
  f_equal.
  destruct (files_below_resolve _ Hdistinct names (H names (or_introl eq_refl)))
    as [content Hc].
  unfold file_size. rewrite (content_of_task names content Hc), Hc. reflexivity.
Qed.

Lemma store_tasks_below (completed : list task) (objs : gmap string string) :
  Permutation (map (task_of local_dir (normalize_prefix pre)) (files_below (Dir es)))
    completed ->
  (forall names content,
     Fs.resolve names (Dir es) = Some (File content) ->
     store_tasks w f completed objs
       !! (normalize_prefix pre +:+ Py.str_join "/" names) = Some content)
  /\ (forall k,
        (forall names, In names (files_below (Dir es)) ->
                       k <> normalize_prefix pre +:+ Py.str_join "/" names) ->
        store_tasks w f completed objs !! k = objs !! k).
Proof.
  intros Hperm. split.
  - intros names content Hc.
    pose proof (resolve_files_below _ _ _ Hc) as Hin.
    destruct (files_below_valid _ Hwf names Hin) as [Hne Hv].
    apply store_tasks_key.
    + exists (task_of local_dir (normalize_prefix pre) names). split; [|reflexivity].
      apply (Permutation_in _ Hperm), in_map, Hin.
    + intros t Ht Hk. apply (Permutation_in _ (Permutation_sym Hperm)) in Ht.
      apply in_map_iff in Ht as (names' & <- & Hin').
      destruct (files_below_valid _ Hwf names' Hin') as [Hne' Hv'].
      cbn [task_of fst snd] in Hk.
      rewrite (task_key_inj _ _ _ Hne' Hne Hv' Hv Hk).
      apply content_of_task, Hc.
  - intros k Hk. apply store_tasks_other. intros t Ht.
    apply (Permutation_in _ (Permutation_sym Hperm)) in Ht.
    apply in_map_iff in Ht as (names & <- & Hin).
    cbn [task_of fst snd]. intros Heq. exact (Hk names Hin (eq_sym Heq)).
Qed.

Hypothesis no_fault :
  forall k, Py.startswith (normalize_prefix pre) k = true -> upload_fault w k = None.

Lemma upload_directory_to_s3_ok (client : s3_client) (max_workers : nat)
    (st : state) (objs : gmap string string) :
  0 < max_workers ->
  fs st = f ->
  s3 st !! bucket = Some objs ->
  let tasks := map (task_of local_dir (normalize_prefix pre)) (files_below (Dir es)) in
  let r := upload_directory_to_s3 w client local_dir bucket pre max_workers st in
  fst r = Ok tt
  /\ fs (snd r) = f
  /\ s3 (snd r) = <[bucket := store_tasks w f (completion (pool w) tasks) objs]> (s3 st)
  /\ (tasks <> [] ->
      last (trace (snd r))
      = Some (Log INFO ("Upload complete: " +:+ pretty (length tasks) +:+ " files, "
                        +:+ format_mb (total_size (Dir es)) +:+ " MB total"))).
Proof.
  intros Hmw Hfs Hb tasks.
  pose proof tasks_readable as Hread. fold tasks in Hread.
  assert (Hsize : size_tasks w f tasks = total_size (Dir es))
    by (apply size_tasks_below; auto).
  assert (Hdir' : Fs.stat (fs st) (cwd w) local_dir = Some (Dir es))
    by (rewrite Hfs; exact Hdir).
  assert (Hunder : Forall (fun t => upload_fault w (snd (fst t)) = None) tasks).
  { apply List.Forall_forall. intros t Ht.
    apply in_map_iff in Ht as (names & <- & _). apply no_fault.
    cbn [task_of fst snd]. apply startswith_append. }
  pose proof (Permutation_sym (completion_perm (pool w) tasks)) as Hperm.
  cbv zeta. unfold upload_directory_to_s3. cbv zeta.
  rewrite bind_log_run, bind_run.
  match goal with
  | |- context [files_to_upload w local_dir pre ?s] =>
      rewrite (files_to_upload_below w local_dir pre s es cwd_abs Hdir' Hwf)
  end.
  fold tasks. cbv beta iota.
  destruct tasks as [|t tasks'].
  - apply Permutation_nil in Hperm. rewrite Hperm.
    cbn [fst snd log emit fs s3 store_tasks fold_left].
    split; [reflexivity|]. split; [exact Hfs|].
    split; [symmetry; apply insert_id, Hb|]. intros H. contradiction.
  - rewrite bind_log_run, (thread_pool_executor_run _ _ _ Hmw), bind_run.
    match goal with
    | |- context [as_completed_loop w client bucket ?c 0 0 ?s] =>
        destruct (as_completed_loop_ok w client bucket f c
                    (Permutation_Forall Hperm Hunder)
                    (Permutation_Forall Hperm Hread) 0 0 s objs Hfs Hb)
          as (I1 & I2 & I3);
        destruct (as_completed_loop w client bucket c 0 0 s) as [r1 st1]
    end.
    cbn [fst snd] in I1, I2, I3. subst r1. cbn [fst snd log emit fs s3 trace].
    split; [reflexivity|]. split; [exact I2|]. split; [exact I3|].
    intros _. rewrite last_snoc. do 3 f_equal.
    rewrite Nat.add_0_l, <- (Permutation_length Hperm).
    rewrite <- (size_tasks_perm w f _ _ Hperm), Hsize. reflexivity.
Qed.

End Stored.

(** X7. When [local_dir] leads to a directory whose tree has proper and
    distinct names, there is at least one worker, the bucket exists and no
    upload under the prefix fails, [upload_directory_to_s3] returns normally and leaves the local files as
    they are; afterwards every regular file below [local_dir] is in the
    bucket under the key made of the prefix (with its trailing slash) and the
    relative path of the file, with the content of the file, and every other
    object of the store is what it was.  This holds for every order in which
    the worker pool completes the uploads. *)
Theorem upload_directory_to_s3_stores_every_file :
  forall (w : world) (client : s3_client) (local_dir bucket pre : string)
         (max_workers : nat) (st : state) (es : list (string * node))
         (objs : gmap string string),
    Path.isabs (cwd w) = true ->
    Fs.stat (fs st) (cwd w) local_dir = Some (Dir es) ->
    wf_node (Dir es) = true ->
    distinct_names (Dir es) = true ->
    0 < max_workers ->
    (forall k, Py.startswith (normalize_prefix pre) k = true ->
               upload_fault w k = None) ->
    s3 st !! bucket = Some objs ->
    let r := upload_directory_to_s3 w client local_dir bucket pre max_workers st in
    fst r = Ok tt
    /\ fs (snd r) = fs st
    /\ (forall names content,
          Fs.resolve names (Dir es) = Some (File content) ->
          object (snd r) bucket (normalize_prefix pre +:+ Py.str_join "/" names)
          = Some content)
    /\ (forall b k,
          b <> bucket
          \/ (forall names, In names (files_below (Dir es)) ->
                            k <> normalize_prefix pre +:+ Py.str_join "/" names) ->
          object (snd r) b k = object st b k).
Proof.
  intros w client local_dir bucket pre n st es objs Hcwd Hdir Hwf Hd Hmw Hnf Hb.
  destruct (upload_directory_to_s3_ok w local_dir bucket pre (fs st) es Hcwd Hdir
              Hwf Hd Hnf client n st objs Hmw eq_refl Hb) as (H1 & H2 & H3 & _).
  destruct (store_tasks_below w local_dir pre (fs st) es Hdir Hwf _ objs
              (Permutation_sym (completion_perm (pool w) _))) as [S1 S2].
  cbv zeta. split; [exact H1|]. split; [exact H2|]. unfold object. rewrite H3.
  split.
  - intros names content Hc. rewrite lookup_insert_eq. cbn [mbind option_bind].
    apply S1, Hc.
  - intros b k Hor. destruct (decide (b = bucket)) as [->|Hne].
    + destruct Hor as [Hor|Hor]; [contradiction|].
      rewrite lookup_insert_eq, Hb. cbn [mbind option_bind]. apply S2, Hor.
    + rewrite lookup_insert_ne by auto. reflexivity.
Qed.

Lemma upload_directory_to_s3_stores_every_file_witness :
  let r := upload_directory_to_s3 Examples.test_world
             {| endpoint_url := "https://objectstore.example.com" |}
             "/tmp/hf_model_k3x9_q1z" "test-bucket" "models/gpt2" 10
             downloaded_state in
  object (snd r) "test-bucket" "models/gpt2/a/b.txt" = Some "bbb"
  /\ object (snd r) "test-bucket" "models/old.bin" = Some "old".
Proof.
  destruct (upload_directory_to_s3_stores_every_file Examples.test_world
              {| endpoint_url := "https://objectstore.example.com" |}
              "/tmp/hf_model_k3x9_q1z" "test-bucket" "models/gpt2" 10
              downloaded_state Examples.two_files {["models/old.bin" := "old"]})
    as (_ & _ & H3 & H4);
    [reflexivity|reflexivity|reflexivity|vm_compute; reflexivity|lia
    |intros; reflexivity|vm_compute; reflexivity|].
  split.
  - apply (H3 ["a"; "b.txt"] "bbb"). reflexivity.
  - rewrite H4; [vm_compute; reflexivity|]. right.
    intros names Hin.
    repeat (destruct Hin as [<-|Hin]; [discriminate|]). destruct Hin.
Defined.

(** X8. Under the same conditions, when there is at least one file (and
    less than 2^53 bytes in all, so that the division by 1024 * 1024 is exact
    in floating point), the last line [upload_directory_to_s3] logs reports
    the number of regular files below [local_dir] and the sum of their sizes
    in megabytes with two decimals, whatever the order of completion. *)
Theorem upload_directory_to_s3_summary :
  forall (w : world) (client : s3_client) (local_dir bucket pre : string)
         (max_workers : nat) (st : state) (es : list (string * node))
         (objs : gmap string string),
    Path.isabs (cwd w) = true ->
    Fs.stat (fs st) (cwd w) local_dir = Some (Dir es) ->
    wf_node (Dir es) = true ->
    distinct_names (Dir es) = true ->
    0 < max_workers ->
    (forall k, Py.startswith (normalize_prefix pre) k = true ->
               upload_fault w k = None) ->
    s3 st !! bucket = Some objs ->
    files_below (Dir es) <> [] ->
    (N.of_nat (total_size (Dir es)) < 2 ^ 53)%N ->
    last (trace (snd (upload_directory_to_s3 w client local_dir bucket pre
                        max_workers st)))
    = Some (Log INFO ("Upload complete: "
                      +:+ pretty (length (files_below (Dir es))) +:+ " files, "
                      +:+ format_mb (total_size (Dir es)) +:+ " MB total")).
Proof.
  intros w client local_dir bucket pre n st es objs Hcwd Hdir Hwf Hd Hmw Hnf Hb Hne _.
  destruct (upload_directory_to_s3_ok w local_dir bucket pre (fs st) es Hcwd Hdir
              Hwf Hd Hnf client n st objs Hmw eq_refl Hb) as (_ & _ & _ & H4).
  cbv zeta in H4. rewrite length_map in H4. apply H4.
  destruct (files_below (Dir es)); [contradiction|discriminate].
Qed.

Lemma upload_directory_to_s3_summary_witness :
  last (trace (snd (upload_directory_to_s3 Examples.test_world
                      {| endpoint_url := "https://objectstore.example.com" |}
                      "/tmp/hf_model_k3x9_q1z" "test-bucket" "models/gpt2" 10
                      downloaded_state)))
  = Some (Log INFO "Upload complete: 2 files, 0.00 MB total").
Proof.
  apply (upload_directory_to_s3_summary Examples.test_world
           {| endpoint_url := "https://objectstore.example.com" |}
           "/tmp/hf_model_k3x9_q1z" "test-bucket" "models/gpt2" 10
           downloaded_state Examples.two_files {["models/old.bin" := "old"]});
    [reflexivity|reflexivity|reflexivity|vm_compute; reflexivity|lia
    |intros; reflexivity|vm_compute; reflexivity|discriminate
    |vm_compute; reflexivity].
Defined.

(** [format_mb] at some sizes: half a hundredth of a megabyte is 5242.88
    bytes, and 1.125 megabytes is a tie, rounded to the even hundredth. *)
Example format_mb_ex :
  format_mb 0 = "0.00" /\ format_mb 5242 = "0.00" /\ format_mb 5243 = "0.01"
  /\ format_mb 1048576 = "1.00" /\ format_mb 1179648 = "1.12"
  /\ format_mb 1583349 = "1.51".
Proof. vm_compute. repeat split. Qed.

(** ** A run that downloads and stores the model *)

Lemma view_emit f s st e : view f s st -> view f s (snd (emit e st)).
Proof. intros H. exact H. Qed.

Lemma hoare_bind_ok {A B} (P P' : state -> Prop) (m : M A) (k : A -> M B) (x : A)
    (Q : result B -> state -> Prop) :
  hoare P m (fun r st => r = Ok x /\ P' st) ->
  hoare P' (k x) Q ->
  hoare P (m ≫= k) Q.
Proof.
  intros Hm Hk st H. specialize (Hm st H). rewrite bind_run.
  destruct (m st) as [r st1]. cbn [fst snd] in Hm. destruct Hm as [-> H1].
  apply Hk, H1.
Qed.

Lemma hoare_ok_of_inv {A} (I : state -> Prop) (m : M A) (x : A) :
  inv I m -> (forall st, I st -> fst (m st) = Ok x) ->
  hoare I m (fun r st => r = Ok x /\ I st).
Proof. intros Hi Hr st H. split; [apply Hr, H|apply Hi, H]. Qed.

Lemma banner_returns lv msg st : fst (banner lv msg st) = Ok tt.
Proof. reflexivity. Qed.

Lemma create_s3_client_returns w a b c st :
  client_fault w = None ->
  fst (create_s3_client w a b c st) = Ok {| endpoint_url := a |}.
Proof.
  intros H. unfold create_s3_client. rewrite bind_log_run, bind_run.
  cbn [emit]. rewrite H. reflexivity.
Qed.

Lemma model_exists_in_s3_absent w client bucket prefix st objs :
  list_fault w = None ->
  s3 st !! bucket = Some objs ->
  (forall key, is_Some (objs !! key) -> Py.startswith prefix key = false) ->
  fst (model_exists_in_s3 w client bucket prefix st) = Ok false.
Proof.
  intros Hf Hb Hno. unfold model_exists_in_s3, list_objects_v2.
  rewrite bind_log_run. unfold try_except. rewrite !bind_run.
  cbn [emit]. rewrite Hf. rewrite bind_run. unfold get. cbv beta iota.
  cbn [snd log emit s3]. rewrite Hb.
  assert (Hk : take 1 (List.filter (Py.startswith prefix)
                         (map fst (map_to_list objs))) = []).
  { apply take_one_filter_nil. intros key Hin.
    apply in_map_iff in Hin as [[k c] [<- Hin]].
    apply list_elem_of_In, elem_of_map_to_list in Hin.
    apply Hno. exists c. exact Hin. }
  rewrite Hk. reflexivity.
Qed.

Lemma download_model_from_hf_ok w model d token st files :
  hub_files (hub w model d token) = files ->
  hub_result (hub w model d token) = Ok d ->
  is_Some (Fs.stat (Fs.put (Path.abs_comps (cwd w) d) (Dir files) (fs st))
             (cwd w) d) ->
  fst (download_model_from_hf w model d token st) = Ok d
  /\ fs (snd (download_model_from_hf w model d token st))
     = Fs.put (Path.abs_comps (cwd w) d) (Dir files) (fs st)
  /\ s3 (snd (download_model_from_hf w model d token st)) = s3 st.
Proof.
  intros Hfiles Hres Hd.
  unfold download_model_from_hf, snapshot_download, path_exists, rglob_file_count.
  cbv zeta. unfold_M. cbn [fst snd fs s3 trace var_download_dir].
  rewrite Hres, Hfiles. cbn [fst snd fs s3 trace var_download_dir].
  rewrite (bool_decide_eq_true_2 _ Hd).
  cbn [negb fst snd fs s3 trace var_download_dir].
  destruct (_ =? 0)%nat; cbn [fst snd fs s3 trace var_download_dir];
    repeat split.
Qed.

Lemma main_finally_s3 (w : world) (st : state) :
  s3 (snd (main_finally w st)) = s3 st.
Proof.
  unfold main_finally. rewrite bind_run. unfold get.
  destruct (var_download_dir st) as [d|]; [|reflexivity].
  destruct (Path.nonempty d); [|reflexivity].
  unfold cleanup_local_files, path_exists, rmtree. unfold_M.
  cbn [fst snd fs s3 trace].
  destruct (bool_decide _) eqn:E; cbn [fst snd fs s3 trace]; [|reflexivity].
  rewrite ?E. cbn [fst snd fs s3 trace].
  destruct (rmtree_fault w); [reflexivity|]. cbn [fst snd fs s3 trace].
  destruct (Fs.lookup_path (fs st) (cwd w) d) as [pos|]; [|reflexivity].
  destruct (Fs.resolve pos (fs st)) as [[x|es]|]; try reflexivity.
  destruct pos; reflexivity.
Qed.

Lemma normalize_full_s3_prefix (p m : string) :
  normalize_prefix (full_s3_prefix p m) = full_s3_prefix p m.
Proof.
  unfold normalize_prefix, full_s3_prefix. cbv zeta.
  rewrite <- append_assoc, endswith_append. reflexivity.
Qed.

Section Success.

Variable w : world.
Variable f0 f1 : node.
Variable s0 : gmap string (gmap string string).
Variable objs : gmap string string.

Hypothesis Henv : env_valid w = true.
Hypothesis Hclient : client_fault w = None.
Hypothesis Hlist : list_fault w = None.
Hypothesis Hcwd : Path.isabs (cwd w) = true.
Hypothesis Hbucket : s0 !! (config_of_env w).(s3_bucket) = Some objs.
Hypothesis Habsent :
  forall key, is_Some (objs !! key) -> Py.startswith (main_prefix w) key = false.
Hypothesis Hmk : Fs.make_dir f0 (cwd w) (main_download_dir w) = Some f1.
Hypothesis Hhub : hub_result (main_hub w) = Ok (main_download_dir w).
Hypothesis Hwf : wf_node (Dir (hub_files (main_hub w))) = true.
Hypothesis Hdistinct : distinct_names (Dir (hub_files (main_hub w))) = true.
Hypothesis Hupload :
  forall k, Py.startswith (main_prefix w) k = true -> upload_fault w k = None.

Lemma success_downloaded :
  Fs.stat (Fs.put (Path.abs_comps (cwd w) (main_download_dir w))
             (Dir (hub_files (main_hub w))) f1)
    (cwd w) (main_download_dir w)
  = Some (Dir (hub_files (main_hub w))).
Proof. apply (make_dir_put_stat _ _ _ _ _ Hmk). Qed.

Lemma success_main_body :
  hoare (view f0 s0) (main_body w)
    (fun r st =>
       r = Raise (SystemExit 0)
       /\ s3 st
          = <[(config_of_env w).(s3_bucket) :=
                store_tasks w
                  (Fs.put (Path.abs_comps (cwd w) (main_download_dir w))
                     (Dir (hub_files (main_hub w))) f1)
                  (completion (pool w)
                     (map (task_of (main_download_dir w) (main_prefix w))
                        (files_below (Dir (hub_files (main_hub w))))))
                  objs]> s0).
Proof.
  pose proof (fun f s => view_emit f s) as Hemit.
  assert (Hview : forall f s st (e : event),
             benign e = true -> view f s st -> view f s (snd (emit e st)))
    by (intros; assumption).
  unfold main_body.
  apply (hoare_bind_ok _ (view f0 s0) _ _ (config_of_env w)).
  { apply hoare_ok_of_inv; [apply inv_validate_environment, Hview|].
    intros st _. rewrite validate_environment_fst, Henv. reflexivity. }
  apply (hoare_bind_ok _ (view f0 s0) _ _
           {| endpoint_url := (config_of_env w).(s3_endpoint_url) |}).
  { apply hoare_ok_of_inv; [apply inv_create_s3_client, Hview|].
    intros st _. apply create_s3_client_returns, Hclient. }
  cbv zeta.
  apply (hoare_bind_ok _ (view f0 s0) _ _ false).
  { apply hoare_ok_of_inv; [apply inv_model_exists_in_s3, Hview|].
    intros st [_ Hs]. apply (model_exists_in_s3_absent _ _ _ _ _ objs Hlist).
    - rewrite Hs. exact Hbucket.
    - exact Habsent. }
  cbv iota.
  apply (hoare_bind_ok _ (view f0 s0) _ _ tt).
  { intros st H. split; [reflexivity|exact H]. }
  apply (hoare_bind_ok _ (view f1 s0) _ _ (main_download_dir w)).
  { intros st [Hf Hs]. unfold mkdtemp. cbv zeta. rewrite bind_run. unfold get.
    cbv beta iota. fold (main_download_dir w). rewrite Hf, Hmk.
    split; [reflexivity|]. split; [reflexivity|exact Hs]. }
  apply (hoare_bind_ok _ (view f1 s0) _ _ tt).
  { intros st H. split; [reflexivity|exact H]. }
  apply (hoare_bind_ok _ (view f1 s0) _ _ tt).
  { intros st H. split; [reflexivity|exact H]. }
  apply (hoare_bind_ok _
           (view (Fs.put (Path.abs_comps (cwd w) (main_download_dir w))
                    (Dir (hub_files (main_hub w))) f1) s0)
           _ _ (main_download_dir w)).
  { intros st [Hf Hs].
    destruct (download_model_from_hf_ok w (config_of_env w).(model_name)
                (main_download_dir w) (config_of_env w).(hf_token) st
                (hub_files (main_hub w)) eq_refl Hhub) as (H1 & H2 & H3).
    - rewrite Hf, success_downloaded. eexists. reflexivity.
    - split; [exact H1|]. split; [rewrite H2, Hf; reflexivity|].
      rewrite H3. exact Hs. }
  apply (hoare_bind_ok _
           (fun st =>
              s3 st
              = <[(config_of_env w).(s3_bucket) :=
                    store_tasks w
                      (Fs.put (Path.abs_comps (cwd w) (main_download_dir w))
                         (Dir (hub_files (main_hub w))) f1)
                      (completion (pool w)
                         (map (task_of (main_download_dir w) (main_prefix w))
                            (files_below (Dir (hub_files (main_hub w))))))
                      objs]> s0)
           _ _ tt).
  { intros st [Hf Hs].
    assert (Hb : s3 st !! (config_of_env w).(s3_bucket) = Some objs)
      by (rewrite Hs; exact Hbucket).
    assert (Hnf : forall k,
               Py.startswith (normalize_prefix (main_prefix w)) k = true ->
               upload_fault w k = None).
    { intros k. unfold main_prefix. rewrite normalize_full_s3_prefix.
      apply Hupload. }
    assert (Hmw : 0 < 10) by lia.
    pose proof (upload_directory_to_s3_ok w (main_download_dir w)
                  (config_of_env w).(s3_bucket) (main_prefix w) _ _ Hcwd
                  success_downloaded Hwf Hdistinct Hnf
                  {| endpoint_url := (config_of_env w).(s3_endpoint_url) |} 10
                  st objs Hmw Hf Hb) as Hok.
    cbv zeta in Hok. unfold main_prefix in Hok.
    rewrite normalize_full_s3_prefix in Hok. destruct Hok as (H1 & _ & H3 & _).
    split; [exact H1|]. rewrite H3, Hs. reflexivity. }
  intros st Hs. split; [reflexivity|exact Hs].
Qed.

Lemma success_main (st : state) :
  fs st = f0 -> s3 st = s0 ->
  fst (main w st) = Raise (SystemExit 0)
  /\ s3 (snd (main w st))
     = <[(config_of_env w).(s3_bucket) :=
           store_tasks w
             (Fs.put (Path.abs_comps (cwd w) (main_download_dir w))
                (Dir (hub_files (main_hub w))) f1)
             (completion (pool w)
                (map (task_of (main_download_dir w) (main_prefix w))
                   (files_below (Dir (hub_files (main_hub w))))))
             objs]> s0.
Proof.
  intros Hf Hs. rewrite main_unfold.
  assert (Hv : view f0 s0 (snd (main_start st))) by (split; assumption).
  pose proof (success_main_body _ Hv) as [H1 H2].
  unfold try_finally, try_except.
  destruct (main_body w (snd (main_start st))) as [r st1]. cbn [fst snd] in H1, H2.
  subst r. cbn [main_handlers is_ClientError is_HfHubHTTPError is_OSError
                is_Exception].
  pose proof (main_finally_returns w st1) as Hr.
  pose proof (main_finally_s3 w st1) as Hs3.
  destruct (main_finally w st1) as [[u|e] st2]; cbn [fst snd] in *;
    [|discriminate Hr].
  split; [reflexivity|]. rewrite Hs3. exact H2.
Qed.

End Success.

(** X9. The run that does the work.  When the environment is valid, neither
    the client factory nor the listing fails, the bucket exists and holds no
    object under the model's prefix, [mkdtemp] can make its directory, the
    hub delivers a tree with proper and distinct names and reports the
    directory it was given, and no upload under the prefix fails, then [main]
    ends by [SystemExit(0)] and afterwards every regular file the hub
    delivered is in the bucket under the key made of the model's prefix and
    the file's relative path, with the file's content, while every object of
    another bucket or outside the prefix is what it was.  This holds for
    every order of completion, and whether or not the final removal of the
    directory succeeds. *)
Theorem main_stores_the_model :
  forall (w : world) (st : state) (f1 : node) (objs : gmap string string),
    env_valid w = true ->
    client_fault w = None ->
    list_fault w = None ->
    Path.isabs (cwd w) = true ->
    s3 st !! (config_of_env w).(s3_bucket) = Some objs ->
    (forall key, is_Some (objs !! key) ->
                 Py.startswith (main_prefix w) key = false) ->
    Fs.make_dir (fs st) (cwd w) (main_download_dir w) = Some f1 ->
    hub_result (main_hub w) = Ok (main_download_dir w) ->
    wf_node (Dir (hub_files (main_hub w))) = true ->
    distinct_names (Dir (hub_files (main_hub w))) = true ->
    (forall k, Py.startswith (main_prefix w) k = true -> upload_fault w k = None) ->
    let st' := snd (main w st) in
    let bucket := (config_of_env w).(s3_bucket) in
    fst (main w st) = Raise (SystemExit 0)
    /\ (forall names content,
          Fs.resolve names (Dir (hub_files (main_hub w))) = Some (File content) ->
          object st' bucket (main_prefix w +:+ Py.str_join "/" names) = Some content)
    /\ (forall b k,
          b <> bucket \/ Py.startswith (main_prefix w) k = false ->
          object st' b k = object st b k).
Proof.
  intros w st f1 objs Henv Hclient Hlist Hcwd Hbucket Habsent Hmk Hhub Hwf Hd Hup.
  destruct (success_main w (fs st) f1 (s3 st) objs Henv Hclient Hlist Hcwd Hbucket
              Habsent Hmk Hhub Hwf Hd Hup st eq_refl eq_refl) as [H1 H2].
  destruct (store_tasks_below w (main_download_dir w) (main_prefix w) _ _
              (success_downloaded w (fs st) f1 Hmk) Hwf
              (completion (pool w)
                 (map (task_of (main_download_dir w) (normalize_prefix (main_prefix w)))
                    (files_below (Dir (hub_files (main_hub w))))))
              objs (Permutation_sym (completion_perm (pool w) _))) as [S1 S2].
  unfold main_prefix in S1, S2 at 1 2.
  rewrite normalize_full_s3_prefix in S1, S2. fold (main_prefix w) in S1, S2.
  cbv zeta. split; [exact H1|]. unfold object. rewrite H2. split.
  - intros names content Hc. rewrite lookup_insert_eq. cbn [mbind option_bind].
    apply S1, Hc.
  - intros b k Hor. destruct (decide (b = (config_of_env w).(s3_bucket))) as [->|Hne].
    + destruct Hor as [Hor|Hor]; [contradiction|].
      rewrite lookup_insert_eq, Hbucket. cbn [mbind option_bind]. apply S2.
      intros names _ ->. rewrite startswith_append in Hor. discriminate Hor.
    + rewrite lookup_insert_ne by auto. reflexivity.
Qed.

Lemma main_stores_the_model_witness :
  fst (main Examples.test_world Examples.fresh_state) = Raise (SystemExit 0)
  /\ object (snd (main Examples.test_world Examples.fresh_state))
       "test-bucket" "models/gpt2/a/b.txt" = Some "bbb".
Proof.
  destruct (main_stores_the_model Examples.test_world Examples.fresh_state
              (Dir [("tmp", Dir [("hf_model_k3x9_q1z", Dir [])]); ("app", Dir [])])
              ∅)
    as (H1 & H2 & _);
    [vm_compute; reflexivity|reflexivity|reflexivity|reflexivity
    |vm_compute; reflexivity
    |intros key [c Hc]; rewrite lookup_empty in Hc; discriminate Hc
    |vm_compute; reflexivity|reflexivity|reflexivity|vm_compute; reflexivity
    |intros; reflexivity|].
  split; [exact H1|]. apply (H2 ["a"; "b.txt"] "bbb"). reflexivity.
Defined.

(** [DOWNLOAD_DIR] through a directory that is not there: [mkdtemp] fails,
    and the run ends with status 1, nothing made and nothing stored. *)
Example main_missing_download_dir_ex :
  let r := main (Examples.download_dir_world "/nope/../tmp") Examples.fresh_state in
  exit_status (fst r) = 1%Z
  /\ fs (snd r) = fs Examples.fresh_state
  /\ s3 (snd r) = s3 Examples.fresh_state
  /\ fs_events (trace (snd r)) = []
  /\ In (Log ERROR "FAILED: Filesystem error") (trace (snd r)).
Proof. vm_compute. repeat split. tauto. Qed.

(** ** What the patterns of [validate_inputs] accept *)

Lemma fullmatch_Void (s : string) : Re.fullmatch Re.Void s = false.
Proof. induction s as [|c s IH]; [reflexivity|exact IH]. Qed.

Lemma fullmatch_Alt (r1 r2 : Re.regex) (s : string) :
  Re.fullmatch (Re.Alt r1 r2) s = Re.fullmatch r1 s || Re.fullmatch r2 s.
Proof.
  revert r1 r2. induction s as [|c s IH]; intros r1 r2; [reflexivity|].
  cbn [Re.fullmatch Re.deriv]. apply IH.
Qed.

Lemma fullmatch_Seq (r1 r2 : Re.regex) (s : string) :
  Re.fullmatch (Re.Seq r1 r2) s = true
  <-> exists s1 s2, s = s1 +:+ s2 /\ Re.fullmatch r1 s1 = true
                    /\ Re.fullmatch r2 s2 = true.
Proof.
  revert r1. induction s as [|c s IH]; intros r1.
  - cbn [Re.fullmatch Re.nullable]. rewrite andb_true_iff. split.
    + intros [H1 H2]. exists "", "". repeat split; assumption.
    + intros (s1 & s2 & Hs & H1 & H2).
      destruct s1 as [|a s1]; [|rewrite append_cons in Hs; discriminate Hs].
      rewrite append_empty_l in Hs. subst s2. split; assumption.
  - cbn [Re.fullmatch Re.deriv]. destruct (Re.nullable r1) eqn:Hn.
    + rewrite fullmatch_Alt, orb_true_iff, IH. split.
      * intros [(s1 & s2 & -> & H1 & H2)|H].
        -- exists (String c s1), s2. rewrite append_cons. repeat split; assumption.
        -- exists "", (String c s). repeat split; assumption.
      * intros (s1 & s2 & Hs & H1 & H2). destruct s1 as [|a s1].
        -- rewrite append_empty_l in Hs. subst s2. right. exact H2.
        -- rewrite append_cons in Hs. injection Hs as <- ->.
           left. exists s1, s2. repeat split; assumption.
    + rewrite IH. split.
      * intros (s1 & s2 & -> & H1 & H2).
        exists (String c s1), s2. rewrite append_cons. repeat split; assumption.
      * intros (s1 & s2 & Hs & H1 & H2). destruct s1 as [|a s1].
        -- cbn [Re.fullmatch] in H1. rewrite Hn in H1. discriminate H1.
        -- rewrite append_cons in Hs. injection Hs as <- ->.
           exists s1, s2. repeat split; assumption.
Qed.

Lemma fullmatch_Eps (s : string) : Re.fullmatch Re.Eps s = true <-> s = "".
Proof.
  destruct s as [|c s]; [split; reflexivity|]. cbn [Re.fullmatch Re.deriv].
  rewrite fullmatch_Void. split; discriminate.
Qed.

Lemma fullmatch_Cls (p : ascii -> bool) (s : string) :
  Re.fullmatch (Re.Cls p) s = true <-> exists c, s = String c "" /\ p c = true.
Proof.
  destruct s as [|c s]; cbn [Re.fullmatch Re.deriv Re.nullable].
  - split; [discriminate|]. intros (c & H & _). discriminate H.
  - destruct (p c) eqn:Hp.
    + rewrite fullmatch_Eps. split.
      * intros ->. exists c. split; [reflexivity|exact Hp].
      * intros (c' & [= -> ->] & _). reflexivity.
    + rewrite fullmatch_Void. split; [discriminate|].
      intros (c' & [= <- _] & H). congruence.
Qed.

Lemma fullmatch_Seq_Cls (p : ascii -> bool) (r : Re.regex) (s : string) :
  Re.fullmatch (Re.Seq (Re.Cls p) r) s
  = match s with
    | String c s' => p c && Re.fullmatch r s'
    | EmptyString => false
    end.
Proof.
  apply eq_true_iff_eq. rewrite fullmatch_Seq. split.
  - intros (s1 & s2 & -> & H1 & H2).
    apply fullmatch_Cls in H1 as (c & -> & Hc).
    rewrite append_cons, append_empty_l, Hc. exact H2.
  - destruct s as [|c s]; [discriminate|]. intros H.
    apply andb_prop in H as [Hc Hr]. exists (String c ""), s.
    split; [reflexivity|]. split; [|exact Hr].
    apply fullmatch_Cls. exists c. split; [reflexivity|exact Hc].
Qed.

Lemma fullmatch_Star_Cls (p : ascii -> bool) (s : string) :
  Re.fullmatch (Re.Star (Re.Cls p)) s = all_chars p s.
Proof.
  induction s as [|c s IH]; [reflexivity|].
  cbn [Re.fullmatch Re.deriv all_chars]. destruct (p c); cbn [andb].
  - rewrite <- IH. apply eq_true_iff_eq. rewrite fullmatch_Seq. split.
    + intros (s1 & s2 & -> & H1 & H2). apply fullmatch_Eps in H1 as ->.
      exact H2.
    + intros H. exists "", s. repeat split. exact H.
  - apply not_true_is_false. rewrite fullmatch_Seq.
    intros (s1 & s2 & _ & H1 & _). rewrite fullmatch_Void in H1. discriminate H1.
Qed.

Lemma fullmatch_Rep_Cls (p : ascii -> bool) (s : string) :
  forall lo hi,
    Re.fullmatch (Re.Rep (Re.Cls p) lo hi) s
    = (lo <=? Py.len s)%nat && (Py.len s <=? hi)%nat && all_chars p s.
Proof.
  induction s as [|c s IH]; intros lo hi.
  - cbn [Re.fullmatch Re.nullable all_chars Py.len String.length].
    destruct lo; reflexivity.
  - cbn [Re.fullmatch Re.deriv all_chars]. destruct hi as [|hi].
    + rewrite fullmatch_Void. unfold Py.len. cbn [String.length].
      destruct (lo <=? _)%nat; reflexivity.
    + transitivity (p c && Re.fullmatch (Re.Rep (Re.Cls p) (Nat.pred lo) hi) s).
      * destruct (p c); cbn [andb].
        -- apply eq_true_iff_eq. rewrite fullmatch_Seq. split.
           ++ intros (s1 & s2 & -> & H1 & H2). apply fullmatch_Eps in H1 as ->.
              exact H2.
           ++ intros H. exists "", s. repeat split. exact H.
        -- apply not_true_is_false. rewrite fullmatch_Seq.
           intros (s1 & s2 & _ & H1 & _). rewrite fullmatch_Void in H1.
           discriminate H1.
      * rewrite IH. unfold Py.len. cbn [String.length].
        replace (Nat.pred lo <=? String.length s)%nat
          with (lo <=? S (String.length s))%nat
          by (destruct lo; reflexivity).
        change (S (String.length s) <=? S hi)%nat
          with (String.length s <=? hi)%nat.
        destruct (p c), (lo <=? _)%nat, (_ <=? hi)%nat; reflexivity.
Qed.

Lemma fullmatch_Opt (r : Re.regex) (s : string) :
  Re.fullmatch (Re.Opt r) s = String.eqb s "" || Re.fullmatch r s.
Proof. destruct s as [|c s]; reflexivity. Qed.

Lemma all_chars_append (p : ascii -> bool) (a b : string) :
  all_chars p (a +:+ b) = all_chars p a && all_chars p b.
Proof.
  induction a as [|c a IH]; [reflexivity|].
  rewrite append_cons. cbn [all_chars]. rewrite IH. apply andb_assoc.
Qed.

Lemma all_chars_no_char (p : ascii -> bool) (c : ascii) (s : string) :
  p c = false -> all_chars p s = true -> has_char c s = false.
Proof.
  intros Hc. induction s as [|a s IH]; [reflexivity|].
  cbn [all_chars has_char]. intros H. apply andb_prop in H as [Ha Hs].
  rewrite (IH Hs), orb_false_r. apply Ascii.eqb_neq. intros ->. congruence.
Qed.

Lemma all_chars_impl (p q : ascii -> bool) (s : string) :
  (forall c, p c = true -> q c = true) -> all_chars p s = true -> all_chars q s = true.
Proof.
  intros Hpq. induction s as [|a s IH]; [reflexivity|]. cbn [all_chars].
  intros H. apply andb_prop in H as [Ha Hs]. rewrite (Hpq a Ha), (IH Hs). reflexivity.
Qed.

Lemma string_snoc (s : string) :
  s <> "" -> exists mid z, s = mid +:+ String z "".
Proof.
  induction s as [|c s IH]; [congruence|]. intros _.
  destruct s as [|c' s].
  - exists "", c. reflexivity.
  - destruct IH as (mid & z & ->); [discriminate|].
    exists (String c mid), z. reflexivity.
Qed.

Lemma last_char_snoc (p : ascii -> bool) (mid : string) (z : ascii) :
  last_char p (mid +:+ String z "") = p z.
Proof.
  induction mid as [|c mid IH]; [reflexivity|].
  rewrite append_cons. cbn [last_char]. rewrite IH.
  destruct mid; reflexivity.
Qed.

Lemma fullmatch_Seq_snoc_Cls (r : Re.regex) (p : ascii -> bool) (s : string) :
  Re.fullmatch (Re.Seq r (Re.Cls p)) s = true
  <-> exists mid z, s = mid +:+ String z "" /\ Re.fullmatch r mid = true
                    /\ p z = true.
Proof.
  rewrite fullmatch_Seq. split.
  - intros (s1 & s2 & -> & H1 & H2). apply fullmatch_Cls in H2 as (z & -> & Hz).
    exists s1, z. repeat split; assumption.
  - intros (mid & z & -> & H1 & Hz). exists mid, (String z "").
    split; [reflexivity|]. split; [exact H1|].
    apply fullmatch_Cls. exists z. split; [reflexivity|exact Hz].
Qed.

Lemma lower_digit_in_class (c : ascii) :
  lower_digit c = true -> lower_digit_dot_dash c = true.
Proof. intros H. unfold lower_digit_dot_dash. rewrite H. reflexivity. Qed.

(** The pattern of the bucket names says what [bucket_ok] says. *)
Lemma fullmatch_bucket_pattern (s : string) :
  Re.fullmatch bucket_pattern s = bucket_ok s.
Proof.
  unfold bucket_pattern. rewrite fullmatch_Seq_Cls.
  destruct s as [|c s]; [reflexivity|].
  apply eq_true_iff_eq. rewrite andb_true_iff, fullmatch_Seq_snoc_Cls. split.
  - intros (Hc & mid & z & -> & Hmid & Hz).
    rewrite fullmatch_Rep_Cls in Hmid.
    apply andb_prop in Hmid as [Hlen Hall]. apply andb_prop in Hlen as [Hlo Hhi].
    apply Nat.leb_le in Hlo, Hhi.
    unfold bucket_ok. cbn [all_chars]. rewrite Hc, (lower_digit_in_class c Hc).
    rewrite all_chars_append, Hall. cbn [all_chars andb].
    rewrite (lower_digit_in_class z Hz). cbn [andb].
    assert (Hl : Py.len (String c (mid +:+ String z "")) = 2 + Py.len mid).
    { change (Py.len (String c (mid +:+ String z "")))
        with (S (Py.len (mid +:+ String z ""))).
      rewrite len_append. cbn. lia. }
    rewrite Hl.
    replace (3 <=? 2 + Py.len mid)%nat with true
      by (symmetry; apply Nat.leb_le; lia).
    replace (2 + Py.len mid <=? 63)%nat with true
      by (symmetry; apply Nat.leb_le; lia).
    cbn [andb]. rewrite <- append_cons, last_char_snoc. exact Hz.
  - unfold bucket_ok. intros H.
    apply andb_prop in H as [H Hlast]. apply andb_prop in H as [H Hc].
    apply andb_prop in H as [H Hall]. apply andb_prop in H as [Hlo Hhi].
    apply Nat.leb_le in Hlo, Hhi. split; [exact Hc|].
    destruct (string_snoc s) as (mid & z & ->).
    { intros ->. cbn in Hlo. lia. }
    assert (Hl : Py.len (String c (mid +:+ String z "")) = 2 + Py.len mid).
    { change (Py.len (String c (mid +:+ String z "")))
        with (S (Py.len (mid +:+ String z ""))).
      rewrite len_append. cbn. lia. }
    rewrite Hl in Hlo, Hhi.
    exists mid, z. split; [reflexivity|]. cbn [all_chars] in Hall.
    apply andb_prop in Hall as [_ Hall]. rewrite all_chars_append in Hall.
    apply andb_prop in Hall as [Hmid _]. split.
    + rewrite fullmatch_Rep_Cls, Hmid, andb_true_r.
      apply andb_true_iff. split; apply Nat.leb_le; lia.
    + rewrite <- append_cons, last_char_snoc in Hlast. exact Hlast.
Qed.

Lemma fullmatch_segment (s : string) :
  Re.fullmatch (Re.Seq (Re.Cls alnum) (Re.Star (Re.Cls alnum_dot_us_dash))) s
  = segment_ok s.
Proof.
  rewrite fullmatch_Seq_Cls. destruct s as [|c s]; [reflexivity|].
  rewrite fullmatch_Star_Cls. reflexivity.
Qed.

Lemma segment_no_slash (s : string) :
  segment_ok s = true -> has_char "/" s = false.
Proof.
  destruct s as [|c s]; [discriminate|]. cbn [segment_ok has_char].
  intros H. apply andb_prop in H as [Hc Hs].
  rewrite (all_chars_no_char alnum_dot_us_dash "/" s eq_refl Hs), orb_false_r.
  apply Ascii.eqb_neq. intros ->. discriminate Hc.
Qed.

Lemma str_join_split (c : ascii) (s : string) :
  Py.str_join (String c "") (Py.split c s) = s.
Proof.
  induction s as [|a s IH]; [reflexivity|]. cbn [Py.split].
  pose proof (split_not_nil c s) as Hne.
  destruct (Ascii.eqb a c) eqn:E.
  - apply Ascii.eqb_eq in E as ->.
    destruct (Py.split c s) as [|x l]; [contradiction|].
    cbn [Py.str_join] in *. rewrite IH. reflexivity.
  - destruct (Py.split c s) as [|x l]; [contradiction|].
    destruct l as [|y l]; cbn [Py.str_join] in *; rewrite <- IH; reflexivity.
Qed.

(** The pattern of the model names says what [model_ok] says. *)
Lemma fullmatch_model_pattern (s : string) :
  Re.fullmatch model_pattern s = model_ok s.
Proof.
  apply eq_true_iff_eq. unfold model_pattern, Re.lit.
  transitivity (segment_ok s = true
                \/ exists a b, s = a +:+ String "/" b
                               /\ segment_ok a = true /\ segment_ok b = true).
  - rewrite fullmatch_Seq_Cls. destruct s as [|c s].
    { split; [discriminate|]. intros [H|(a & b & H & Ha & _)]; [discriminate H|].
      destruct a; [discriminate Ha|discriminate H]. }
    rewrite andb_true_iff, fullmatch_Seq. split.
    + intros (Hc & s1 & s2 & -> & H1 & H2).
      rewrite fullmatch_Star_Cls in H1. rewrite fullmatch_Opt in H2.
      apply orb_prop in H2 as [H2|H2].
      * apply String.eqb_eq in H2 as ->. left. rewrite append_empty_r.
        cbn [segment_ok]. rewrite Hc, H1. reflexivity.
      * rewrite fullmatch_Seq_Cls in H2. destruct s2 as [|c2 s2]; [discriminate H2|].
        apply andb_prop in H2 as [Hsl Hb]. apply Ascii.eqb_eq in Hsl as <-.
        rewrite fullmatch_segment in Hb.
        right. exists (String c s1), s2. split; [reflexivity|].
        cbn [segment_ok]. rewrite Hc, H1. split; [reflexivity|exact Hb].
    + intros [H|(a & b & Hs & Ha & Hb)].
      * cbn [segment_ok] in H. apply andb_prop in H as [Hc Hs].
        split; [exact Hc|]. exists s, "". rewrite append_empty_r.
        split; [reflexivity|]. rewrite fullmatch_Star_Cls. split; [exact Hs|reflexivity].
      * destruct a as [|c' a]; [discriminate Ha|].
        rewrite append_cons in Hs. injection Hs as <- ->.
        cbn [segment_ok] in Ha. apply andb_prop in Ha as [Hc Ha].
        split; [exact Hc|]. exists a, (String "/" b). split; [reflexivity|].
        rewrite fullmatch_Star_Cls. split; [exact Ha|].
        rewrite fullmatch_Opt, fullmatch_Seq_Cls, Ascii.eqb_refl, fullmatch_segment, Hb.
        apply orb_true_r.
  - unfold model_ok. split.
    + intros [H|(a & b & -> & Ha & Hb)].
      * rewrite (split_no_char _ _ (segment_no_slash _ H)). exact H.
      * rewrite split_append_sep.
        rewrite (split_no_char _ _ (segment_no_slash _ Ha)).
        rewrite (split_no_char _ _ (segment_no_slash _ Hb)).
        cbn [app]. rewrite Ha, Hb. reflexivity.
    + pose proof (str_join_split "/" s) as Hj.
      destruct (Py.split "/" s) as [|a [|b [|x l]]]; try discriminate.
      * intros H. left. cbn [Py.str_join] in Hj. subst a. exact H.
      * intros H. apply andb_prop in H as [Ha Hb]. right. exists a, b.
        cbn [Py.str_join] in Hj. split; [symmetry; exact Hj|]. split; assumption.
Qed.

Lemma chomp_Some (s s' : string) :
  Re.chomp s = Some s' <-> s = s' +:+ newline.
Proof.
  revert s'. induction s as [|c s IH]; intros s'.
  - split; [discriminate|]. destruct s'; discriminate.
  - destruct s as [|c' s].
    + cbn [Re.chomp]. destruct (Ascii.eqb c "010") eqn:E.
      * apply Ascii.eqb_eq in E as ->. split.
        -- intros [= <-]. reflexivity.
        -- destruct s' as [|a s']; [reflexivity|].
           rewrite append_cons. intros [= _ H]. destruct s'; discriminate H.
      * split; [discriminate|]. apply Ascii.eqb_neq in E.
        destruct s' as [|a s'].
        -- intros [= H]. congruence.
        -- rewrite append_cons. intros [= _ H]. destruct s'; discriminate H.
    + change (Re.chomp (String c (String c' s)))
        with (option_map (String c) (Re.chomp (String c' s))).
      destruct (Re.chomp (String c' s)) as [t|]; cbn [option_map].
      * split.
        -- intros [= <-]. rewrite append_cons. f_equal. apply IH. reflexivity.
        -- intros H. destruct s' as [|a s'']; [discriminate H|].
           rewrite append_cons in H. injection H as <- H.
           apply IH in H. injection H as ->. reflexivity.
      * split; [discriminate|]. intros H.
        destruct s' as [|a s'']; [discriminate H|].
        rewrite append_cons in H. injection H as <- H.
        apply IH in H. discriminate H.
Qed.

Lemma py_match_iff (r : Re.regex) (s : string) :
  Re.py_match r s = true
  <-> Re.fullmatch r s = true
      \/ exists s', s = s' +:+ newline /\ Re.fullmatch r s' = true.
Proof.
  unfold Re.py_match. rewrite orb_true_iff. split.
  - intros [H|H]; [left; exact H|right].
    destruct (Re.chomp s) as [s'|] eqn:E; [|discriminate H].
    exists s'. split; [apply chomp_Some, E|exact H].
  - intros [H|(s' & Hs & H)]; [left; exact H|right].
    apply chomp_Some in Hs. rewrite Hs. exact H.
Qed.

(** X10. [validate_inputs] returns normally exactly when: the model name is
    one part, or two parts separated by one slash, each part a letter or
    digit followed by letters, digits, dots, underscores and hyphens; the
    bucket name has 3 to 63 characters, all of them lowercase letters,
    digits, dots or hyphens, the first and the last a lowercase letter or a
    digit; the prefix neither contains [..] nor starts with a slash.  Since
    [$] also matches before a line feed that ends the string, a model name
    and a bucket name are accepted as well when they are such a name followed
    by one line feed. *)
Theorem validate_inputs_accepts_exactly :
  forall (m b p : string) (st : state),
    fst (validate_inputs m b p st) = Ok tt
    <-> ok_up_to_newline model_ok m
        /\ ok_up_to_newline bucket_ok b
        /\ Py.contains ".." p = false
        /\ Py.startswith "/" p = false.
Proof.
  intros m b p st. rewrite validate_inputs_result. unfold inputs_ok.
  rewrite !andb_true_iff, !negb_true_iff, !py_match_iff.
  unfold ok_up_to_newline.
  setoid_rewrite fullmatch_model_pattern.
  setoid_rewrite fullmatch_bucket_pattern. tauto.
Qed.

(** ** What [cleanup_local_files] does *)





(** A regular file, the empty path and a path through a directory that is
    not there: [cleanup_local_files] removes nothing. *)
Example cleanup_local_files_ex :
  let st := {| fs := Dir [("tmp", Dir [("f", File "x")])];
               s3 := ∅; var_download_dir := None; trace := [] |} in
  let run d := cleanup_local_files Examples.test_world d st in
  snd (run "/tmp/f")
  = {| fs := fs st; s3 := ∅; var_download_dir := None;
       trace := [Log INFO "Cleaning up local files: /tmp/f"; EvRmtree "/tmp/f";
                 Log WARNING "Cleanup failed (non-fatal): not a directory: /tmp/f"] |}
  /\ snd (run "")
     = {| fs := fs st; s3 := ∅; var_download_dir := None;
          trace := [Log INFO "Cleaning up local files: ";
                    Log INFO "Directory does not exist, skipping cleanup"] |}
  /\ snd (run "/nonexistent/../tmp")
     = {| fs := fs st; s3 := ∅; var_download_dir := None;
          trace := [Log INFO "Cleaning up local files: /nonexistent/../tmp";
                    Log INFO "Directory does not exist, skipping cleanup"] |}
  /\ snd (run "/tmp/f/")
     = {| fs := fs st; s3 := ∅; var_download_dir := None;
          trace := [Log INFO "Cleaning up local files: /tmp/f/";
                    Log INFO "Directory does not exist, skipping cleanup"] |}.
Proof. vm_compute. repeat split. Qed.

(** ** What a run can change in the store *)

Lemma store_written_under_refl bucket pre st : store_written_under bucket pre st st.
Proof. repeat split; auto. Qed.

Lemma store_written_under_s3 bucket pre st0 st st' :
  s3 st' = s3 st ->
  store_written_under bucket pre st0 st -> store_written_under bucket pre st0 st'.
Proof.
  intros Hs (H1 & H2 & H3). unfold store_written_under, object in *.
  rewrite Hs. repeat split; [apply H1|apply H1|exact H2|exact H3].
Qed.

Lemma store_written_under_upload w client local_dir bucket pre n st0 st :
  store_written_under bucket (normalize_prefix pre) st0 st ->
  store_written_under bucket (normalize_prefix pre) st0
    (snd (upload_directory_to_s3 w client local_dir bucket pre n st)).
Proof.
  intros H.
  assert (H0 : written_under bucket (normalize_prefix pre)
                 {| fs := fs st; s3 := s3 st0;
                    var_download_dir := var_download_dir st;
                    trace := trace st0 |} st).
  { split; [reflexivity|]. split; [reflexivity|]. exact H. }
  apply (written_under_upload_directory_to_s3 w client local_dir bucket pre n) in H0.
  destruct H0 as (_ & _ & H0). exact H0.
Qed.

Lemma main_try_store (w : world) (st0 : state) :
  inv (store_written_under (config_of_env w).(s3_bucket) (main_prefix w) st0)
    (try_except (main_body w) main_handlers).
Proof.
  set (I := store_written_under (config_of_env w).(s3_bucket) (main_prefix w) st0).
  intros st H.
  pose proof (phases_main_try w I (fun _ => I) (fun _ => I)) as Hp.
  assert (Hq : hoare I (try_except (main_body w) main_handlers)
                 (fun _ st => I st \/ exists d : string, I st)).
  { apply Hp.
    - intros st' e _ H'. exact H'.
    - intros d st' e _ H'. exact H'.
    - intros dir st' H'. unfold mkdtemp. cbv zeta. rewrite bind_run. unfold get.
      cbv beta iota. destruct (Fs.make_dir (fs st') (cwd w) _); exact H'.
    - intros d st' H'. exact H'.
    - intros d repo_id token st' H'. unfold snapshot_download. cbv zeta.
      unfold_M. cbn [fst snd]. destruct (hub_result _); exact H'.
    - intros d client st' H'. unfold I, main_prefix in *.
      rewrite <- normalize_full_s3_prefix in H' |- * at 1.
      pose proof (store_written_under_upload w client d
                    (config_of_env w).(s3_bucket)
                    (full_s3_prefix (s3_prefix (config_of_env w))
                       (model_name (config_of_env w))) 10 st0 st' H') as H2.
      exact H2. }
  destruct (Hq st H) as [H1|[_ H1]]; exact H1.
Qed.

(** X12. However a run of [main] goes and ends (whatever the environment,
    the faults of the store and of the hub, the content the hub delivers and
    the order of the uploads), it changes the store in objects of the
    configured bucket under the model's prefix at most: no bucket is created
    or removed, no object is deleted, and every object of another bucket or
    with a key outside the prefix keeps its content. *)
Theorem main_writes_only_under_prefix :
  forall (w : world) (st : state),
    store_written_under (config_of_env w).(s3_bucket) (main_prefix w) st
      (snd (main w st)).
Proof.
  intros w st. rewrite main_unfold. unfold try_finally.
  pose proof (main_try_store w st (snd (main_start st))
                (store_written_under_refl _ _ st)) as H.
  destruct (try_except (main_body w) main_handlers (snd (main_start st)))
    as [r st1]. cbn [snd] in H.
  pose proof (main_finally_s3 w st1) as Hs.
  destruct (main_finally w st1) as [[u|e] st2]; cbn [snd] in *;
    exact (store_written_under_s3 _ _ _ _ _ Hs H).
Qed.

(** ** What the exit status 0 means *)

Lemma failure_not_exit_0 : ~ failure (SystemExit 0).
Proof. intros [H|H]; discriminate H. Qed.

Lemma bind_exit_0 {A B} (m : M A) (k : A -> M B) (st : state) :
  raises failure m ->
  fst ((m ≫= k) st) = Raise (SystemExit 0) ->
  exists a, fst (m st) = Ok a /\ fst (k a (snd (m st))) = Raise (SystemExit 0).
Proof.
  intros Hm. specialize (Hm st). rewrite bind_run.
  destruct (m st) as [[a|e] st1]; cbn [fst snd] in *.
  - intros H. exists a. split; [reflexivity|exact H].
  - intros [= ->]. destruct (failure_not_exit_0 Hm).
Qed.

Lemma bind_returns {A B} (m : M A) (k : A -> M B) (st : state) (b : B) :
  fst ((m ≫= k) st) = Ok b ->
  exists a, fst (m st) = Ok a /\ fst (k a (snd (m st))) = Ok b.
Proof.
  rewrite bind_run. destruct (m st) as [[a|e] st1]; cbn [fst snd].
  - intros H. exists a. split; [reflexivity|exact H].
  - discriminate.
Qed.

Lemma model_exists_in_s3_found w client bucket prefix st :
  fst (model_exists_in_s3 w client bucket prefix st) = Ok true ->
  exists key, Py.startswith prefix key = true /\ is_Some (object st bucket key).
Proof.
  unfold model_exists_in_s3, list_objects_v2.
  rewrite bind_log_run. unfold try_except. rewrite !bind_run. cbn [emit].
  destruct (list_fault w) as [e|].
  - cbn [raise fst snd]. destruct (is_ClientError e); discriminate.
  - rewrite bind_run. unfold get. cbv beta iota. cbn [snd log emit s3].
    unfold object. destruct (s3 st !! bucket) as [objs|]; [|discriminate].
    cbv zeta.
    destruct (take 1 (List.filter (Py.startswith prefix)
                        (map fst (map_to_list objs)))) as [|k ks] eqn:Hk;
      [discriminate|].
    intros _. destruct (take_one_filter_cons _ _ _ _ Hk) as [Hin Hpre].
    apply in_map_iff in Hin as [[k0 c] [Hfst Hin]]. cbn [fst] in Hfst. subst k0.
    apply list_elem_of_In, elem_of_map_to_list in Hin.
    exists k. split; [exact Hpre|]. cbn [mbind option_bind]. rewrite Hin.
    eexists. reflexivity.
Qed.

Lemma mkdtemp_returns_inv w name_prefix dir st d :
  fst (mkdtemp w name_prefix dir st) = Ok d ->
  d = Path.join2 dir (name_prefix +:+ mkdtemp_name w)
  /\ Fs.make_dir (fs st) (cwd w) d
     = Some (fs (snd (mkdtemp w name_prefix dir st)))
  /\ s3 (snd (mkdtemp w name_prefix dir st)) = s3 st.
Proof.
  unfold mkdtemp. cbv zeta. rewrite bind_run. unfold get. cbv beta iota.
  destruct (Fs.make_dir (fs st) (cwd w) _) as [f1|] eqn:Hmk; [|discriminate].
  intros [= <-]. rewrite Hmk. repeat split.
Qed.

Lemma download_model_from_hf_state w model d token st :
  fs (snd (download_model_from_hf w model d token st))
  = Fs.put (Path.abs_comps (cwd w) d) (Dir (hub_files (hub w model d token))) (fs st)
  /\ s3 (snd (download_model_from_hf w model d token st)) = s3 st.
Proof.
  unfold download_model_from_hf, snapshot_download, path_exists, rglob_file_count.
  cbv zeta. unfold_M. cbn [fst snd fs s3 trace var_download_dir].
  destruct (hub_result (hub w model d token)) as [p|e];
    cbn [fst snd fs s3 trace var_download_dir]; [|split; reflexivity].
  destruct (bool_decide _); cbn [negb fst snd fs s3 trace var_download_dir];
    [|split; reflexivity].
  destruct (_ =? 0)%nat; split; reflexivity.
Qed.

Lemma run_task_returns_inv w client bucket (t : task) st n :
  fst (run_task w client bucket t st) = Ok n ->
  exists objs,
    s3 st !! bucket = Some objs
    /\ fs (snd (run_task w client bucket t st)) = fs st
    /\ s3 (snd (run_task w client bucket t st))
       = <[bucket := <[snd (fst t) := content_of w (fs st) t]> objs]> (s3 st).
Proof.
  unfold run_task, upload_file_to_s3. rewrite bind_run, upload_file_run. cbv zeta.
  unfold content_of.
  destruct (upload_fault w (snd (fst t))); [discriminate|].
  destruct (Fs.stat (fs st) (cwd w) (fst (fst t))) as [[content|es]|] eqn:Hr;
    [|discriminate|discriminate].
  destruct (s3 st !! bucket) as [objs|]; [|discriminate].
  rewrite getsize_run. cbn [fst snd set_s3 emit fs s3]. intros _.
  exists objs. repeat split.
Qed.

Lemma as_completed_loop_returns_inv w client bucket (completed : list task) :
  forall total count st acc objs,
    fst (as_completed_loop w client bucket completed total count st) = Ok acc ->
    s3 st !! bucket = Some objs ->
    s3 (snd (as_completed_loop w client bucket completed total count st))
    = <[bucket := store_tasks w (fs st) completed objs]> (s3 st).
Proof.
  induction completed as [|t completed IH]; intros total count st acc objs Hr Hb.
  - cbn. symmetry. apply insert_id, Hb.
  - rewrite as_completed_loop_step in Hr |- *.
    pose proof (run_task_returns_inv w client bucket t st) as Hinv.
    destruct (run_task w client bucket t st) as [[n|e] st1]; [|discriminate Hr].
    destruct (Hinv n eq_refl) as (objs' & Hb' & Hf & Hs). cbn [fst snd] in *.
    rewrite Hb in Hb'. injection Hb' as <-.
    match goal with
    | |- context [as_completed_loop w client bucket completed ?a ?b ?s] =>
        rewrite (IH a b s acc (<[snd (fst t) := content_of w (fs st) t]> objs) Hr)
    end.
    + cbn [snd tqdm_write emit s3 fs]. rewrite Hs, Hf, insert_insert_eq.
      reflexivity.
    + cbn [snd tqdm_write emit s3]. rewrite Hs. apply lookup_insert_eq.
Qed.

Lemma as_completed_loop_returns_bucket w client bucket (t : task) completed
    total count st acc :
  fst (as_completed_loop w client bucket (t :: completed) total count st) = Ok acc ->
  is_Some (s3 st !! bucket).
Proof.
  rewrite as_completed_loop_step. intros Hr.
  pose proof (run_task_returns_inv w client bucket t st) as Hinv.
  destruct (run_task w client bucket t st) as [[n|e] st1]; [|discriminate Hr].
  destruct (Hinv n eq_refl) as (objs & Hb & _). exists objs. exact Hb.
Qed.

(** A directory that was uploaded without an error is in the store. *)
Lemma upload_directory_to_s3_returns_inv w client local_dir bucket pre n st es u :
  Path.isabs (cwd w) = true ->
  Fs.stat (fs st) (cwd w) local_dir = Some (Dir es) ->
  wf_node (Dir es) = true ->
  fst (upload_directory_to_s3 w client local_dir bucket pre n st) = Ok u ->
  forall names content,
    Fs.resolve names (Dir es) = Some (File content) ->
    object (snd (upload_directory_to_s3 w client local_dir bucket pre n st)) bucket
      (normalize_prefix pre +:+ Py.str_join "/" names) = Some content.
Proof.
  intros Hcwd Hdir Hwf Hr names content Hc.
  pose proof (resolve_files_below _ _ _ Hc) as Hin.
  pose proof (Permutation_sym
                (completion_perm (pool w)
                   (map (task_of local_dir (normalize_prefix pre))
                      (files_below (Dir es))))) as Hperm.
  revert Hr. unfold upload_directory_to_s3. cbv zeta.
  rewrite bind_log_run, bind_run.
  match goal with
  | |- context [files_to_upload w local_dir pre ?s] =>
      rewrite (files_to_upload_below w local_dir pre s es Hcwd Hdir Hwf)
  end.
  cbv beta iota.
  destruct (map (task_of local_dir (normalize_prefix pre)) (files_below (Dir es)))
    as [|t tasks] eqn:Etasks.
  { apply map_eq_nil in Etasks. rewrite Etasks in Hin. destruct Hin. }
  rewrite bind_log_run.
  destruct n as [|workers]; [rewrite bind_run; discriminate|].
  rewrite thread_pool_executor_run by lia. rewrite bind_run.
  match goal with
  | |- context [as_completed_loop w client bucket ?c 0 0 ?s] =>
      pose proof (as_completed_loop_returns_inv w client bucket c 0 0 s) as Hinv;
      destruct (as_completed_loop w client bucket c 0 0 s) as [[acc|e] st3] eqn:El
  end; [|discriminate].
  intros _. cbn [fst snd] in Hinv.
  assert (Hb : is_Some (s3 st !! bucket)).
  { destruct (completion (pool w) (t :: tasks)) as [|t' c'] eqn:Ec.
    - apply Permutation_sym, Permutation_nil in Hperm. discriminate Hperm.
    - exact (as_completed_loop_returns_bucket w client bucket t' c' 0 0 _ acc
               (f_equal fst El)). }
  destruct Hb as [objs Hb].
  specialize (Hinv acc objs eq_refl Hb).
  unfold object. cbn [snd log emit s3]. rewrite Hinv, lookup_insert_eq.
  cbn [mbind option_bind].
  assert (Hp : Permutation
                 (map (task_of local_dir (normalize_prefix pre))
                    (files_below (Dir es)))
                 (completion (pool w) (t :: tasks)))
    by (rewrite Etasks; exact Hperm).
  destruct (store_tasks_below w local_dir pre (fs st) es Hdir Hwf
              (completion (pool w) (t :: tasks)) objs Hp) as [S1 _].
  apply S1, Hc.
Qed.

Lemma bind_exit_0_run {A B} (m : M A) (k : A -> M B) (st : state) :
  raises failure m ->
  fst ((m ≫= k) st) = Raise (SystemExit 0) ->
  exists a, fst (m st) = Ok a /\ (m ≫= k) st = k a (snd (m st)).
Proof.
  intros Hm. specialize (Hm st). rewrite bind_run.
  destruct (m st) as [[a|e] st1]; cbn [fst snd] in *.
  - intros _. exists a. split; reflexivity.
  - intros [= ->]. destruct (failure_not_exit_0 Hm).
Qed.

Lemma view_step {A} (m : M A) (f : node) (s : gmap string (gmap string string))
    (st : state) :
  inv (view f s) m -> view f s st -> view f s (snd (m st)).
Proof. intros Hi H. apply Hi, H. Qed.

Section ExitZero.

Variable w : world.
Hypothesis faults : faults_are_errors w.
Hypothesis Hcwd : Path.isabs (cwd w) = true.
Hypothesis Hwf : wf_node (Dir (hub_files (main_hub w))) = true.

Lemma main_body_exit_0 (st : state) :
  fst (main_body w st) = Raise (SystemExit 0) ->
  (exists key,
     Py.startswith (main_prefix w) key = true
     /\ is_Some (object st (config_of_env w).(s3_bucket) key))
  \/ (forall names content,
        Fs.resolve names (Dir (hub_files (main_hub w))) = Some (File content) ->
        object (snd (main_body w st)) (config_of_env w).(s3_bucket)
          (main_prefix w +:+ Py.str_join "/" names) = Some content).
Proof.
  assert (Hview : forall f s st (e : event),
             benign e = true -> view f s st -> view f s (snd (emit e st)))
    by (intros; assumption).
  unfold main_body. intros H.
  (* validate_environment *)
  destruct (bind_exit_0_run _ _ _ (raises_validate_environment w) H)
    as (cfg & Hcfg & Heq).
  rewrite Heq in H |- *. clear Heq.
  rewrite validate_environment_fst in Hcfg.
  destruct (env_valid w); [|discriminate Hcfg]. injection Hcfg as <-.
  pose proof (view_step _ _ _ st
                (inv_validate_environment _ (Hview (fs st) (s3 st)) w)
                (conj eq_refl eq_refl)) as V.
  generalize dependent (snd (validate_environment w st)). intros st1 H V.
  (* create_s3_client *)
  destruct (bind_exit_0_run _ _ _ (raises_create_s3_client w faults _ _ _) H)
    as (client & _ & Heq).
  rewrite Heq in H |- *. clear Heq.
  match goal with
  | |- context [snd (create_s3_client w ?a ?b ?c st1)] =>
      pose proof (view_step _ _ _ st1
                    (inv_create_s3_client _ (Hview (fs st) (s3 st)) w a b c) V) as V2;
      generalize dependent (snd (create_s3_client w a b c st1))
  end.
  intros st2 H V2. clear V st1. cbv zeta in H |- *.
  (* model_exists_in_s3 *)
  destruct (bind_exit_0_run _ _ _ (raises_model_exists_in_s3 w faults _ _ _) H)
    as (found & Hfound & Heq).
  rewrite Heq in H |- *. clear Heq.
  destruct found.
  { left. apply model_exists_in_s3_found in Hfound as (key & Hk & Ho).
    exists key. split; [exact Hk|]. unfold object in *.
    destruct V2 as [_ <-]. exact Ho. }
  clear Hfound.
  match goal with
  | |- context [snd (model_exists_in_s3 w ?c ?b ?p st2)] =>
      pose proof (view_step _ _ _ st2
                    (inv_model_exists_in_s3 _ (Hview (fs st) (s3 st)) w c b p) V2)
        as V3;
      generalize dependent (snd (model_exists_in_s3 w c b p st2))
  end.
  intros st3 H V3. clear V2 st2. right.
  (* the log line and mkdtemp *)
  rewrite bind_log_run in H |- *.
  destruct (bind_exit_0_run _ _ _ (raises_mkdtemp w _ _) H) as (d & Hd & Heq).
  rewrite Heq in H |- *. clear Heq.
  apply mkdtemp_returns_inv in Hd as (Hdir & Hmk & Hs).
  fold (main_download_dir w) in Hdir. subst d.
  match goal with
  | |- context [snd (mkdtemp w ?a ?b ?s)] =>
      generalize dependent (snd (mkdtemp w a b s))
  end.
  intros st4 H Hmk Hs.
  cbn [snd log emit fs s3] in Hmk, Hs.
  destruct V3 as [V3f V3s]. rewrite V3f in Hmk. rewrite V3s in Hs.
  (* set_download_dir and the log line *)
  change ((set_download_dir (Some (main_download_dir w)) ≫= ?k) st4)
    with (k tt (snd (set_download_dir (Some (main_download_dir w)) st4)))
    in H |- *.
  cbv beta in H |- *. rewrite bind_log_run in H |- *.
  (* download_model_from_hf *)
  destruct (bind_exit_0_run _ _ _
              (raises_download_model_from_hf w faults _ _ _) H)
    as (p & _ & Heq).
  rewrite Heq in H |- *. clear Heq.
  match goal with
  | |- context [snd (download_model_from_hf w ?m ?d ?t ?s)] =>
      destruct (download_model_from_hf_state w m d t s) as [Hf5 Hs5];
      generalize dependent (snd (download_model_from_hf w m d t s))
  end.
  intros st5 H Hf5 Hs5.
  cbn [snd log emit set_download_dir fs s3] in Hf5, Hs5.
  fold (main_hub w) in Hf5.
  assert (Hdir5 : Fs.stat (fs st5) (cwd w) (main_download_dir w)
                  = Some (Dir (hub_files (main_hub w)))).
  { rewrite Hf5. apply (make_dir_put_stat _ _ _ _ _ Hmk). }
  (* upload_directory_to_s3 *)
  destruct (bind_exit_0_run _ _ _
              (raises_upload_directory_to_s3 w faults _ _ _ _ _) H)
    as (u & Hu & Heq).
  rewrite Heq in H |- *. clear Heq.
  intros names content Hc.
  pose proof (upload_directory_to_s3_returns_inv w _ _ _ _ _ _ _ u Hcwd Hdir5 Hwf
                Hu names content Hc) as Ho.
  rewrite normalize_full_s3_prefix in Ho. exact Ho.
Qed.

End ExitZero.

(** X13. The exit status 0 can be trusted.  When what the collaborators raise
    are errors and the hub delivers a tree with proper names, a run of [main]
    that ends by [SystemExit(0)] either found an object under the model's
    prefix in the bucket when it started, or has left every regular file the
    hub delivered in the bucket, under the key made of the model's prefix and
    the file's relative path, with the file's content.  Nothing is assumed
    about the faults of the store, the environment or the order of the
    uploads: a run in which any upload failed does not end with status 0. *)
Theorem main_exit_0_means_stored :
  forall (w : world) (st : state),
    faults_are_errors w ->
    Path.isabs (cwd w) = true ->
    wf_node (Dir (hub_files (main_hub w))) = true ->
    fst (main w st) = Raise (SystemExit 0) ->
    (exists key,
       Py.startswith (main_prefix w) key = true
       /\ is_Some (object st (config_of_env w).(s3_bucket) key))
    \/ (forall names content,
          Fs.resolve names (Dir (hub_files (main_hub w))) = Some (File content) ->
          object (snd (main w st)) (config_of_env w).(s3_bucket)
            (main_prefix w +:+ Py.str_join "/" names) = Some content).
Proof.
  intros w st faults Hcwd Hwf Hexit.
  rewrite main_unfold in Hexit |- *.
  rewrite try_finally_fst in Hexit by apply main_finally_returns.
  destruct (main_try_exit w (snd (main_start st)) faults)
    as (code & Htry & _ & Hbody).
  rewrite Htry in Hexit. injection Hexit as ->. specialize (Hbody eq_refl).
  destruct (main_body_exit_0 w faults Hcwd Hwf _ Hbody) as [Hfound|Hstored];
    [left; exact Hfound|right].
  intros names content Hc. specialize (Hstored names content Hc).
  unfold try_finally, try_except.
  destruct (main_body w (snd (main_start st))) as [r st1]. cbn [fst snd] in *.
  subst r. cbn [main_handlers is_ClientError is_HfHubHTTPError is_OSError
                is_Exception].
  pose proof (main_finally_s3 w st1) as Hs.
  destruct (main_finally w st1) as [[u|e] st2]; cbn [snd] in *;
    unfold object in *; rewrite Hs; exact Hstored.
Qed.

Lemma main_exit_0_means_stored_witness :
  object (snd (main Examples.test_world Examples.fresh_state)) "test-bucket"
    "models/gpt2/c.txt" = Some "cc".
Proof.
  destruct (main_exit_0_means_stored Examples.test_world Examples.fresh_state)
    as [(key & _ & [c Hc])|H].
  - repeat split; intros; discriminate.
  - reflexivity.
  - reflexivity.
  - vm_compute. reflexivity.
  - vm_compute in Hc. discriminate Hc.
  - apply (H ["c.txt"] "cc"). reflexivity.
Defined.
